(** * Room-scoped realtime event broker (src/server/server.ts)

    A shallow embedding of the socket.io server of the class-interactor:
    the channel-name pattern [roomRegEx], the namespaces of the server and
    the authorizer of the dynamic ones, the connection handler with its
    replay of pending state, and the event handlers of the administrator
    and viewer interfaces, over an explicit model of the relational store
    (tables [Room], [Poll], [Question]) and a trace of the emissions each
    handler performs.

    Modelling conventions.
    - JavaScript strings are [string]; row identities and timestamps are [Z].
    - A table is the list of its rows, in table order; [where] is [filter],
      [first] is the head of the filtered list.
    - The schema lives in the migrations and not in the server. It is taken
      as the data model gives it: the identity of a row is a key drawn from
      a per-table sequence unless the insert names it, [created_at] is the
      current time, [approved] false, [votes] zero, [ended_at] null, and
      the content of a question may be null.
    - A JSON number of the table is a double.
    - The server holds its namespaces by name. The main one, [/], is there
      from the start. A connection to a name that has a namespace joins it
      without the authorizer being asked; a connection to any other name
      goes to the authorizer of the dynamic namespace ([io.of(fn)]), which
      makes a child namespace on acceptance, and the connection handler is
      the listener of the children. [io.of(name)] in a handler returns the
      namespace of that name and makes one, without listener, if there is
      none.
    - An event is what the handler's parameters receive: an argument, which
      may be missing, and an acknowledgement function, which may be
      missing.
    - A handler with one statement on the store runs as one step. The
      transaction of [PollResponse] has two, and may be suspended between
      its select and its update ([Suspend], [Resume]); steps of other
      handlers, and of other responses, run in between. The store runs
      transactions at its default isolation: the update of a resumed
      transaction overwrites what was committed since its select.
    - An unhandled rejection ends the process: the server takes no further
      input. *)

From Stdlib Require Import ZArith List String Ascii Bool Lia DecimalString.
From stdpp Require Import base option list strings gmap fin_maps.

Local Open Scope string_scope.
Local Open Scope Z_scope.
Local Open Scope list_scope.

(** ** The channel-name pattern *)

Module RoomRegEx.

(** [roomRegEx = /^\/rooms\/(?:([^\/]+?))(?:\/([^\/]+?))?\/?$/i] *)

Definition is_slash (c : ascii) : bool := Ascii.eqb c "/".

(** Canonicalisation of the [i] flag on the ASCII letters of the literal. *)
Definition to_upper (c : ascii) : ascii :=
  let n := nat_of_ascii c in
  if (97 <=? n)%nat && (n <=? 122)%nat then ascii_of_nat (n - 32) else c.

Definition char_eq_ci (p c : ascii) : bool :=
  Ascii.eqb (to_upper p) (to_upper c).

(** Match the literal [lit] at the start of [s], ignoring case; the rest of
    [s] on success. *)
Fixpoint literal_ci (lit s : string) : option string :=
  match lit with
  | EmptyString => Some s
  | String p lit' =>
      match s with
      | EmptyString => None
      | String c s' => if char_eq_ci p c then literal_ci lit' s' else None
      end
  end.

(** The run of characters matched by [[^\/]*] at the start of [s], and what
    follows it. *)
Fixpoint segment (s : string) : string * string :=
  match s with
  | EmptyString => (EmptyString, EmptyString)
  | String c s' =>
      if is_slash c then (EmptyString, s)
      else let (seg, rest) := segment s' in (String c seg, rest)
  end.

Definition is_empty (s : string) : bool :=
  match s with EmptyString => true | _ => false end.

(** [roomRegEx.exec(name)]: [None] for [null]; otherwise the two capture
    groups, the second one [None] when it is [undefined]. *)
Definition exec (name : string) : option (string * option string) :=
  match literal_ci "/rooms/" name with
  | None => None
  | Some rest =>
      let (rid, after_rid) := segment rest in
      if is_empty rid then None
      else
        match after_rid with
        | EmptyString => Some (rid, None)
        | String _ EmptyString => Some (rid, None)
        | String _ after_slash =>
            let (adm, after_adm) := segment after_slash in
            if is_empty adm then None
            else
              match after_adm with
              | EmptyString => Some (rid, Some adm)
              | String _ EmptyString => Some (rid, Some adm)
              | _ => None
              end
        end
  end.

(** A string the class [[^\/]+] matches as a whole. *)
Fixpoint no_slash (s : string) : bool :=
  match s with
  | EmptyString => true
  | String c s' => negb (is_slash c) && no_slash s'
  end.

Definition token (s : string) : Prop := s <> EmptyString /\ no_slash s = true.

(** The character [c] is the letter written [l] in lower and [u] in upper
    case. *)
Definition letter (l u c : ascii) : Prop := c = l \/ c = u.

(** The seven characters of the prefix: the slashes as they are, each
    letter of [rooms] in either case. *)
Definition rooms_prefix (p : string) : Prop :=
  exists r o1 o2 m s,
    p = String "/" (String r (String o1 (String o2 (String m (String s "/")))))
    /\ letter "r" "R" r /\ letter "o" "O" o1 /\ letter "o" "O" o2
    /\ letter "m" "M" m /\ letter "s" "S" s.

(** The language of the pattern, written out: the prefix, a token, and then
    nothing, a slash, a slash and a token, or a slash, a token and a slash. *)
Inductive matches : string -> string -> option string -> Prop :=
| m_room p r : rooms_prefix p -> token r -> matches (p +:+ r) r None
| m_room_slash p r : rooms_prefix p -> token r -> matches (p +:+ r +:+ "/") r None
| m_role p r a : rooms_prefix p -> token r -> token a ->
    matches (p +:+ r +:+ "/" +:+ a) r (Some a)
| m_role_slash p r a : rooms_prefix p -> token r -> token a ->
    matches (p +:+ r +:+ "/" +:+ a +:+ "/") r (Some a).

End RoomRegEx.

(** ** The store *)

(** The values a tally entry takes: a number, [NaN] (in memory only, what
    [undefined + 1] gives; an infinity, which JSON writes the same way, is
    taken for it), [null] (what JSON makes of [NaN]) and a string. *)
Inductive jsnum := JNum (n : Z) | JNaN | JNull | JText (s : string).

Record Room := mkRoom { room_id : Z; room_visibleId : string }.

Record Poll := mkPoll {
  poll_id : Z;
  poll_roomId : Z;
  poll_values : gmap string jsnum;
  poll_created_at : Z;
  poll_ended_at : option Z }.

Record Question := mkQuestion {
  question_id : Z;
  question_roomId : Z;
  question_content : option string;
  question_approved : bool;
  question_votes : Z;
  question_created_at : Z }.

Record Store := mkStore {
  Rooms : list Room;
  Polls : list Poll;
  Questions : list Question;
  poll_seq : Z;
  question_seq : Z }.

Definition with_Polls (st : Store) (ps : list Poll) : Store :=
  mkStore (Rooms st) ps (Questions st) (poll_seq st) (question_seq st).

Definition with_Questions (st : Store) (qs : list Question) : Store :=
  mkStore (Rooms st) (Polls st) qs (poll_seq st) (question_seq st).

Module Tally.

Definition labels : list string := ["A"; "B"; "C"; "D"; "E"].

(** [{ A: 0, B: 0, C: 0, D: 0, E: 0 }] *)
Definition zero : gmap string jsnum :=
  <["A" := JNum 0]> (<["B" := JNum 0]> (<["C" := JNum 0]>
    (<["D" := JNum 0]> (<["E" := JNum 0]> ∅)))).

(** The double nearest to an integer, ties going to the even mantissa;
    [None] beyond the largest double. Up to [2^53] every integer is a
    double. *)
Definition double (m : Z) : option Z :=
  let a := Z.abs m in
  if a <=? 2 ^ 53 then Some m
  else
    let u := 2 ^ (Z.log2 a - 52) in
    let q := a / u in
    let r := a mod u in
    let q' :=
      if 2 * r <? u then q
      else if u <? 2 * r then q + 1
      else if Z.even q then q else q + 1 in
    if 2 ^ 1024 <=? q' * u then None else Some (Z.sgn m * (q' * u)).

(** The properties an object inherits from [Object.prototype], with what
    each gives when a number is added to it: a string. *)
Definition inherited (k : string) : option string :=
  if decide (k = "__proto__") then Some "[object Object]"
  else if decide (k = "constructor") then Some "function Object() { [native code] }"
  else if decide (k ∈ ["__defineGetter__"; "__defineSetter__"; "hasOwnProperty";
                       "__lookupGetter__"; "__lookupSetter__"; "isPrototypeOf";
                       "propertyIsEnumerable"; "toString"; "valueOf";
                       "toLocaleString"])
       then Some ("function " +:+ k +:+ "() { [native code] }")
  else None.

(** [values[k]]: the object's own entry, or what it inherits. *)
Definition read (values : gmap string jsnum) (k : string) : option jsnum :=
  match values !! k with
  | Some v => Some v
  | None => JText <$> inherited k
  end.

(** [v + d] for [v] read from the object: the sum of doubles for a number,
    [null] counting as zero; [NaN] for [undefined] and [NaN]; the
    concatenation for a string. *)
Definition plus (v : option jsnum) (d : Z) : jsnum :=
  match v with
  | Some (JNum n) =>
      match double n with
      | Some x => match double (x + d) with Some y => JNum y | None => JNaN end
      | None => JNaN
      end
  | Some JNull => JNum d
  | Some JNaN => JNaN
  | Some (JText s) => JText (s +:+ NilZero.string_of_int (Z.to_int d))
  | None => JNaN
  end.

(** [values[k] += d]. The assignment to an inherited [__proto__] goes to
    its setter, which ignores a string. *)
Definition add_assign (k : string) (d : Z) (values : gmap string jsnum)
  : gmap string jsnum :=
  if decide (k = "__proto__" /\ values !! k = None) then values
  else <[k := plus (read values k) d]> values.

(** What the JSON column holds after the object is written. *)
Definition json (v : jsnum) : jsnum :=
  match v with JNaN => JNull | _ => v end.

Definition to_json (values : gmap string jsnum) : gmap string jsnum :=
  json <$> values.

(** The count of a label, when it is a number. *)
Definition count (values : gmap string jsnum) (k : string) : option Z :=
  match values !! k with Some (JNum n) => Some n | _ => None end.

End Tally.

(** ** Messages *)

(** A question record with the [roomId] field dropped,
    [({ roomId: dropRoomId, ...question }) => question]. *)
Record QuestionMsg := mkQuestionMsg {
  msg_id : Z;
  msg_content : option string;
  msg_approved : bool;
  msg_votes : Z;
  msg_created_at : Z }.

Definition drop_roomId (q : Question) : QuestionMsg :=
  mkQuestionMsg (question_id q) (question_content q) (question_approved q)
    (question_votes q) (question_created_at q).

Inductive payload :=
| NoPayload
| PollIdent (id : Z)
| TallyOf (values : gmap string jsnum)
| QuestionList (qs : list QuestionMsg)
| QuestionRec (q : QuestionMsg)
| Choice (newChoice : string)
| Flag (b : bool)
| Failure
| Reaction (id : string) (position : Z) (codePoint : string).

(** What a handler does that the outside can see, in program order: an
    emission to a namespace, to one socket, an acknowledgement, the
    statements of the transaction, and the rejection of the handler's
    promise. *)
Inductive effect :=
| NspEmit (nsp : string) (ev : string) (p : payload)
| SocketEmit (sid : nat) (ev : string) (p : payload)
| Callback (sid : nat) (p : payload)
| TrxBegin
| TrxSelect (pollId : Z)
| TrxUpdate (pollId : Z) (values : gmap string jsnum)
| TrxCommit
| TrxRollback
| Unhandled.

(** ** Connections *)

Record Socket := mkSocket { sid : nat; nsp : string }.

(** The variables the handlers close over. *)
Record Session := mkSession {
  socket : Socket;
  roomName : string;
  roomId : Z;
  admin : option string }.

(** Truthiness of a value that is a string or [undefined]. *)
Definition truthy (v : option string) : bool :=
  match v with
  | Some s => negb (RoomRegEx.is_empty s)
  | None => false
  end.

(** The object the transaction of [PollResponse] holds when it writes, from
    the one it read: the two assignments of the handler, in their order. *)
Definition voted (prevChoice : option string) (newChoice : string)
    (values : gmap string jsnum) : gmap string jsnum :=
  Tally.add_assign newChoice 1
    match prevChoice with
    | Some prev =>
        if truthy prevChoice then Tally.add_assign prev (-1) values else values
    | None => values
    end.

Inductive Role := Administrator | Viewer.

#[global] Instance Role_eq_dec : EqDecision Role.
Proof. solve_decision. Defined.

Definition role (s : Session) : Role :=
  if truthy (admin s) then Administrator else Viewer.

(** [`/rooms/${roomName}`] and [`/rooms/${roomName}/admin`] *)
Definition viewer_nsp (roomName : string) : string := "/rooms/" +:+ roomName.
Definition admin_nsp (roomName : string) : string :=
  "/rooms/" +:+ roomName +:+ "/admin".

(** What the outside supplies to a step: the store's clock, whether the
    commit of a transaction goes through, the random draws of
    [ReactionSend], and which of the two replay queries of a connection
    answers first. *)
Record Env := mkEnv {
  now : Z;
  commit_ok : bool;
  uuid : string;
  position : Z;
  questions_first : bool }.

(** The argument of [QuestionAsk] as the spread [...data] reads it: the
    columns of the table it names, with their values, and whether it names
    a key that is no column of the table or gives a column a value it
    cannot take (a string or an array spreads its indices). An argument
    that is a number, a boolean, [null] or [undefined] names nothing. *)
Record AskData := mkAskData {
  ask_content : option string;
  ask_id : option Z;
  ask_roomId : option Z;
  ask_votes : option Z;
  ask_approved : option bool;
  ask_created_at : option Z;
  ask_other : bool }.

(** An event with the argument its handler destructures and, where the
    handler calls one, an acknowledgement function; [NoArgument] is the
    named event with [undefined] or [null] for argument, [NoCallback] an
    event without the acknowledgement function. *)
Inductive ClientEvent :=
| PollLaunch
| PollReveal (pollId : Z)
| PollToggle (pollId : Z)
| PollEnd (pollId : Z)
| QuestionApprove (questionId : Z)
| QuestionClear
| PollResponse (id : Z) (prevChoice : option string) (newChoice : string)
| ReactionSend (codePoint : string)
| QuestionAsk (data : AskData)
| QuestionUpvote (questionId : Z)
| NoArgument (name : string) (ack : bool)
| NoCallback (ev : ClientEvent).

(** ** Queries *)

Definition room_by_visibleId (st : Store) (visibleId : string) : option Room :=
  head (filter (fun r => room_visibleId r = visibleId) (Rooms st)).

Definition poll_by_id (st : Store) (pollId : Z) : option Poll :=
  head (filter (fun p => poll_id p = pollId) (Polls st)).

(** [orderBy("created_at", "desc")], as a stable insertion sort: rows of
    one creation time stay in table order. *)
Fixpoint insert_desc (p : Poll) (sorted : list Poll) : list Poll :=
  match sorted with
  | [] => [p]
  | q :: rest =>
      if poll_created_at q <=? poll_created_at p then p :: q :: rest
      else q :: insert_desc p rest
  end.

Definition order_desc (ps : list Poll) : list Poll :=
  foldr insert_desc [] ps.

Definition polls_of_room (st : Store) (roomId : Z) : list Poll :=
  order_desc (filter (fun p => poll_roomId p = roomId) (Polls st)).

(** [update(f, ["*"])] under [where({ id })]: the table after the update and
    the rows it returned. *)
Definition update_question (questionId : Z) (f : Question -> Question)
    (qs : list Question) : list Question * list Question :=
  (map (fun q => if decide (question_id q = questionId) then f q else q) qs,
   map f (filter (fun q => question_id q = questionId) qs)).

Definition set_approved (q : Question) : Question :=
  mkQuestion (question_id q) (question_roomId q) (question_content q) true
    (question_votes q) (question_created_at q).

Definition add_vote (q : Question) : Question :=
  mkQuestion (question_id q) (question_roomId q) (question_content q)
    (question_approved q) (question_votes q + 1) (question_created_at q).

Definition set_ended_at (t : Z) (p : Poll) : Poll :=
  mkPoll (poll_id p) (poll_roomId p) (poll_values p) (poll_created_at p) (Some t).

Definition set_values (values : gmap string jsnum) (p : Poll) : Poll :=
  mkPoll (poll_id p) (poll_roomId p) values (poll_created_at p) (poll_ended_at p).

Definition update_poll (pollId : Z) (f : Poll -> Poll) (ps : list Poll) : list Poll :=
  map (fun p => if decide (poll_id p = pollId) then f p else p) ps.

(** ** The authorizer of the dynamic namespace *)

(** The callback of [io.of]: the value passed to [next]. *)
Definition authorize (st : Store) (name : string) : bool :=
  match RoomRegEx.exec name with
  | None => false
  | Some (rid, _) =>
      match room_by_visibleId st rid with
      | None => false
      | Some _ => true
      end
  end.

(** ** Handlers *)

(** A trace up to the first call of [callback] when there is no such
    function: the call throws, and what follows it is not run. *)
Fixpoint until_callback (out : list effect) : list effect :=
  match out with
  | [] => []
  | Callback _ _ :: _ => [Unhandled]
  | e :: rest => e :: until_callback rest
  end.

(** A handler all of whose statements on the store come before its call of
    [callback], run with or without the function. *)
Definition acknowledging (ack : bool) (f : Store -> Store * list effect)
    (st : Store) : Store * list effect :=
  if ack then f st
  else let (st', out) := f st in (st', until_callback out).

(** An argument that names nothing. *)
Definition nothing_asked : AskData :=
  mkAskData None None None None None None false.

Section Handlers.

Variable s : Session.
Variable env : Env.

Let me : nat := sid (socket s).
Let viewers : string := viewer_nsp (roomName s).
Let admins : string := admin_nsp (roomName s).

Definition on_PollLaunch (st : Store) : Store * list effect :=
  let poll := PollIdent (poll_seq st) in
  let row := mkPoll (poll_seq st) (roomId s) Tally.zero (now env) None in
  (mkStore (Rooms st) (Polls st ++ [row]) (Questions st)
     (poll_seq st + 1) (question_seq st),
   [NspEmit viewers "PollStart" poll; Callback me poll]).

Definition on_PollReveal (pollId : Z) (st : Store) : Store * list effect :=
  match poll_by_id st pollId with
  | None => (st, [Unhandled])
  | Some poll => (st, [NspEmit viewers "PollResults" (TallyOf (poll_values poll))])
  end.

Definition on_PollToggle (pollId : Z) (st : Store) : Store * list effect :=
  (st, [NspEmit viewers "PollToggle" NoPayload]).

Definition on_PollEnd (pollId : Z) (st : Store) : Store * list effect :=
  (with_Polls st (update_poll pollId (set_ended_at (now env)) (Polls st)),
   [NspEmit viewers "PollEnd" NoPayload; Callback me (Flag true)]).

Definition on_QuestionApprove (questionId : Z) (st : Store) : Store * list effect :=
  let (table, rows) := update_question questionId set_approved (Questions st) in
  match rows with
  | [] => (with_Questions st table, [Unhandled])
  | row :: _ =>
      let question := drop_roomId row in
      (with_Questions st table,
       [NspEmit viewers "QuestionNew" (QuestionList [question]);
        Callback me (QuestionRec question)])
  end.

Definition on_QuestionClear (st : Store) : Store * list effect :=
  (with_Questions st (filter (fun q => question_roomId q <> roomId s) (Questions st)),
   [NspEmit viewers "QuestionClear" NoPayload;
    SocketEmit me "QuestionClear" NoPayload]).

(** The transaction up to the answer of its select. When the row is missing,
    reading [poll.values] throws, the transaction is rolled back and the
    [catch] calls [callback] with the error. *)
Definition PollResponse_select (ack : bool) (pollId : Z) (st : Store)
  : option Poll * list effect :=
  match poll_by_id st pollId with
  | None =>
      (None, [TrxBegin; TrxSelect pollId; TrxRollback;
              if ack then Callback me Failure else Unhandled])
  | Some poll => (Some poll, [TrxBegin; TrxSelect pollId])
  end.

(** The transaction from its update on, with the row its select returned:
    the update writes the object computed from that row, the tally is
    emitted and the submitter acknowledged, and the store is asked to
    commit. Without an acknowledgement function the call throws inside the
    body, the transaction is rolled back and the call in the [catch]
    throws again. *)
Definition PollResponse_write (ack : bool) (pollId : Z)
    (prevChoice : option string) (newChoice : string) (poll : Poll) (st : Store)
  : Store * list effect :=
  let values := voted prevChoice newChoice (poll_values poll) in
  let sent :=
    [TrxUpdate pollId (Tally.to_json values);
     NspEmit admins "PollResults" (TallyOf values)] in
  if ack then
    if commit_ok env then
      (with_Polls st (update_poll pollId (set_values (Tally.to_json values)) (Polls st)),
       sent ++ [Callback me (Choice newChoice); TrxCommit])
    else (st, sent ++ [Callback me (Choice newChoice); TrxRollback; Callback me Failure])
  else (st, sent ++ [TrxRollback; Unhandled]).

(** The two parts with nothing run between them. *)
Definition respond (ack : bool) (pollId : Z) (prevChoice : option string)
    (newChoice : string) (st : Store) : Store * list effect :=
  match PollResponse_select ack pollId st with
  | (None, out) => (st, out)
  | (Some poll, out) =>
      let (st', out') :=
        PollResponse_write ack pollId prevChoice newChoice poll st in
      (st', out ++ out')
  end.

(** The handler on an event with its argument and acknowledgement function,
    when nothing runs between the select and the update. The body of the
    transaction runs to its end, emission and acknowledgement included,
    before the store is asked to commit. When the row is missing, reading
    [poll.values] throws inside the body. *)
Definition on_PollResponse (pollId : Z) (prevChoice : option string)
    (newChoice : string) (st : Store) : Store * list effect :=
  match poll_by_id st pollId with
  | None => (st, [TrxBegin; TrxSelect pollId; TrxRollback; Callback me Failure])
  | Some poll =>
      let values := poll_values poll in
      let values :=
        match prevChoice with
        | Some prev =>
            if truthy prevChoice then Tally.add_assign prev (-1) values else values
        | None => values
        end in
      let values := Tally.add_assign newChoice 1 values in
      let body :=
        [TrxBegin; TrxSelect pollId; TrxUpdate pollId (Tally.to_json values);
         NspEmit admins "PollResults" (TallyOf values);
         Callback me (Choice newChoice)] in
      if commit_ok env then
        (with_Polls st (update_poll pollId (set_values (Tally.to_json values)) (Polls st)),
         body ++ [TrxCommit])
      else (st, body ++ [TrxRollback; Callback me Failure])
  end.

Definition on_ReactionSend (codePoint : string) (st : Store) : Store * list effect :=
  if truthy (Some codePoint) then
    (st, [NspEmit viewers "ReactionShow" (Reaction (uuid env) (position env) codePoint)])
  else (st, []).

(** [insert({ roomId, ...data, approved: false }, ["*"])]: a field of [data]
    replaces the one written before it and is replaced by the one written
    after it. The insert fails, and the handler with it, on a key that is
    no column and on an identity the table holds already; an identity drawn
    from the sequence is used up even then. *)
Definition on_QuestionAsk (data : AskData) (st : Store) : Store * list effect :=
  if ask_other data then (st, [Unhandled])
  else
    let id := default (question_seq st) (ask_id data) in
    let seq :=
      match ask_id data with
      | Some _ => question_seq st
      | None => question_seq st + 1
      end in
    if decide (id ∈ map question_id (Questions st)) then
      (mkStore (Rooms st) (Polls st) (Questions st) (poll_seq st) seq, [Unhandled])
    else
      let row :=
        mkQuestion id
          (default (roomId s) (ask_roomId data))
          (ask_content data)
          false
          (default 0 (ask_votes data))
          (default (now env) (ask_created_at data)) in
      (mkStore (Rooms st) (Polls st) (Questions st ++ [row]) (poll_seq st) seq,
       [Callback me (Flag true);
        NspEmit admins "QuestionNew" (QuestionList [drop_roomId row])]).

Definition on_QuestionUpvote (questionId : Z) (st : Store) : Store * list effect :=
  let (table, rows) := update_question questionId add_vote (Questions st) in
  match rows with
  | [] => (with_Questions st table, [Unhandled])
  | row :: _ =>
      let question := drop_roomId row in
      (with_Questions st table,
       [NspEmit viewers "QuestionNew" (QuestionList [question]);
        NspEmit admins "QuestionNew" (QuestionList [question])])
  end.

(** The handler of an event that carries its argument, with or without
    the acknowledgement function. *)
Definition complete (ack : bool) (ev : ClientEvent) : Store -> Store * list effect :=
  match ev with
  | PollLaunch => acknowledging ack on_PollLaunch
  | PollReveal pollId => on_PollReveal pollId
  | PollToggle pollId => on_PollToggle pollId
  | PollEnd pollId => acknowledging ack (on_PollEnd pollId)
  | QuestionApprove questionId => acknowledging ack (on_QuestionApprove questionId)
  | QuestionClear => on_QuestionClear
  | PollResponse id prevChoice newChoice =>
      if ack then on_PollResponse id prevChoice newChoice
      else respond false id prevChoice newChoice
  | ReactionSend codePoint => on_ReactionSend codePoint
  | QuestionAsk data => acknowledging ack (on_QuestionAsk data)
  | QuestionUpvote questionId => on_QuestionUpvote questionId
  | _ => fun st => (st, [])
  end.

(** The handler of the event [name] when its argument is [undefined] or
    [null]: [PollLaunch] does not read it, the spread of [QuestionAsk]
    takes nothing from it, [ReactionSend] finds it falsy, and the
    destructuring of every other handler throws. *)
Definition bare (name : string) (ack : bool) (st : Store) : Store * list effect :=
  if decide (name = "PollLaunch") then acknowledging ack on_PollLaunch st
  else if decide (name = "QuestionAsk")
       then acknowledging ack (on_QuestionAsk nothing_asked) st
  else if decide (name ∈ ["PollReveal"; "PollToggle"; "PollEnd"; "QuestionApprove";
                          "QuestionClear"; "PollResponse"; "QuestionUpvote"])
       then (st, [Unhandled])
  else (st, []).

Fixpoint handler_ack (ack : bool) (ev : ClientEvent) : Store -> Store * list effect :=
  match ev with
  | NoCallback ev' => handler_ack false ev'
  | NoArgument name a => bare name (ack && a)
  | _ => complete ack ev
  end.

End Handlers.

Definition handler (s : Session) (env : Env) (ev : ClientEvent)
  : Store -> Store * list effect :=
  handler_ack s env true ev.

(** ** The connection handler *)

(** The event names [socket.on] is called with, for a value of [admin]. *)
Definition registered (admin : option string) : list string :=
  (if truthy admin
   then ["PollLaunch"; "PollReveal"; "PollToggle"; "PollEnd";
         "QuestionApprove"; "QuestionClear"]
   else ["PollResponse"; "ReactionSend"])
  ++ ["QuestionAsk"; "QuestionUpvote"; "disconnect"].

(** The pending poll a newly connected client is sent. *)
Definition replay_poll (st : Store) (k : Socket) (roomId : Z) : list effect :=
  match polls_of_room st roomId with
  | [] => []
  | poll :: _ =>
      match poll_ended_at poll with
      | None => [SocketEmit (sid k) "PollStart" (PollIdent (poll_id poll))]
      | Some _ => []
      end
  end.

(** The questions a newly connected client is sent. *)
Definition replay_questions (st : Store) (roomId : Z) (admin : option string)
  : list Question :=
  if truthy admin
  then filter (fun q => question_roomId q = roomId) (Questions st)
  else filter (fun q => question_roomId q = roomId /\ question_approved q = true)
         (Questions st).

(** [rooms.on("connection", ...)]: the session whose handlers are bound, if
    any, and what the socket is sent. Destructuring a room that is not
    there throws. The two replay queries are not awaited: their answers
    are sent in the order they come in. *)
Definition on_connection (env : Env) (st : Store) (k : Socket)
  : option Session * list effect :=
  match RoomRegEx.exec (nsp k) with
  | None => (None, [SocketEmit (sid k) "RoomError" NoPayload])
  | Some (roomName, admin) =>
      match room_by_visibleId st roomName with
      | None => (None, [Unhandled])
      | Some room =>
          let roomId := room_id room in
          let polls := replay_poll st k roomId in
          let questions :=
            [SocketEmit (sid k) "QuestionNew"
               (QuestionList (map drop_roomId (replay_questions st roomId admin)))] in
          (Some (mkSession k roomName roomId admin),
           if questions_first env then questions ++ polls else polls ++ questions)
      end
  end.

Fixpoint event_name (ev : ClientEvent) : string :=
  match ev with
  | PollLaunch => "PollLaunch"
  | PollReveal _ => "PollReveal"
  | PollToggle _ => "PollToggle"
  | PollEnd _ => "PollEnd"
  | QuestionApprove _ => "QuestionApprove"
  | QuestionClear => "QuestionClear"
  | PollResponse _ _ _ => "PollResponse"
  | ReactionSend _ => "ReactionSend"
  | QuestionAsk _ => "QuestionAsk"
  | QuestionUpvote _ => "QuestionUpvote"
  | NoArgument name _ => name
  | NoCallback ev' => event_name ev'
  end.

(** An event runs the handler bound to its name on this socket; an event
    without a handler is dropped. *)
Definition dispatch (s : Session) (env : Env) (ev : ClientEvent) (st : Store)
  : Store * list effect :=
  if bool_decide (event_name ev ∈ registered (admin s))
  then handler s env ev st
  else (st, []).

(** ** The server *)

(** How a namespace has come to be: [Child] of the dynamic one, made when
    the authorizer lets the first connection to the name through, with the
    connection handler of the dynamic namespace for listener; [Plain], made
    by the server itself ([/]) or by a handler's [io.of(name)] on a name no
    client had connected to, with no listener at all. *)
Inductive NspKind := Child | Plain.

#[global] Instance NspKind_eq_dec : EqDecision NspKind.
Proof. solve_decision. Defined.

(** A [PollResponse] between its select and its update: who sent what,
    with or without the acknowledgement function, and the row read. *)
Record Txn := mkTxn {
  txn_id : nat;
  txn_session : Session;
  txn_pollId : Z;
  txn_prevChoice : option string;
  txn_newChoice : string;
  txn_ack : bool;
  txn_read : Poll }.

Record Server := mkServer {
  store : Store;
  nsps : gmap string NspKind;
  sockets : list Socket;
  sessions : list Session;
  inflight : list Txn;
  socket_seq : nat;
  txn_seq : nat;
  crashed : bool }.

Inductive Input :=
| Connect (name : string)
| Receive (from : nat) (ev : ClientEvent)
| Suspend (from : nat) (ev : ClientEvent)
| Resume (txn : nat)
| Disconnect (from : nat).

Definition session_of (srv : Server) (from : nat) : option Session :=
  head (filter (fun s => sid (socket s) = from) (sessions srv)).

Definition txn_of (srv : Server) (txn : nat) : option Txn :=
  head (filter (fun t => txn_id t = txn) (inflight srv)).

(** The poll, choices and acknowledgement of an event that is a
    [PollResponse] with its argument. *)
Fixpoint response_of (ack : bool) (ev : ClientEvent)
  : option (Z * option string * string * bool) :=
  match ev with
  | PollResponse id prevChoice newChoice => Some (id, prevChoice, newChoice, ack)
  | NoCallback ev' => response_of false ev'
  | _ => None
  end.

(** [io.of(name)] returns the namespace of that name and makes it if there
    is none: the namespaces after the emissions of a trace. *)
Definition opened (out : list effect) (ns : gmap string NspKind)
  : gmap string NspKind :=
  foldl (fun acc e =>
           match e with
           | NspEmit name _ _ =>
               match acc !! name with
               | None => <[name := Plain]> acc
               | Some _ => acc
               end
           | _ => acc
           end) ns out.

Definition is_unhandled (e : effect) : bool :=
  match e with Unhandled => true | _ => false end.

(** One input on a running server, before the namespaces its emissions
    open and the end of the process are accounted for. A connection to a
    namespace that exists joins it, and the connection handler runs if the
    namespace is a child of the dynamic one; a connection to any other name
    goes to the authorizer. *)
Definition step_running (env : Env) (srv : Server) (i : Input)
  : Server * list effect :=
  match i with
  | Connect name =>
      let k := mkSocket (socket_seq srv) name in
      match nsps srv !! name with
      | Some Plain =>
          (mkServer (store srv) (nsps srv) (sockets srv ++ [k]) (sessions srv)
             (inflight srv) (S (socket_seq srv)) (txn_seq srv) false,
           [])
      | Some Child =>
          let (bound, out) := on_connection env (store srv) k in
          (mkServer (store srv) (nsps srv) (sockets srv ++ [k])
             (sessions srv ++ option_list bound)
             (inflight srv) (S (socket_seq srv)) (txn_seq srv) false,
           out)
      | None =>
          if authorize (store srv) name then
            let (bound, out) := on_connection env (store srv) k in
            (mkServer (store srv) (<[name := Child]> (nsps srv)) (sockets srv ++ [k])
               (sessions srv ++ option_list bound)
               (inflight srv) (S (socket_seq srv)) (txn_seq srv) false,
             out)
          else (srv, [])
      end
  | Receive from ev =>
      match session_of srv from with
      | None => (srv, [])
      | Some s =>
          let (st, out) := dispatch s env ev (store srv) in
          (mkServer st (nsps srv) (sockets srv) (sessions srv) (inflight srv)
             (socket_seq srv) (txn_seq srv) false,
           out)
      end
  | Suspend from ev =>
      match session_of srv from with
      | None => (srv, [])
      | Some s =>
          match response_of true ev with
          | Some (pollId, prevChoice, newChoice, ack) =>
              if bool_decide ("PollResponse" ∈ registered (admin s)) then
                match PollResponse_select s ack pollId (store srv) with
                | (None, out) => (srv, out)
                | (Some poll, out) =>
                    (mkServer (store srv) (nsps srv) (sockets srv) (sessions srv)
                       (inflight srv
                        ++ [mkTxn (txn_seq srv) s pollId prevChoice newChoice ack poll])
                       (socket_seq srv) (S (txn_seq srv)) false,
                     out)
                end
              else (srv, [])
          | None =>
              let (st, out) := dispatch s env ev (store srv) in
              (mkServer st (nsps srv) (sockets srv) (sessions srv) (inflight srv)
                 (socket_seq srv) (txn_seq srv) false,
               out)
          end
      end
  | Resume txn =>
      match txn_of srv txn with
      | None => (srv, [])
      | Some t =>
          let (st, out) :=
            PollResponse_write (txn_session t) env (txn_ack t) (txn_pollId t)
              (txn_prevChoice t) (txn_newChoice t) (txn_read t) (store srv) in
          (mkServer st (nsps srv) (sockets srv) (sessions srv)
             (filter (fun t' => txn_id t' <> txn) (inflight srv))
             (socket_seq srv) (txn_seq srv) false,
           out)
      end
  | Disconnect from =>
      (mkServer (store srv) (nsps srv)
         (filter (fun k => sid k <> from) (sockets srv))
         (filter (fun s => sid (socket s) <> from) (sessions srv))
         (inflight srv) (socket_seq srv) (txn_seq srv) false,
       [])
  end.

(** One input: nothing on a server whose process has ended; otherwise the
    step, the namespaces its emissions have opened, and the end of the
    process if a handler's promise was rejected. *)
Definition step (env : Env) (srv : Server) (i : Input) : Server * list effect :=
  if crashed srv then (srv, [])
  else
    let (srv', out) := step_running env srv i in
    (mkServer (store srv') (opened out (nsps srv')) (sockets srv') (sessions srv')
       (inflight srv') (socket_seq srv') (txn_seq srv')
       (existsb is_unhandled out),
     out).

(** A run: the server after the inputs, and everything emitted, in order. *)
Fixpoint run (srv : Server) (inputs : list (Env * Input)) : Server * list effect :=
  match inputs with
  | [] => (srv, [])
  | (env, i) :: rest =>
      let (srv1, out1) := step env srv i in
      let (srv2, out2) := run srv1 rest in
      (srv2, out1 ++ out2)
  end.

(** The server as it starts: the rooms the persistence layer holds, no poll,
    no question, the main namespace and no connection. *)
Definition boot (rooms : list Room) : Server :=
  mkServer (mkStore rooms [] [] 1 1) {["/" := Plain]} [] [] [] 0%nat 0%nat false.

Inductive reachable : Server -> Prop :=
| reachable_boot rooms : reachable (boot rooms)
| reachable_step env srv i : reachable srv -> reachable (fst (step env srv i)).

(** ** Delivery *)

(** Whether the socket [k] is sent the effect: an emission to the namespace
    it is connected to, or one addressed to it. *)
Definition delivered (k : Socket) (e : effect) : bool :=
  match e with
  | NspEmit name _ _ => bool_decide (name = nsp k)
  | SocketEmit to _ _ => bool_decide (to = sid k)
  | Callback to _ => bool_decide (to = sid k)
  | _ => false
  end.

Definition inbox (k : Socket) (out : list effect) : list effect :=
  filter (fun e => delivered k e = true) out.

(** The role the connection handler binds for a socket of this namespace. *)
Definition role_of_nsp (name : string) : option Role :=
  match RoomRegEx.exec name with
  | None => None
  | Some (_, admin) => Some (if truthy admin then Administrator else Viewer)
  end.

(** The question records an effect carries. *)
Definition questions_in (e : effect) : list QuestionMsg :=
  match e with
  | NspEmit _ _ (QuestionList qs) | SocketEmit _ _ (QuestionList qs)
  | Callback _ (QuestionList qs) => qs
  | NspEmit _ _ (QuestionRec q) | SocketEmit _ _ (QuestionRec q)
  | Callback _ (QuestionRec q) => [q]
  | _ => []
  end.

Definition event_of (e : effect) : option string :=
  match e with
  | NspEmit _ ev _ | SocketEmit _ ev _ => Some ev
  | _ => None
  end.

(** The sessions of a room with a role: the audience the role names. *)
Definition audience (srv : Server) (room : Z) (r : Role) : list Session :=
  filter (fun s => roomId s = room /\ role s = r) (sessions srv).

(** ** Responses that take back a vote *)

(** A response whose previous choice, when it is one of the labels, is the
    new choice again or a label that the row the transaction reads counts at
    least once. *)
Definition takes_back_a_vote (st : Store) (i : Input) : Prop :=
  match i with
  | Receive _ ev | Suspend _ ev =>
      match response_of true ev with
      | Some (id, Some prev, newChoice, _) =>
          forall poll, poll_by_id st id = Some poll ->
            prev ∈ Tally.labels ->
            prev = newChoice
            \/ exists n, Tally.count (poll_values poll) prev = Some n /\ 1 <= n
      | _ => True
      end
  | _ => True
  end.

Inductive disciplined : Server -> Prop :=
| disciplined_boot rooms : disciplined (boot rooms)
| disciplined_step env srv i :
    disciplined srv -> takes_back_a_vote (store srv) i ->
    disciplined (fst (step env srv i)).

(** ** Sample data *)

Definition demo_env : Env := mkEnv 100 true "u-1" 42 false.

Definition demo_rooms : list Room := [mkRoom 1 "abc123"; mkRoom 2 "xyz789"].

Definition demo_store : Store := store (boot demo_rooms).

(** A payload that names the content only. *)
Definition asking (content : string) : AskData :=
  mkAskData (Some content) None None None None None false.

(** An administrator and a viewer join, and the administrator launches a
    poll. *)
Definition demo_launch : list (Env * Input) :=
  [(demo_env, Connect "/rooms/abc123/admin");
   (demo_env, Connect "/rooms/abc123");
   (demo_env, Receive 0 PollLaunch)].

(** The viewer then answers "B" while claiming a previous answer "A" that
    was never given. *)
Definition demo_unvote : list (Env * Input) :=
  demo_launch ++ [(demo_env, Receive 1 (PollResponse 1 (Some "A") "B"))].

(** The server and the store after the launch, the viewer's and the
    administrator's session on the room. *)
Definition demo_launched : Server := fst (run (boot demo_rooms) demo_launch).

Definition demo_polled : Store := store demo_launched.

Definition demo_viewer : Session :=
  mkSession (mkSocket 1 "/rooms/abc123") "abc123" 1 None.

Definition demo_admin : Session :=
  mkSession (mkSocket 0 "/rooms/abc123/admin") "abc123" 1 (Some "admin").

(** An administrator and two viewers join, a poll is launched, and the two
    viewers answer "A" and "B": both transactions read the row before
    either writes it. *)
Definition demo_overlap : list (Env * Input) :=
  [(demo_env, Connect "/rooms/abc123/admin");
   (demo_env, Connect "/rooms/abc123");
   (demo_env, Connect "/rooms/abc123");
   (demo_env, Receive 0 PollLaunch);
   (demo_env, Suspend 1 (PollResponse 1 None "A"));
   (demo_env, Suspend 2 (PollResponse 1 None "B"));
   (demo_env, Resume 0);
   (demo_env, Resume 1)].

(** The same two answers, one transaction after the other. *)
Definition demo_in_turn : list (Env * Input) :=
  [(demo_env, Connect "/rooms/abc123/admin");
   (demo_env, Connect "/rooms/abc123");
   (demo_env, Connect "/rooms/abc123");
   (demo_env, Receive 0 PollLaunch);
   (demo_env, Receive 1 (PollResponse 1 None "A"));
   (demo_env, Receive 2 (PollResponse 1 None "B"))].

(** A viewer asks a question before any administrator has joined. *)
Definition demo_asked_first : list (Env * Input) :=
  [(demo_env, Connect "/rooms/abc123");
   (demo_env, Receive 0 (QuestionAsk (asking "why?")))].

(** An administrator launches a poll before any viewer has joined. *)
Definition demo_launched_first : list (Env * Input) :=
  [(demo_env, Connect "/rooms/abc123/admin");
   (demo_env, Receive 0 PollLaunch)].

(** ** Sessions and orders of a trace *)

(** A session as the connection handler binds it on the store. *)
Definition bound_by (st : Store) (s : Session) : Prop :=
  exists env out, on_connection env st (socket s) = (Some s, out).

(** A connection the server accepts: the socket joins the namespace. *)
Definition accepted (env : Env) (srv : Server) (name : string) : Prop :=
  sockets (fst (step env srv (Connect name)))
  = sockets srv ++ [mkSocket (socket_seq srv) name].


(** An administrator and a viewer join, and the viewer asks a question. *)
Definition demo_asked_once : list (Env * Input) :=
  [(demo_env, Connect "/rooms/abc123/admin");
   (demo_env, Connect "/rooms/abc123");
   (demo_env, Receive 1 (QuestionAsk (asking "why?")))].

(** The administrator, who is sent it for approval, upvotes it before
    approving it. *)
Definition demo_leak : list (Env * Input) :=
  demo_asked_once ++ [(demo_env, Receive 0 (QuestionUpvote 1))].

(** A question of the other room, still to be approved, and an
    administrator of the first room. *)
Definition demo_question : Question :=
  mkQuestion 7 2 (Some "elsewhere?") false 3 90.

Definition demo_asked : Store := mkStore demo_rooms [] [demo_question] 1 8.

(** ** The clear signal *)

Definition is_clear (e : effect) : bool :=
  match event_of e with
  | Some ev => bool_decide (ev = "QuestionClear")
  | None => false
  end.

(** How many times a socket is sent the clear signal by a trace. *)
Definition received_clears (k : Socket) (out : list effect) : nat :=
  length (filter (fun e => is_clear e = true) (inbox k out)).

(** Two administrators and a viewer of one room; the viewer asks a
    question. *)
Definition demo_two_admins : list (Env * Input) :=
  [(demo_env, Connect "/rooms/abc123/admin");
   (demo_env, Connect "/rooms/abc123/admin");
   (demo_env, Connect "/rooms/abc123");
   (demo_env, Receive 2 (QuestionAsk (asking "why?")))].

Definition demo_second_admin : Session :=
  mkSession (mkSocket 1 "/rooms/abc123/admin") "abc123" 1 (Some "admin").


(** ** Ended polls *)

(** An identity whose rows are all ended, and that the sequence has passed. *)
Definition ended_for_good (pollId : Z) (srv : Server) : Prop :=
  pollId < poll_seq (store srv)
  /\ forall p, p ∈ Polls (store srv) -> poll_id p = pollId -> poll_ended_at p <> None.

(** ** Broadcasts, totals *)

Definition is_broadcast (e : effect) : bool :=
  match e with NspEmit _ _ _ => true | _ => false end.

(** The sum of the counts of the five labels, a label without a number
    counting for nothing. *)
Definition tally_total (values : gmap string jsnum) : Z :=
  foldr (fun L acc => default 0 (Tally.count values L) + acc) 0 Tally.labels.

(** A count below which adding or taking one is exact,
    [Number.MAX_SAFE_INTEGER]. *)
Definition safe (n : Z) : Prop := Z.abs n <= 2 ^ 53 - 1.

(** An administrator connected under a suffix of their own. *)
Definition demo_teacher : Socket := mkSocket 5 "/Rooms/abc123/teacher".

(** ** The earlier server (src/server.ts before the question board) *)

Module Legacy.

(** The replay of the earlier connection handler: the open polls of the
    room, latest first, and the first of them if there is one,
    [where({ roomId }).whereNull('ended_at').orderBy('created_at', 'desc')].
    The room is the one the channel token names there; it is taken as the
    store reads it. *)
Definition pending_polls (st : Store) (roomId : Z) : list Poll :=
  order_desc
    (filter (fun p => poll_ended_at p = None)
       (filter (fun p => poll_roomId p = roomId) (Polls st))).

Definition replay_poll (st : Store) (k : Socket) (roomId : Z) : list effect :=
  match pending_polls st roomId with
  | [] => []
  | poll :: _ => [SocketEmit (sid k) "PollStart" (PollIdent (poll_id poll))]
  end.

End Legacy.

(** ** The life of a question *)

(** The row [q0] and what has become of it: the same identity, room,
    content and creation time, no fewer votes, and approved if it was. *)
Definition grows_to (q0 q : Question) : Prop :=
  question_id q = question_id q0
  /\ question_roomId q = question_roomId q0
  /\ question_content q = question_content q0
  /\ question_created_at q = question_created_at q0
  /\ question_votes q0 <= question_votes q
  /\ (question_approved q0 = true -> question_approved q = true).

(** ** Counts as doubles *)

(** The integers the doubles hold without a gap. *)
Definition in_range (n : Z) : Prop := Z.abs n <= 2 ^ 53.

(** ** Targets and tables *)

(** Where an effect goes: the two namespaces of the session's room and the
    session's own socket. *)
Definition targets (s : Session) (e : effect) : Prop :=
  match e with
  | NspEmit name _ _ =>
      name = viewer_nsp (roomName s) \/ name = admin_nsp (roomName s)
  | SocketEmit to _ _ | Callback to _ => to = sid (socket s)
  | _ => True
  end.

(** What the handler of an event does to the poll table: nothing, a new
    open row under the next identity of the sequence, or rows rewritten in
    place, keeping their identity and an end timestamp they have. *)
Definition polls_step (st st' : Store) : Prop :=
  (Polls st' = Polls st /\ poll_seq st' = poll_seq st)
  \/ (exists r t,
        Polls st' = Polls st ++ [mkPoll (poll_seq st) r Tally.zero t None]
        /\ poll_seq st' = poll_seq st + 1)
  \/ (exists pollId f,
        Polls st' = update_poll pollId f (Polls st)
        /\ poll_seq st' = poll_seq st
        /\ forall p, poll_id (f p) = poll_id p
                     /\ (poll_ended_at p <> None -> poll_ended_at (f p) <> None)).


(** ** What a trace shows *)

Definition is_commit (e : effect) : bool :=
  match e with TrxCommit => true | _ => false end.

(** The acknowledgements of a trace, in order: the socket and the value. *)
Definition acknowledgements (out : list effect) : list (nat * payload) :=
  omap (fun e => match e with Callback to p => Some (to, p) | _ => None end) out.

(** The tallies a trace sends to a namespace, in order, as the counts of
    the five labels. *)
Definition tallies_sent (name : string) (out : list effect)
  : list (list (option Z)) :=
  omap (fun e =>
          match e with
          | NspEmit n _ (TallyOf v) =>
              if decide (n = name) then Some (map (Tally.count v) Tally.labels)
              else None
          | _ => None
          end) out.

(** The counts of the five labels of the polls of a store. *)
Definition counts (st : Store) : list (list (option Z)) :=
  map (fun p => map (Tally.count (poll_values p)) Tally.labels) (Polls st).

(** The viewer's session of the room of two administrators. *)
Definition demo_third : Session :=
  mkSession (mkSocket 2 "/rooms/abc123") "abc123" 1 None.

(** ** Questions asked during a run *)

(** The row [q] is what has become of a row that came into the table at
    some step of the run, unapproved and under an identity no row of the
    table carried then. *)
Definition asked_during (srv : Server) (inputs : list (Env * Input)) (q : Question)
  : Prop :=
  exists pre env i post q1,
    inputs = pre ++ (env, i) :: post
    /\ q1 ∈ Questions (store (fst (step env (fst (run srv pre)) i)))
    /\ (question_id q1 ∉ map question_id (Questions (store (fst (run srv pre)))))
    /\ question_approved q1 = false
    /\ grows_to q1 q.

(** A poll is launched with two viewers connected, and both answer: each
    transaction has read the row and none has written it. *)
Definition demo_suspended : list (Env * Input) :=
  [(demo_env, Connect "/rooms/abc123/admin");
   (demo_env, Connect "/rooms/abc123");
   (demo_env, Connect "/rooms/abc123");
   (demo_env, Receive 0 PollLaunch);
   (demo_env, Suspend 1 (PollResponse 1 None "A"));
   (demo_env, Suspend 2 (PollResponse 1 None "B"))].

(** * Properties *)

(** ** The pattern *)

Module RoomRegExFacts.
Import RoomRegEx.

#[local] Arguments append : simpl nomatch.

Lemma is_slash_true c : is_slash c = true <-> c = "/"%char.
Proof. unfold is_slash. apply Ascii.eqb_eq. Qed.

Lemma is_empty_true s : is_empty s = true <-> s = "".
Proof. destruct s; simpl; split; congruence. Qed.

Lemma app_empty_r (a : string) : a +:+ "" = a.
Proof. induction a; simpl; congruence. Qed.

(** The characters the [i] flag lets through for each character of the
    literal. *)
Ltac by_cases c :=
  destruct c as [[] [] [] [] [] [] [] []]; vm_compute;
  split; intros H; try discriminate H; try reflexivity;
  try (left; reflexivity); try (right; reflexivity);
  try (destruct H as [H|H]; discriminate H).

Lemma char_eq_ci_slash c : char_eq_ci "/" c = true <-> c = "/"%char.
Proof. by_cases c. Qed.

Lemma char_eq_ci_r c : char_eq_ci "r" c = true <-> letter "r" "R" c.
Proof. by_cases c. Qed.

Lemma char_eq_ci_o c : char_eq_ci "o" c = true <-> letter "o" "O" c.
Proof. by_cases c. Qed.

Lemma char_eq_ci_m c : char_eq_ci "m" c = true <-> letter "m" "M" c.
Proof. by_cases c. Qed.

Lemma char_eq_ci_s c : char_eq_ci "s" c = true <-> letter "s" "S" c.
Proof. by_cases c. Qed.

(** The literal of the pattern matches the seven characters of the prefix,
    and nothing else. *)
Lemma rooms_prefix_literal p :
  rooms_prefix p <-> literal_ci "/rooms/" p = Some "".
Proof.
  split.
  - intros (r & o1 & o2 & m & s & -> & Hr & Ho1 & Ho2 & Hm & Hs).
    apply char_eq_ci_r in Hr. apply char_eq_ci_o in Ho1. apply char_eq_ci_o in Ho2.
    apply char_eq_ci_m in Hm. apply char_eq_ci_s in Hs.
    simpl. now rewrite Hr, Ho1, Ho2, Hm, Hs.
  - destruct p as [|c0 [|c1 [|c2 [|c3 [|c4 [|c5 [|c6 p]]]]]]]; simpl;
      try discriminate;
      repeat match goal with
             | |- context [char_eq_ci ?a ?b] =>
                 destruct (char_eq_ci a b) eqn:?; [|discriminate]
             end; try discriminate.
    intros [= ->].
    repeat match goal with
           | H : char_eq_ci "/" _ = true |- _ => apply char_eq_ci_slash in H; subst
           | H : char_eq_ci "r" _ = true |- _ => apply char_eq_ci_r in H
           | H : char_eq_ci "o" _ = true |- _ => apply char_eq_ci_o in H
           | H : char_eq_ci "m" _ = true |- _ => apply char_eq_ci_m in H
           | H : char_eq_ci "s" _ = true |- _ => apply char_eq_ci_s in H
           end.
    exists c1, c2, c3, c4, c5. auto 10.
Qed.

Lemma rooms_prefix_lower : rooms_prefix "/rooms/".
Proof. apply rooms_prefix_literal. reflexivity. Qed.

(** [segment] splits its argument, its first part has no slash and what is
    left starts with one. *)
Lemma segment_split s :
  s = fst (segment s) +:+ snd (segment s)
  /\ no_slash (fst (segment s)) = true
  /\ (snd (segment s) = "" \/ exists t, snd (segment s) = String "/" t).
Proof.
  induction s as [|c s IH]; simpl.
  - auto.
  - destruct (is_slash c) eqn:Hc.
    + apply is_slash_true in Hc. subst c. simpl. eauto.
    + destruct (segment s) as [seg rest]. simpl in *.
      destruct IH as (-> & Hn & Hr). rewrite Hc. simpl. auto.
Qed.

Lemma segment_whole a : no_slash a = true -> segment a = (a, "").
Proof.
  induction a as [|c a IH]; simpl; [reflexivity|].
  intros [Hc Ha]%andb_true_iff. apply negb_true_iff in Hc. rewrite Hc.
  now rewrite (IH Ha).
Qed.

Lemma segment_slash a t :
  no_slash a = true -> segment (a +:+ String "/" t) = (a, String "/" t).
Proof.
  induction a as [|c a IH]; simpl; [reflexivity|].
  intros [Hc Ha]%andb_true_iff. apply negb_true_iff in Hc. rewrite Hc.
  now rewrite (IH Ha).
Qed.

Lemma literal_ci_app lit p r :
  literal_ci lit p = Some "" -> literal_ci lit (p +:+ r) = Some r.
Proof.
  revert p. induction lit as [|c lit IH]; intros p; simpl.
  - intros [= ->]. reflexivity.
  - destruct p as [|d p]; [discriminate|]. simpl.
    destruct (char_eq_ci c d); [apply IH|discriminate].
Qed.

Lemma literal_ci_split lit s rest :
  literal_ci lit s = Some rest ->
  exists p, s = p +:+ rest /\ literal_ci lit p = Some "".
Proof.
  revert s. induction lit as [|c lit IH]; intros s; simpl.
  - intros [= ->]. exists "". auto.
  - destruct s as [|d s]; [discriminate|].
    destruct (char_eq_ci c d) eqn:Hcd; [|discriminate].
    intros (p & -> & Hp)%IH. exists (String d p). simpl. now rewrite Hcd.
Qed.

(** The function computes the language of the pattern. *)
Lemma exec_sound name r a : exec name = Some (r, a) -> matches name r a.
Proof.
  unfold exec. destruct (literal_ci "/rooms/" name) as [rest|] eqn:Hlit; [|discriminate].
  apply literal_ci_split in Hlit as (p & -> & Hp%rooms_prefix_literal).
  destruct (segment_split rest) as (Hrest & Hn1 & Hr1).
  destruct (segment rest) as [rid after]. simpl in *.
  destruct (is_empty rid) eqn:He; [discriminate|].
  assert (token rid) as Hrid.
  { split; [|assumption]. intros ->. discriminate. }
  destruct Hr1 as [->|[t ->]].
  - intros [= <- <-]. subst rest. rewrite app_empty_r. now constructor.
  - destruct t as [|c t].
    + intros [= <- <-]. subst rest. now constructor.
    + destruct (segment_split (String c t)) as (Ht & Hn2 & Hr2).
      destruct (segment (String c t)) as [adm after2]. simpl in Ht, Hn2, Hr2.
      destruct (is_empty adm) eqn:He2; [discriminate|].
      assert (token adm) as Hadm.
      { split; [|assumption]. intros ->. discriminate. }
      destruct Hr2 as [->|[u ->]].
      * intros [= <- <-]. subst rest. rewrite Ht, app_empty_r. now constructor.
      * destruct u; [|discriminate].
        intros [= <- <-]. subst rest. rewrite Ht. now constructor.
Qed.

Lemma exec_complete name r a : matches name r a -> exec name = Some (r, a).
Proof.
  intros H. destruct H as [p r Hp%rooms_prefix_literal [Hr Hn]
                          |p r Hp%rooms_prefix_literal [Hr Hn]
                          |p r a Hp%rooms_prefix_literal [Hr Hn] [Ha Hna]
                          |p r a Hp%rooms_prefix_literal [Hr Hn] [Ha Hna]];
    unfold exec; rewrite (literal_ci_app _ _ _ Hp).
  - rewrite (segment_whole _ Hn). destruct r; [congruence|reflexivity].
  - rewrite (segment_slash _ _ Hn). destruct r; [congruence|reflexivity].
  - change ("/" +:+ a) with (String "/" a).
    rewrite (segment_slash _ _ Hn). destruct r; [congruence|]. simpl is_empty. cbv iota.
    destruct a as [|c a]; [congruence|].
    rewrite (segment_whole _ Hna). reflexivity.
  - change ("/" +:+ a +:+ "/") with (String "/" (a +:+ "/")).
    rewrite (segment_slash _ _ Hn). destruct r; [congruence|]. simpl is_empty. cbv iota.
    destruct a as [|c a]; [congruence|].
    change (String c a +:+ "/") with (String c a +:+ String "/" "").
    rewrite (segment_slash _ _ Hna). reflexivity.
Qed.

Lemma exec_matches name r a : exec name = Some (r, a) <-> matches name r a.
Proof. split; [apply exec_sound|apply exec_complete]. Qed.

(** The second group, when it is there, is not empty. *)
Lemma exec_admin_truthy name r a : exec name = Some (r, Some a) -> a <> "".
Proof. intros H%exec_sound. inversion H; subst; match goal with H : token a |- _ => apply H end. Qed.

(** The names the handlers broadcast to parse back to the room. *)
Lemma exec_viewer_nsp r : token r -> exec ("/rooms/" +:+ r) = Some (r, None).
Proof. intros Hr. apply exec_complete. constructor; [apply rooms_prefix_lower|assumption]. Qed.

Lemma exec_admin_nsp r :
  token r -> exec ("/rooms/" +:+ r +:+ "/admin") = Some (r, Some "admin").
Proof.
  intros Hr. apply exec_complete.
  apply (m_role "/rooms/" r "admin"); [apply rooms_prefix_lower|assumption|].
  split; [discriminate|reflexivity].
Qed.

Lemma exec_token name r a : exec name = Some (r, a) -> token r.
Proof. intros H%exec_sound. now inversion H; subst. Qed.

(** The main namespace is no room's. *)
Lemma exec_main : exec "/" = None.
Proof. reflexivity. Qed.

End RoomRegExFacts.

(** ** Queries on the store *)

Lemma room_by_visibleId_Some st r room :
  room_by_visibleId st r = Some room ->
  room ∈ Rooms st /\ room_visibleId room = r.
Proof.
  unfold room_by_visibleId. intros H%head_Some_elem_of.
  apply list_elem_of_filter in H. tauto.
Qed.

Lemma room_by_visibleId_None st r room :
  room_by_visibleId st r = None -> room ∈ Rooms st -> room_visibleId room <> r.
Proof.
  unfold room_by_visibleId. intros H%head_None Hin Hr.
  exact (filter_nil_not_elem_of _ _ _ H Hr Hin).
Qed.

Lemma room_by_visibleId_is_Some st r room :
  room ∈ Rooms st -> room_visibleId room = r -> is_Some (room_by_visibleId st r).
Proof.
  intros Hin Hr. destruct (room_by_visibleId st r) eqn:E; [eauto|].
  destruct (room_by_visibleId_None _ _ _ E Hin Hr).
Qed.

(** The authorizer, on the language of the pattern. *)
Lemma authorize_iff st name :
  authorize st name = true <->
  exists r a room,
    RoomRegEx.matches name r a /\ room ∈ Rooms st /\ room_visibleId room = r.
Proof.
  unfold authorize. split.
  - destruct (RoomRegEx.exec name) as [[r a]|] eqn:E; [|discriminate].
    destruct (room_by_visibleId st r) as [room|] eqn:R; [|discriminate].
    intros _. exists r, a, room.
    apply RoomRegExFacts.exec_sound in E.
    apply room_by_visibleId_Some in R. tauto.
  - intros (r & a & room & Hm & Hin & Hr).
    rewrite (RoomRegExFacts.exec_complete _ _ _ Hm).
    destruct (room_by_visibleId_is_Some _ _ _ Hin Hr) as [x ->]. reflexivity.
Qed.

Lemma authorize_rooms st st' name :
  Rooms st' = Rooms st -> authorize st' name = authorize st name.
Proof.
  intros H. unfold authorize, room_by_visibleId. now rewrite H.
Qed.

(** ** The tally *)

Module TallyFacts.
Import Tally.

Lemma count_to_json (values : gmap string jsnum) k :
  count (to_json values) k = count values k.
Proof.
  unfold count, to_json. rewrite lookup_fmap.
  destruct (values !! k) as [[n| | |s]|]; reflexivity.
Qed.

Lemma double_in_range n : in_range n -> double n = Some n.
Proof.
  unfold in_range, double. intros H.
  destruct (Z.leb_spec (Z.abs n) (2 ^ 53)); [reflexivity|lia].
Qed.

(** Adding one to a count is exact below [2^53] and leaves [2^53] as it
    is; taking one is exact above [-2^53]. *)
Lemma plus_up n :
  in_range n -> plus (Some (JNum n)) 1 = JNum (Z.min (n + 1) (2 ^ 53)).
Proof.
  intros H. unfold plus. rewrite (double_in_range n H).
  destruct (Z.le_gt_cases (n + 1) (2 ^ 53)) as [Hle|Hgt].
  - rewrite double_in_range by (unfold in_range in *; lia).
    f_equal. lia.
  - assert (n = 2 ^ 53) as -> by (unfold in_range in H; lia).
    vm_compute. reflexivity.
Qed.

Lemma plus_down n :
  in_range n -> plus (Some (JNum n)) (-1) = JNum (Z.max (n - 1) (- 2 ^ 53)).
Proof.
  intros H. unfold plus. rewrite (double_in_range n H).
  destruct (Z.le_gt_cases (- 2 ^ 53) (n + -1)) as [Hle|Hgt].
  - rewrite double_in_range by (unfold in_range in *; lia).
    f_equal. lia.
  - assert (n = - 2 ^ 53) as -> by (unfold in_range in H; lia).
    vm_compute. reflexivity.
Qed.

Lemma add_assign_other (values : gmap string jsnum) k d j :
  k <> j -> add_assign k d values !! j = values !! j.
Proof.
  intros Hne. unfold add_assign. case_decide; [reflexivity|].
  now rewrite lookup_insert_ne.
Qed.

Lemma add_assign_own (values : gmap string jsnum) k d v :
  values !! k = Some v -> add_assign k d values !! k = Some (plus (Some v) d).
Proof.
  intros Hv. unfold add_assign, read. rewrite Hv.
  rewrite decide_False by (intros [_ ?]; discriminate).
  now rewrite lookup_insert_eq.
Qed.

Lemma count_lookup (values : gmap string jsnum) k n :
  count values k = Some n <-> values !! k = Some (JNum n).
Proof.
  unfold count. destruct (values !! k) as [[m| | |s]|]; split; congruence.
Qed.

Lemma count_add_assign_up (values : gmap string jsnum) k j n :
  count values j = Some n -> in_range n ->
  count (add_assign k 1 values) j =
    Some (if decide (k = j) then Z.min (n + 1) (2 ^ 53) else n).
Proof.
  intros Hn Hr. apply count_lookup. apply count_lookup in Hn.
  destruct (decide (k = j)) as [->|Hne].
  - rewrite (add_assign_own _ _ _ _ Hn). now rewrite plus_up.
  - now rewrite add_assign_other.
Qed.

Lemma count_add_assign_down (values : gmap string jsnum) k j n :
  count values j = Some n -> in_range n ->
  count (add_assign k (-1) values) j =
    Some (if decide (k = j) then Z.max (n - 1) (- 2 ^ 53) else n).
Proof.
  intros Hn Hr. apply count_lookup. apply count_lookup in Hn.
  destruct (decide (k = j)) as [->|Hne].
  - rewrite (add_assign_own _ _ _ _ Hn). now rewrite plus_down.
  - now rewrite add_assign_other.
Qed.

Lemma count_zero L : L ∈ labels -> count zero L = Some 0.
Proof.
  unfold labels. rewrite !elem_of_cons, elem_of_nil.
  intros [->|[->|[->|[->|[->|[]]]]]]; reflexivity.
Qed.

(** The count of a key after the two assignments of the handler: one is
    taken if the key is the previous choice, then one is added if it is the
    new choice, each within the doubles. *)
Lemma count_voted prevChoice newChoice (values : gmap string jsnum) k n :
  k <> "" ->
  count values k = Some n -> in_range n ->
  count (voted prevChoice newChoice values) k =
    Some (let m := if decide (prevChoice = Some k)
                   then Z.max (n - 1) (- 2 ^ 53) else n in
          if decide (newChoice = k) then Z.min (m + 1) (2 ^ 53) else m).
Proof.
  intros Hk Hn Hr. unfold voted.
  destruct prevChoice as [prev|].
  - destruct (truthy (Some prev)) eqn:T.
    + pose proof (count_add_assign_down _ prev _ _ Hn Hr) as H1.
      destruct (decide (prev = k)) as [->|Hne].
      * rewrite (count_add_assign_up _ newChoice _ _ H1) by (unfold in_range in *; lia).
        cbv zeta. rewrite (decide_True (P := Some k = Some k)) by reflexivity.
        reflexivity.
      * rewrite (count_add_assign_up _ newChoice _ _ H1 Hr).
        cbv zeta. rewrite (decide_False (P := Some prev = Some k)) by congruence.
        reflexivity.
    + assert (prev = "") as ->.
      { simpl in T. destruct prev; [reflexivity|discriminate]. }
      rewrite (count_add_assign_up _ newChoice _ _ Hn Hr).
      cbv zeta. rewrite (decide_False (P := Some "" = Some k)) by congruence.
      reflexivity.
  - rewrite (count_add_assign_up _ newChoice _ _ Hn Hr).
    cbv zeta. rewrite (decide_False (P := None = Some k)) by discriminate.
    reflexivity.
Qed.

(** Below [Number.MAX_SAFE_INTEGER] the two assignments are exact. *)
Lemma count_voted_safe prevChoice newChoice (values : gmap string jsnum) k n :
  k <> "" ->
  count values k = Some n -> safe n ->
  count (voted prevChoice newChoice values) k =
    Some (n - (if decide (prevChoice = Some k) then 1 else 0)
            + (if decide (newChoice = k) then 1 else 0)).
Proof.
  intros Hk Hn Hs.
  rewrite (count_voted _ _ _ _ _ Hk Hn) by (unfold safe, in_range in *; lia).
  f_equal. unfold safe in Hs. cbv zeta. repeat case_decide; lia.
Qed.

(** A count stays within the doubles that are integers. *)
Lemma count_voted_in_range prevChoice newChoice (values : gmap string jsnum) k n :
  k <> "" ->
  count values k = Some n -> in_range n ->
  exists n', count (voted prevChoice newChoice values) k = Some n' /\ in_range n'.
Proof.
  intros Hk Hn Hr. rewrite (count_voted _ _ _ _ _ Hk Hn Hr).
  eexists. split; [reflexivity|]. unfold in_range in *. cbv zeta.
  repeat case_decide; lia.
Qed.

End TallyFacts.

(** ** Handlers on events without argument or acknowledgement *)

Lemma elem_of_map {A B} (f : A -> B) (l : list A) (x : A) :
  x ∈ l -> f x ∈ map f l.
Proof. rewrite !list_elem_of_In. apply in_map. Qed.

Lemma elem_of_map_inv {A B} (f : A -> B) (l : list A) (y : B) :
  y ∈ map f l -> exists x, y = f x /\ x ∈ l.
Proof.
  rewrite list_elem_of_In, in_map_iff. intros (x & <- & H).
  exists x. now rewrite list_elem_of_In.
Qed.

Lemma until_callback_elem out e :
  e ∈ until_callback out -> e = Unhandled \/ e ∈ out.
Proof.
  induction out as [|x out IH]; simpl; [now rewrite elem_of_nil|].
  intros H.
  destruct x;
    try (apply elem_of_cons in H as [->|H]; [right; apply list_elem_of_here|];
         destruct (IH H) as [->|H']; [now left|right; now apply list_elem_of_further]).
  apply list_elem_of_singleton in H. now left.
Qed.

(** A trace without a call of [callback] is run to its end. *)
Lemma until_callback_none out :
  (forall to p, Callback to p ∉ out) -> until_callback out = out.
Proof.
  induction out as [|x out IH]; intros H; simpl; [reflexivity|].
  destruct x as [n ev q|k ev q|k q| | | | | |];
    try (f_equal; apply IH; intros to q' Hin;
         apply (H to q'); now apply list_elem_of_further).
  destruct (H k q). apply list_elem_of_here.
Qed.

Lemma acknowledging_true f st : acknowledging true f st = f st.
Proof. reflexivity. Qed.

Lemma acknowledging_false f st :
  acknowledging false f st = (fst (f st), until_callback (snd (f st))).
Proof. unfold acknowledging. now destruct (f st). Qed.

Lemma acknowledging_fst ack f st : fst (acknowledging ack f st) = fst (f st).
Proof. destruct ack; [reflexivity|]. now rewrite acknowledging_false. Qed.

Lemma acknowledging_snd ack f st e :
  e ∈ snd (acknowledging ack f st) -> e = Unhandled \/ e ∈ snd (f st).
Proof.
  destruct ack; [now right|]. rewrite acknowledging_false. apply until_callback_elem.
Qed.

(** With the acknowledgement function, the two parts of the transaction
    run one after the other are the handler. *)
Lemma respond_true s env pollId prevChoice newChoice st :
  respond s env true pollId prevChoice newChoice st =
  on_PollResponse s env pollId prevChoice newChoice st.
Proof.
  unfold respond, PollResponse_select, PollResponse_write, on_PollResponse.
  destruct (poll_by_id st pollId) as [poll|]; [|reflexivity].
  fold (voted prevChoice newChoice (poll_values poll)).
  now destruct (commit_ok env).
Qed.

(** Without it, nothing is written. *)
Lemma respond_false s env pollId prevChoice newChoice st :
  respond s env false pollId prevChoice newChoice st =
  (st,
   match poll_by_id st pollId with
   | None => [TrxBegin; TrxSelect pollId; TrxRollback; Unhandled]
   | Some poll =>
       [TrxBegin; TrxSelect pollId;
        TrxUpdate pollId (Tally.to_json (voted prevChoice newChoice (poll_values poll)));
        NspEmit (admin_nsp (roomName s)) "PollResults"
          (TallyOf (voted prevChoice newChoice (poll_values poll)));
        TrxRollback; Unhandled]
   end).
Proof.
  unfold respond, PollResponse_select, PollResponse_write.
  now destruct (poll_by_id st pollId) as [poll|].
Qed.

Lemma on_PollResponse_out s env pollId prevChoice newChoice st :
  snd (on_PollResponse s env pollId prevChoice newChoice st) =
  match poll_by_id st pollId with
  | None => [TrxBegin; TrxSelect pollId; TrxRollback;
             Callback (sid (socket s)) Failure]
  | Some poll =>
      [TrxBegin; TrxSelect pollId;
       TrxUpdate pollId (Tally.to_json (voted prevChoice newChoice (poll_values poll)));
       NspEmit (admin_nsp (roomName s)) "PollResults"
         (TallyOf (voted prevChoice newChoice (poll_values poll)));
       Callback (sid (socket s)) (Choice newChoice)]
      ++ (if commit_ok env then [TrxCommit]
          else [TrxRollback; Callback (sid (socket s)) Failure])
  end.
Proof.
  unfold on_PollResponse. destruct (poll_by_id st pollId) as [poll|]; [|reflexivity].
  fold (voted prevChoice newChoice (poll_values poll)).
  now destruct (commit_ok env).
Qed.

(** The store a handler leaves without the acknowledgement function is the
    one it leaves with it, or the one it found. *)
Lemma complete_store s env ack ev st :
  fst (complete s env ack ev st) = fst (complete s env true ev st)
  \/ fst (complete s env ack ev st) = st.
Proof.
  destruct ack; [now left|].
  destruct ev; cbn [complete]; rewrite ?acknowledging_fst; auto.
  right. now rewrite respond_false.
Qed.

(** What it does is what it does with it, up to the call that throws. *)
Lemma complete_out s env ack ev st e :
  e ∈ snd (complete s env ack ev st) ->
  e = Unhandled \/ e = TrxRollback \/ e ∈ snd (complete s env true ev st).
Proof.
  destruct ack; [auto|].
  destruct ev; cbn [complete]; auto;
    try (intros [->|H]%acknowledging_snd; auto).
  rewrite respond_false, on_PollResponse_out.
  destruct (poll_by_id st id) as [poll|]; simpl;
    rewrite !elem_of_cons, elem_of_nil; intuition auto.
Qed.

(** Every event runs the handler of an event that carries its argument, or
    throws at once, or does nothing. *)
Lemma handler_ack_complete s env ack ev st :
  (exists ack0 ev0,
      event_name ev0 = event_name ev
      /\ response_of ack0 ev0 = response_of ack ev
      /\ handler_ack s env ack ev st = complete s env ack0 ev0 st)
  \/ handler_ack s env ack ev st = (st, [Unhandled])
  \/ handler_ack s env ack ev st = (st, []).
Proof.
  revert ack.
  induction ev as [| | | | | | | | | |name a|ev IH]; intros ack;
    try (left; exists ack; eexists; split; [|split]; reflexivity).
  - simpl. unfold bare.
    destruct (decide (name = "PollLaunch")) as [->|_].
    { left. exists (ack && a), PollLaunch. repeat split; reflexivity. }
    destruct (decide (name = "QuestionAsk")) as [->|_].
    { left. exists (ack && a), (QuestionAsk nothing_asked). repeat split; reflexivity. }
    case_decide; auto.
  - simpl. apply IH.
Qed.

(** The store a handler leaves is the one it found or the one the handler
    of an event with its argument and acknowledgement function leaves; the
    event is then a response exactly if that one is, with the same
    choices. *)
Lemma handler_store s env ev st :
  fst (handler s env ev st) = st
  \/ exists ev0, event_name ev0 = event_name ev
                 /\ response_of true ev0 = response_of true ev
                 /\ fst (handler s env ev st) = fst (complete s env true ev0 st).
Proof.
  unfold handler.
  destruct (handler_ack_complete s env true ev st)
    as [(ack0 & ev0 & Hn & Hr & ->)|[->| ->]]; auto.
  destruct ack0; [right; eauto|].
  destruct ev0; cbn [complete]; rewrite ?acknowledging_fst; auto;
    try (right; eexists; split; [exact Hn|]; split; [exact Hr|];
         cbn [complete]; now rewrite ?acknowledging_true).
  left. now rewrite respond_false.
Qed.

Lemma handler_out s env ev st e :
  e ∈ snd (handler s env ev st) ->
  e = Unhandled \/ e = TrxRollback
  \/ exists ev0, event_name ev0 = event_name ev
                 /\ e ∈ snd (complete s env true ev0 st).
Proof.
  unfold handler.
  destruct (handler_ack_complete s env true ev st)
    as [(ack0 & ev0 & Hn & _ & ->)|[->| ->]]; simpl.
  - intros [->|[->|H]]%complete_out; eauto.
  - rewrite list_elem_of_singleton. auto.
  - now rewrite elem_of_nil.
Qed.

Lemma dispatch_store s env ev st :
  fst (dispatch s env ev st) = st
  \/ exists ev0, event_name ev0 ∈ registered (admin s)
                 /\ response_of true ev0 = response_of true ev
                 /\ fst (dispatch s env ev st) = fst (complete s env true ev0 st).
Proof.
  unfold dispatch. case_bool_decide as Hreg; [|now left].
  destruct (handler_store s env ev st) as [->|(ev0 & Hn & Hr & ->)]; [now left|].
  right. exists ev0. now rewrite Hn.
Qed.

Lemma dispatch_out s env ev st e :
  e ∈ snd (dispatch s env ev st) ->
  e = Unhandled \/ e = TrxRollback
  \/ exists ev0, event_name ev0 ∈ registered (admin s)
                 /\ e ∈ snd (complete s env true ev0 st).
Proof.
  unfold dispatch. case_bool_decide as Hreg; [|simpl; now rewrite elem_of_nil].
  intros [->|[->|(ev0 & Hn & H)]]%handler_out; auto.
  right. right. exists ev0. now rewrite Hn.
Qed.

(** An event with its argument and its acknowledgement function runs the
    handler as it is written. *)
Lemma handler_PollResponse s env pollId prevChoice newChoice st :
  handler s env (PollResponse pollId prevChoice newChoice) st =
  on_PollResponse s env pollId prevChoice newChoice st.
Proof. reflexivity. Qed.

(** ** Where emissions go *)

(** The case analysis of an effect of a short trace. *)
Ltac each_effect H :=
  rewrite ?elem_of_cons, ?elem_of_nil in H;
  repeat (destruct H as [->|H]); try (destruct H).

(** Membership of a name in a list of names. *)
Ltac in_names :=
  simpl; repeat first [apply list_elem_of_here | apply list_elem_of_further].



Lemma complete_targets s env ev st e :
  e ∈ snd (complete s env true ev st) -> targets s e.
Proof.
  destruct ev; cbn [complete]; rewrite ?acknowledging_true.
  - intros H. simpl in H. each_effect H; simpl; auto.
  - unfold on_PollReveal. destruct (poll_by_id st pollId); simpl;
      intros H; each_effect H; simpl; auto.
  - intros H. simpl in H. each_effect H; simpl; auto.
  - intros H. simpl in H. each_effect H; simpl; auto.
  - unfold on_QuestionApprove.
    destruct (update_question _ _ _) as [table [|row rows]]; simpl;
      intros H; each_effect H; simpl; auto.
  - intros H. simpl in H. each_effect H; simpl; auto.
  - rewrite on_PollResponse_out.
    destruct (poll_by_id st id); [destruct (commit_ok env)|];
      simpl; intros H; each_effect H; simpl; auto.
  - unfold on_ReactionSend. destruct (truthy _); simpl;
      intros H; each_effect H; simpl; auto.
  - unfold on_QuestionAsk. destruct (ask_other data); [|case_decide as Hid]; simpl;
      intros H; each_effect H; simpl; auto.
  - unfold on_QuestionUpvote.
    destruct (update_question _ _ _) as [table [|row rows]]; simpl;
      intros H; each_effect H; simpl; auto.
  - simpl. now rewrite elem_of_nil.
  - simpl. now rewrite elem_of_nil.
Qed.

(** Every handler addresses the two namespaces of its session's room and
    its own socket, nothing else. *)
Lemma handler_targets s env ev st e :
  e ∈ snd (handler s env ev st) ->
  match e with
  | NspEmit name _ _ =>
      name = viewer_nsp (roomName s) \/ name = admin_nsp (roomName s)
  | SocketEmit to _ _ | Callback to _ => to = sid (socket s)
  | _ => True
  end.
Proof.
  intros [->|[->|(ev0 & _ & H)]]%handler_out; try exact I.
  exact (complete_targets _ _ _ _ _ H).
Qed.

Lemma dispatch_targets s env ev st e :
  e ∈ snd (dispatch s env ev st) ->
  match e with
  | NspEmit name _ _ =>
      name = viewer_nsp (roomName s) \/ name = admin_nsp (roomName s)
  | SocketEmit to _ _ | Callback to _ => to = sid (socket s)
  | _ => True
  end.
Proof.
  unfold dispatch. case_bool_decide; [apply handler_targets|].
  simpl. now rewrite elem_of_nil.
Qed.

Lemma PollResponse_write_targets s env ack pollId prevChoice newChoice poll st e :
  e ∈ snd (PollResponse_write s env ack pollId prevChoice newChoice poll st) ->
  targets s e.
Proof.
  unfold PollResponse_write. destruct ack; [destruct (commit_ok env)|]; simpl;
    intros H; each_effect H; simpl; auto.
Qed.

Lemma PollResponse_select_targets s ack pollId st e :
  e ∈ snd (PollResponse_select s ack pollId st) -> targets s e.
Proof.
  unfold PollResponse_select. destruct (poll_by_id st pollId); [|destruct ack];
    simpl; intros H; each_effect H; simpl; auto.
Qed.

(** ** Steps *)

Lemma step_eq env srv i :
  step env srv i =
  if crashed srv then (srv, [])
  else
    let r := fst (step_running env srv i) in
    let out := snd (step_running env srv i) in
    (mkServer (store r) (opened out (nsps r)) (sockets r) (sessions r)
       (inflight r) (socket_seq r) (txn_seq r) (existsb is_unhandled out),
     out).
Proof.
  unfold step. destruct (crashed srv); [reflexivity|].
  now destruct (step_running env srv i).
Qed.

Lemma step_store env srv i :
  store (fst (step env srv i)) =
  if crashed srv then store srv else store (fst (step_running env srv i)).
Proof. rewrite step_eq. now destruct (crashed srv). Qed.

Lemma step_sessions env srv i :
  sessions (fst (step env srv i)) =
  if crashed srv then sessions srv else sessions (fst (step_running env srv i)).
Proof. rewrite step_eq. now destruct (crashed srv). Qed.

Lemma step_sockets env srv i :
  sockets (fst (step env srv i)) =
  if crashed srv then sockets srv else sockets (fst (step_running env srv i)).
Proof. rewrite step_eq. now destruct (crashed srv). Qed.

Lemma step_inflight env srv i :
  inflight (fst (step env srv i)) =
  if crashed srv then inflight srv else inflight (fst (step_running env srv i)).
Proof. rewrite step_eq. now destruct (crashed srv). Qed.

Lemma step_nsps env srv i :
  nsps (fst (step env srv i)) =
  if crashed srv then nsps srv
  else opened (snd (step_running env srv i)) (nsps (fst (step_running env srv i))).
Proof. rewrite step_eq. now destruct (crashed srv). Qed.

Lemma step_out env srv i :
  snd (step env srv i) =
  if crashed srv then [] else snd (step_running env srv i).
Proof. rewrite step_eq. now destruct (crashed srv). Qed.

Lemma step_crashed env srv i : crashed srv = true -> step env srv i = (srv, []).
Proof. intros H. rewrite step_eq. now rewrite H. Qed.

Lemma session_of_elem srv from s :
  session_of srv from = Some s -> s ∈ sessions srv /\ sid (socket s) = from.
Proof.
  unfold session_of. intros H%head_Some_elem_of.
  apply list_elem_of_filter in H. tauto.
Qed.

Lemma txn_of_elem srv n t :
  txn_of srv n = Some t -> t ∈ inflight srv /\ txn_id t = n.
Proof.
  unfold txn_of. intros H%head_Some_elem_of.
  apply list_elem_of_filter in H. tauto.
Qed.

Lemma poll_by_id_elem st pollId poll :
  poll_by_id st pollId = Some poll -> poll ∈ Polls st /\ poll_id poll = pollId.
Proof.
  unfold poll_by_id. intros H%head_Some_elem_of.
  apply list_elem_of_filter in H. tauto.
Qed.

(** What the connection handler sends goes to the connecting socket. *)
Lemma on_connection_out env st k bound out e :
  on_connection env st k = (bound, out) -> e ∈ out ->
  e = Unhandled \/ exists ev p, e = SocketEmit (sid k) ev p.
Proof.
  unfold on_connection.
  destruct (RoomRegEx.exec (nsp k)) as [[r a]|].
  - destruct (room_by_visibleId st r) as [room|].
    + intros [= _ <-] H. right.
      assert (e ∈ replay_poll st k (room_id room)
              \/ e = SocketEmit (sid k) "QuestionNew"
                       (QuestionList (map drop_roomId
                          (replay_questions st (room_id room) a)))) as [H'|H'].
      { destruct (questions_first env);
          rewrite ?elem_of_app, ?elem_of_cons, ?elem_of_nil in H; tauto. }
      * unfold replay_poll in H'. destruct (polls_of_room _ _) as [|p ps];
          [now apply elem_of_nil in H'|].
        destruct (poll_ended_at p); [now apply elem_of_nil in H'|].
        apply list_elem_of_singleton in H'. eauto.
      * eauto.
    + intros [= _ <-] H. apply list_elem_of_singleton in H. now left.
  - intros [= _ <-] H. apply list_elem_of_singleton in H. eauto.
Qed.

Lemma on_connection_socket env st k s out :
  on_connection env st k = (Some s, out) -> socket s = k.
Proof.
  unfold on_connection.
  destruct (RoomRegEx.exec (nsp k)) as [[r a]|]; [|discriminate].
  destruct (room_by_visibleId st r) as [room|]; [|discriminate].
  now intros [= <- _].
Qed.

(** What a step of a running server does to the store: nothing, what the
    handler of an event a session has registered does, or the write of a
    transaction in flight. *)
Lemma step_running_store env srv i :
  store (fst (step_running env srv i)) = store srv
  \/ (exists s ev0 from ev,
         s ∈ sessions srv /\ event_name ev0 ∈ registered (admin s)
         /\ (i = Receive from ev \/ i = Suspend from ev)
         /\ response_of true ev0 = response_of true ev
         /\ store (fst (step_running env srv i))
            = fst (complete s env true ev0 (store srv)))
  \/ (exists t,
         t ∈ inflight srv /\ txn_ack t = true /\ commit_ok env = true
         /\ store (fst (step_running env srv i))
            = with_Polls (store srv)
                (update_poll (txn_pollId t)
                   (set_values
                      (Tally.to_json
                         (voted (txn_prevChoice t) (txn_newChoice t)
                            (poll_values (txn_read t)))))
                   (Polls (store srv)))).
Proof.
  destruct i as [name|from ev|from ev|n|from]; simpl.
  - left. destruct (nsps srv !! name) as [[|]|].
    + now destruct (on_connection env (store srv) _).
    + reflexivity.
    + destruct (authorize (store srv) name); [|reflexivity].
      now destruct (on_connection env (store srv) _).
  - destruct (session_of srv from) as [s|] eqn:Hs; [|now left].
    apply session_of_elem in Hs as [Hs _].
    pose proof (dispatch_store s env ev (store srv)) as Hd.
    destruct (dispatch s env ev (store srv)) as [st out]. simpl in *.
    destruct Hd as [->|(ev0 & Hreg & Hr & ->)]; [now left|].
    right. left. exists s, ev0, from, ev. auto 10.
  - destruct (session_of srv from) as [s|] eqn:Hs; [|now left].
    apply session_of_elem in Hs as [Hs _].
    destruct (response_of true ev) as [[[[pollId prevChoice] newChoice] ack]|] eqn:Hresp.
    + left. case_bool_decide; [|reflexivity].
      unfold PollResponse_select. now destruct (poll_by_id (store srv) pollId).
    + pose proof (dispatch_store s env ev (store srv)) as Hd.
      destruct (dispatch s env ev (store srv)) as [st out]. simpl in *.
      destruct Hd as [->|(ev0 & Hreg & Hr & ->)]; [now left|].
      right. left. exists s, ev0, from, ev. auto 10.
  - destruct (txn_of srv n) as [t|] eqn:Ht; [|now left].
    apply txn_of_elem in Ht as [Ht _].
    unfold PollResponse_write.
    destruct (txn_ack t) eqn:Hack; [|now left].
    destruct (commit_ok env) eqn:Hc; [|now left].
    right. right. exists t. auto.
  - now left.
Qed.

Lemma step_store_cases env srv i :
  store (fst (step env srv i)) = store srv
  \/ (exists s ev0 from ev,
         s ∈ sessions srv /\ event_name ev0 ∈ registered (admin s)
         /\ (i = Receive from ev \/ i = Suspend from ev)
         /\ response_of true ev0 = response_of true ev
         /\ store (fst (step env srv i))
            = fst (complete s env true ev0 (store srv)))
  \/ (exists t,
         t ∈ inflight srv /\ txn_ack t = true /\ commit_ok env = true
         /\ store (fst (step env srv i))
            = with_Polls (store srv)
                (update_poll (txn_pollId t)
                   (set_values
                      (Tally.to_json
                         (voted (txn_prevChoice t) (txn_newChoice t)
                            (poll_values (txn_read t)))))
                   (Polls (store srv)))).
Proof.
  rewrite step_store. destruct (crashed srv); [now left|].
  apply step_running_store.
Qed.

(** The sessions and the transactions in flight after a step: those
    before it, the session the connection handler binds, the transaction a
    response starts. *)
Lemma step_running_sessions env srv i s :
  s ∈ sessions (fst (step_running env srv i)) ->
  s ∈ sessions srv
  \/ exists name out,
       i = Connect name /\ nsps srv !! name <> Some Plain
       /\ on_connection env (store srv) (mkSocket (socket_seq srv) name)
          = (Some s, out).
Proof.
  destruct i as [name|from ev|from ev|n|from]; simpl.
  - destruct (nsps srv !! name) as [[|]|] eqn:En.
    + destruct (on_connection env (store srv) _) as [[s0|] out] eqn:E; simpl;
        rewrite elem_of_app; intros [H|H]; auto.
      * apply list_elem_of_singleton in H. subst s0. right.
        exists name, out. rewrite En. split; [reflexivity|]. split; [discriminate|assumption].
      * now apply elem_of_nil in H.
    + auto.
    + destruct (authorize (store srv) name); [|auto].
      destruct (on_connection env (store srv) _) as [[s0|] out] eqn:E; simpl;
        rewrite elem_of_app; intros [H|H]; auto.
      * apply list_elem_of_singleton in H. subst s0. right.
        exists name, out. rewrite En. split; [reflexivity|]. split; [discriminate|assumption].
      * now apply elem_of_nil in H.
  - destruct (session_of srv from) as [s0|]; [|auto].
    destruct (dispatch s0 env ev (store srv)). auto.
  - destruct (session_of srv from) as [s0|]; [|auto].
    destruct (response_of true ev) as [[[[pollId prevChoice] newChoice] ack]|].
    + case_bool_decide; [|auto].
      destruct (PollResponse_select s0 ack pollId (store srv)) as [[poll|] out]; auto.
    + destruct (dispatch s0 env ev (store srv)). auto.
  - destruct (txn_of srv n) as [t|]; [|auto].
    destruct (PollResponse_write _ _ _ _ _ _ _ _). auto.
  - intros H. apply list_elem_of_filter in H. tauto.
Qed.

Lemma step_running_inflight env srv i t :
  t ∈ inflight (fst (step_running env srv i)) ->
  t ∈ inflight srv
  \/ exists from ev,
       i = Suspend from ev
       /\ txn_session t ∈ sessions srv
       /\ "PollResponse" ∈ registered (admin (txn_session t))
       /\ response_of true ev
          = Some (txn_pollId t, txn_prevChoice t, txn_newChoice t, txn_ack t)
       /\ poll_by_id (store srv) (txn_pollId t) = Some (txn_read t)
       /\ txn_id t = txn_seq srv.
Proof.
  destruct i as [name|from ev|from ev|n|from]; simpl.
  - destruct (nsps srv !! name) as [[|]|].
    + destruct (on_connection env (store srv) _). auto.
    + auto.
    + destruct (authorize (store srv) name); [|auto].
      destruct (on_connection env (store srv) _). auto.
  - destruct (session_of srv from) as [s0|]; [|auto].
    destruct (dispatch s0 env ev (store srv)). auto.
  - destruct (session_of srv from) as [s0|] eqn:Hs; [|auto].
    apply session_of_elem in Hs as [Hs _].
    destruct (response_of true ev) as [[[[pollId prevChoice] newChoice] ack]|] eqn:Hresp.
    + case_bool_decide as Hreg; [|auto].
      unfold PollResponse_select.
      destruct (poll_by_id (store srv) pollId) as [poll|] eqn:Hp; simpl; [|auto].
      rewrite elem_of_app. intros [H|H]; [auto|].
      apply list_elem_of_singleton in H. subst t. right.
      exists from, ev. simpl. auto 10.
    + destruct (dispatch s0 env ev (store srv)). auto.
  - destruct (txn_of srv n) as [t0|]; [|auto].
    destruct (PollResponse_write _ _ _ _ _ _ _ _). simpl.
    intros H. apply list_elem_of_filter in H. tauto.
  - auto.
Qed.

Lemma step_running_nsps env srv i name kind :
  nsps (fst (step_running env srv i)) !! name = Some kind ->
  nsps srv !! name = Some kind
  \/ (kind = Child /\ authorize (store srv) name = true).
Proof.
  destruct i as [n|from ev|from ev|n|from]; simpl.
  - destruct (nsps srv !! n) as [[|]|] eqn:En.
    + destruct (on_connection env (store srv) _). auto.
    + auto.
    + destruct (authorize (store srv) n) eqn:Ha; [|auto].
      destruct (on_connection env (store srv) _). simpl.
      destruct (decide (n = name)) as [->|Hne].
      * rewrite lookup_insert_eq. intros [= <-]. auto.
      * rewrite lookup_insert_ne by assumption. auto.
  - destruct (session_of srv from) as [s0|]; [|auto].
    destruct (dispatch s0 env ev (store srv)). auto.
  - destruct (session_of srv from) as [s0|]; [|auto].
    destruct (response_of true ev) as [[[[pollId prevChoice] newChoice] ack]|].
    + case_bool_decide; [|auto].
      destruct (PollResponse_select s0 ack pollId (store srv)) as [[poll|] out]; auto.
    + destruct (dispatch s0 env ev (store srv)). auto.
  - destruct (txn_of srv n) as [t|]; [|auto].
    destruct (PollResponse_write _ _ _ _ _ _ _ _). auto.
  - auto.
Qed.

(** Whom a step of a running server addresses: the connecting socket, or
    the socket and the namespaces of a session, bound or with a
    transaction in flight. *)
Lemma step_running_out env srv i e :
  e ∈ snd (step_running env srv i) ->
  e = Unhandled
  \/ (exists name ev p, i = Connect name /\ e = SocketEmit (socket_seq srv) ev p)
  \/ (exists s, s ∈ sessions srv /\ targets s e)
  \/ (exists t, t ∈ inflight srv /\ targets (txn_session t) e).
Proof.
  assert (forall name bound out,
             on_connection env (store srv) (mkSocket (socket_seq srv) name)
             = (bound, out) -> e ∈ out ->
             e = Unhandled
             \/ (exists name' ev p,
                    Connect name = Connect name'
                    /\ e = SocketEmit (socket_seq srv) ev p)
             \/ (exists s, s ∈ sessions srv /\ targets s e)
             \/ (exists t, t ∈ inflight srv /\ targets (txn_session t) e)) as Hc.
  { intros name bound out E H.
    destruct (on_connection_out _ _ _ _ _ _ E H) as [->|(ev & p & ->)]; [now left|].
    right. left. eauto. }
  destruct i as [name|from ev|from ev|n|from]; simpl.
  - destruct (nsps srv !! name) as [[|]|].
    + destruct (on_connection env (store srv) _) as [bound out] eqn:E. simpl.
      now apply (Hc name bound).
    + simpl. now rewrite elem_of_nil.
    + destruct (authorize (store srv) name); [|simpl; now rewrite elem_of_nil].
      destruct (on_connection env (store srv) _) as [bound out] eqn:E. simpl.
      now apply (Hc name bound).
  - destruct (session_of srv from) as [s|] eqn:Hs;
      [|simpl; now rewrite elem_of_nil].
    apply session_of_elem in Hs as [Hs _].
    pose proof (dispatch_targets s env ev (store srv) e) as Ht.
    destruct (dispatch s env ev (store srv)) as [st out]. simpl in *.
    intros H. right. right. left. exists s. split; [assumption|].
    specialize (Ht H). destruct e; simpl; auto.
  - destruct (session_of srv from) as [s|] eqn:Hs;
      [|simpl; now rewrite elem_of_nil].
    apply session_of_elem in Hs as [Hs _].
    destruct (response_of true ev) as [[[[pollId prevChoice] newChoice] ack]|].
    + case_bool_decide as Hreg; [|simpl; now rewrite elem_of_nil].
      pose proof (PollResponse_select_targets s ack pollId (store srv) e) as Ht.
      destruct (PollResponse_select s ack pollId (store srv)) as [[poll|] out];
        simpl in *; intros H; right; right; left; eauto.
    + pose proof (dispatch_targets s env ev (store srv) e) as Ht.
      destruct (dispatch s env ev (store srv)) as [st out]. simpl in *.
      intros H. right. right. left. exists s. split; [assumption|].
      specialize (Ht H). destruct e; simpl; auto.
  - destruct (txn_of srv n) as [t|] eqn:Ht; [|simpl; now rewrite elem_of_nil].
    apply txn_of_elem in Ht as [Ht _].
    pose proof (PollResponse_write_targets (txn_session t) env (txn_ack t)
                  (txn_pollId t) (txn_prevChoice t) (txn_newChoice t) (txn_read t)
                  (store srv) e) as Hw.
    destruct (PollResponse_write _ _ _ _ _ _ _ _) as [st out]. simpl in *.
    intros H. right. right. right. eauto.
  - simpl. now rewrite elem_of_nil.
Qed.

(** ** Invariants of the reachable states *)

Lemma complete_rooms s env ev st :
  Rooms (fst (complete s env true ev st)) = Rooms st.
Proof.
  destruct ev; cbn [complete]; rewrite ?acknowledging_true; try reflexivity.
  - unfold on_PollReveal. now destruct (poll_by_id st pollId).
  - unfold on_QuestionApprove.
    now destruct (update_question _ _ _) as [table [|row rows]].
  - unfold on_PollResponse. destruct (poll_by_id st id) as [poll|]; [|reflexivity].
    now destruct (commit_ok env).
  - unfold on_ReactionSend. now destruct (truthy _).
  - unfold on_QuestionAsk. destruct (ask_other data); [reflexivity|].
    now destruct (decide _).
  - unfold on_QuestionUpvote.
    now destruct (update_question _ _ _) as [table [|row rows]].
Qed.

Lemma step_rooms env srv i :
  Rooms (store (fst (step env srv i))) = Rooms (store srv).
Proof.
  destruct (step_store_cases env srv i)
    as [->|[(s & ev0 & from & ev & _ & _ & _ & _ & ->)|(t & _ & _ & _ & ->)]];
    [reflexivity|apply complete_rooms|reflexivity].
Qed.


Lemma reachable_run srv inputs : reachable srv -> reachable (fst (run srv inputs)).
Proof.
  revert srv. induction inputs as [|[env i] rest IH]; intros srv H; simpl; [exact H|].
  destruct (step env srv i) as [srv1 out1] eqn:E.
  specialize (IH srv1). destruct (run srv1 rest) as [srv2 out2]. simpl in *.
  apply IH. change srv1 with (fst (srv1, out1)). rewrite <- E. now constructor.
Qed.

Lemma disciplined_reachable srv : disciplined srv -> reachable srv.
Proof. induction 1; now constructor. Qed.

(** ** Sessions *)

Lemma bound_by_exec st s :
  bound_by st s ->
  RoomRegEx.exec (nsp (socket s)) = Some (roomName s, admin s)
  /\ exists room, room_by_visibleId st (roomName s) = Some room
                  /\ room_id room = roomId s.
Proof.
  intros (env & out & H). unfold on_connection in H.
  destruct (RoomRegEx.exec (nsp (socket s))) as [[r a]|]; [|discriminate].
  destruct (room_by_visibleId st r) as [room|] eqn:R; [|discriminate].
  injection H as <- _. simpl. eauto.
Qed.

Lemma bound_by_token st s : bound_by st s -> RoomRegEx.token (roomName s).
Proof.
  intros [H _]%bound_by_exec. exact (RoomRegExFacts.exec_token _ _ _ H).
Qed.

Lemma bound_by_rooms st st' s :
  Rooms st' = Rooms st -> bound_by st s -> bound_by st' s.
Proof.
  intros HR (env & out & H). unfold bound_by, on_connection in *.
  unfold room_by_visibleId in *. rewrite HR.
  destruct (RoomRegEx.exec (nsp (socket s))) as [[r a]|]; [|discriminate].
  destruct (head _) as [room|]; [|discriminate].
  injection H as H _. rewrite H. exists env. eauto.
Qed.

(** The two names the handlers broadcast to are those of a viewer's and of
    an administrator's connection. *)
Lemma viewer_nsp_role st s :
  bound_by st s -> role_of_nsp (viewer_nsp (roomName s)) = Some Viewer.
Proof.
  intros H%bound_by_token. unfold role_of_nsp, viewer_nsp.
  now rewrite (RoomRegExFacts.exec_viewer_nsp _ H).
Qed.


(** The names a bound session's handlers emit to are names the authorizer
    lets through. *)
Lemma targets_authorized st s name ev p :
  bound_by st s -> targets s (NspEmit name ev p) -> authorize st name = true.
Proof.
  intros Hs Ht. pose proof (bound_by_token _ _ Hs) as Htok.
  destruct (bound_by_exec _ _ Hs) as (_ & room & Hroom & _).
  unfold authorize. simpl in Ht. destruct Ht as [->| ->].
  - unfold viewer_nsp. rewrite (RoomRegExFacts.exec_viewer_nsp _ Htok).
    now rewrite Hroom.
  - unfold admin_nsp. rewrite (RoomRegExFacts.exec_admin_nsp _ Htok).
    now rewrite Hroom.
Qed.

(** A namespace after the emissions of a trace was there before, or is one
    a namespace emission of the trace names. *)
Lemma opened_lookup out ns name kind :
  opened out ns !! name = Some kind ->
  ns !! name = Some kind
  \/ (kind = Plain /\ ns !! name = None /\ exists ev p, NspEmit name ev p ∈ out).
Proof.
  unfold opened. revert ns.
  induction out as [|e out IH]; intros ns; simpl; [auto|].
  intros H. apply IH in H.
  assert (forall ev p, NspEmit name ev p ∈ out -> NspEmit name ev p ∈ e :: out) as Hin
    by (intros; now apply list_elem_of_further).
  destruct e as [n ev p| | | | | | | |];
    try (destruct H as [H|(-> & Hn & ev' & p' & H)];
         [now left|right; split; [reflexivity|]; split; [assumption|]; eauto]).
  destruct (ns !! n) as [k|] eqn:En.
  - destruct H as [H|(-> & Hn & ev' & p' & H)];
      [now left|right; split; [reflexivity|]; split; [assumption|]; eauto].
  - destruct H as [H|(-> & Hn & ev' & p' & H)].
    + destruct (decide (n = name)) as [->|Hne].
      * rewrite lookup_insert_eq in H. injection H as <-.
        right. split; [reflexivity|]. split; [assumption|].
        exists ev, p. apply list_elem_of_here.
      * rewrite lookup_insert_ne in H by assumption. now left.
    + destruct (decide (n = name)) as [->|Hne].
      * rewrite lookup_insert_eq in Hn. discriminate.
      * rewrite lookup_insert_ne in Hn by assumption.
        right. split; [reflexivity|]. split; [assumption|]. eauto.
Qed.

(** A namespace stays what it is. *)
Lemma opened_keeps out ns name kind :
  ns !! name = Some kind -> opened out ns !! name = Some kind.
Proof.
  unfold opened. revert ns.
  induction out as [|e out IH]; intros ns H; simpl; [exact H|].
  apply IH. destruct e as [n ev p| | | | | | | |]; try exact H.
  destruct (ns !! n) eqn:En; [exact H|].
  rewrite lookup_insert_ne; [exact H|]. intros ->. congruence.
Qed.

Lemma opened_no_emit out ns :
  (forall name ev p, NspEmit name ev p ∉ out) -> opened out ns = ns.
Proof.
  unfold opened. revert ns.
  induction out as [|e out IH]; intros ns H; simpl; [reflexivity|].
  assert (forall name ev p, NspEmit name ev p ∉ out) as H'
    by (intros name ev p Hin; apply (H name ev p); now apply list_elem_of_further).
  destruct e as [n ev p| | | | | | | |]; try (now apply IH).
  destruct (H n ev p). apply list_elem_of_here.
Qed.

(** ** Sessions, transactions and namespaces of the reachable states *)

Lemma step_running_nsps_keeps env srv i name kind :
  nsps srv !! name = Some kind ->
  nsps (fst (step_running env srv i)) !! name = Some kind.
Proof.
  intros H. destruct i as [n|from ev|from ev|n|from]; simpl.
  - destruct (nsps srv !! n) as [[|]|] eqn:En.
    + now destruct (on_connection env (store srv) _).
    + exact H.
    + destruct (authorize (store srv) n); [|exact H].
      destruct (on_connection env (store srv) _). simpl.
      rewrite lookup_insert_ne; [exact H|]. intros ->. congruence.
  - destruct (session_of srv from) as [s0|]; [|exact H].
    now destruct (dispatch s0 env ev (store srv)).
  - destruct (session_of srv from) as [s0|]; [|exact H].
    destruct (response_of true ev) as [[[[pollId prevChoice] newChoice] ack]|].
    + case_bool_decide; [|exact H].
      now destruct (PollResponse_select s0 ack pollId (store srv)) as [[poll|] out].
    + now destruct (dispatch s0 env ev (store srv)).
  - destruct (txn_of srv n) as [t|]; [|exact H].
    now destruct (PollResponse_write _ _ _ _ _ _ _ _).
  - exact H.
Qed.

(** Every session of a reachable server, and the session of every
    transaction in flight, is one the connection handler bound, on rooms
    that have not changed since; every namespace is the main one or bears
    a name the authorizer lets through. *)
Lemma reachable_bound srv :
  reachable srv ->
  (forall s, s ∈ sessions srv -> bound_by (store srv) s)
  /\ (forall t, t ∈ inflight srv -> bound_by (store srv) (txn_session t))
  /\ (forall name kind, nsps srv !! name = Some kind ->
        name = "/" \/ authorize (store srv) name = true)
  /\ nsps srv !! "/" = Some Plain.
Proof.
  induction 1 as [rooms|env srv i _ (IHs & IHt & IHn & IHm)].
  - simpl. repeat split.
    + intros s. now rewrite elem_of_nil.
    + intros t. now rewrite elem_of_nil.
    + intros name kind [-> _]%lookup_singleton_Some. now left.
  - destruct (crashed srv) eqn:C; [rewrite (step_crashed _ _ _ C); auto|].
    pose proof (step_rooms env srv i) as HR.
    rewrite step_sessions, step_inflight, step_nsps, C.
    split; [|split; [|split]].
    + intros s [Hs|(name & out & _ & _ & E)]%step_running_sessions;
        apply (bound_by_rooms (store srv)); auto.
      exists env, out. now rewrite (on_connection_socket _ _ _ _ _ E).
    + intros t [Ht|(from & ev & _ & Hs & _)]%step_running_inflight;
        apply (bound_by_rooms (store srv)); auto.
    + intros name kind [Hn|(-> & _ & ev & p & He)]%opened_lookup.
      * rewrite (authorize_rooms _ _ _ HR).
        apply step_running_nsps in Hn as [Hn|[_ Ha]]; eauto.
      * rewrite (authorize_rooms _ _ _ HR). right.
        apply step_running_out in He
          as [He|[(n & ev' & p' & _ & He)|[(s & Hs & Ht)|(t & Ht & Htt)]]];
          try discriminate.
        -- exact (targets_authorized _ _ _ _ _ (IHs s Hs) Ht).
        -- exact (targets_authorized _ _ _ _ _ (IHt t Ht) Htt).
    + apply opened_keeps. now apply step_running_nsps_keeps.
Qed.

Lemma reachable_sessions_bound srv :
  reachable srv -> forall s, s ∈ sessions srv -> bound_by (store srv) s.
Proof. intros H. apply (reachable_bound srv H). Qed.

(** The connection handler does not fail on a name the authorizer lets
    through. *)
Lemma on_connection_authorized env st k :
  authorize st (nsp k) = true ->
  exists s out, on_connection env st k = (Some s, out).
Proof.
  unfold authorize, on_connection.
  destruct (RoomRegEx.exec (nsp k)) as [[r a]|]; [|discriminate].
  destruct (room_by_visibleId st r) as [room|]; [|discriminate]. eauto.
Qed.

(** ** Updates of the poll table *)

Lemma filter_update_poll pollId f ps j :
  (forall p, poll_id (f p) = poll_id p) ->
  filter (fun p => poll_id p = j) (update_poll pollId f ps) =
    if decide (j = pollId)
    then map f (filter (fun p => poll_id p = j) ps)
    else filter (fun p => poll_id p = j) ps.
Proof.
  intros Hf. unfold update_poll.
  induction ps as [|p ps IH]; simpl.
  - now destruct (decide (j = pollId)).
  - rewrite !filter_cons, IH.
    destruct (decide (poll_id p = pollId)) as [Hp|Hp].
    + rewrite Hf. destruct (decide (poll_id p = j)) as [Hj|Hj].
      * destruct (decide (j = pollId)); [reflexivity|congruence].
      * reflexivity.
    + destruct (decide (poll_id p = j)) as [Hj|Hj]; [|reflexivity].
      destruct (decide (j = pollId)); [congruence|reflexivity].
Qed.

Lemma poll_by_id_update st pollId f j :
  (forall p, poll_id (f p) = poll_id p) ->
  poll_by_id (with_Polls st (update_poll pollId f (Polls st))) j =
    if decide (j = pollId) then option_map f (poll_by_id st j) else poll_by_id st j.
Proof.
  intros Hf. unfold poll_by_id. simpl.
  rewrite (filter_update_poll _ _ _ _ Hf).
  destruct (decide (j = pollId)); [|reflexivity].
  now destruct (filter (fun p => poll_id p = j) (Polls st)).
Qed.

Lemma Forall_update_poll (Q : Poll -> Prop) pollId f ps :
  (forall p, Q p -> Q (f p)) -> Forall Q ps -> Forall Q (update_poll pollId f ps).
Proof.
  intros Hf H. unfold update_poll. induction H; simpl; constructor; auto.
  case_decide; auto.
Qed.

Lemma elem_of_update_poll pollId f ps q :
  q ∈ update_poll pollId f ps ->
  exists p, p ∈ ps /\ (q = p /\ poll_id p <> pollId \/ q = f p /\ poll_id p = pollId).
Proof.
  unfold update_poll. intros (p & -> & Hp)%elem_of_map_inv.
  exists p. split; [assumption|]. case_decide; auto.
Qed.

Lemma update_poll_elem pollId f ps p :
  p ∈ ps -> (if decide (poll_id p = pollId) then f p else p) ∈ update_poll pollId f ps.
Proof.
  intros Hp. unfold update_poll.
  exact (elem_of_map (fun p => if decide (poll_id p = pollId) then f p else p) _ _ Hp).
Qed.

Lemma map_update_poll {B} (g : Poll -> B) pollId f ps :
  (forall p, g (f p) = g p) -> map g (update_poll pollId f ps) = map g ps.
Proof.
  intros Hf. unfold update_poll. induction ps as [|p ps IH]; simpl; [reflexivity|].
  rewrite IH. f_equal. case_decide; [apply Hf|reflexivity].
Qed.

(** With identities that are keys, [where({ id })] selects the one row. *)
Lemma poll_by_id_key st poll :
  NoDup (map poll_id (Polls st)) -> poll ∈ Polls st ->
  poll_by_id st (poll_id poll) = Some poll.
Proof.
  unfold poll_by_id. generalize (Polls st). intros ps.
  induction ps as [|x ps IH]; simpl; [now rewrite elem_of_nil|].
  rewrite NoDup_cons, elem_of_cons, filter_cons. intros [Hx Hnd] [->|Hq].
  - now rewrite decide_True.
  - rewrite decide_False; [now apply IH|].
    intros E. apply Hx. rewrite E. now apply elem_of_map.
Qed.

(** ** Steps and the poll table *)

Lemma complete_polls s env ev st : polls_step st (fst (complete s env true ev st)).
Proof.
  unfold polls_step.
  destruct ev; cbn [complete]; rewrite ?acknowledging_true; simpl; auto.
  - right. left. eauto.
  - left. unfold on_PollReveal. now destruct (poll_by_id st pollId).
  - right. right. exists pollId, (set_ended_at (now env)).
    repeat split. simpl. discriminate.
  - left. unfold on_QuestionApprove.
    now destruct (update_question _ _ _) as [table [|row rows]].
  - unfold on_PollResponse.
    destruct (poll_by_id st id) as [poll|]; [|auto].
    destruct (commit_ok env); [|auto].
    right. right. eexists id, (set_values _). repeat split. auto.
  - left. unfold on_ReactionSend. now destruct (truthy _).
  - left. unfold on_QuestionAsk. destruct (ask_other data); [auto|].
    now destruct (decide _).
  - left. unfold on_QuestionUpvote.
    now destruct (update_question _ _ _) as [table [|row rows]].
Qed.

Lemma step_polls env srv i :
  polls_step (store srv) (store (fst (step env srv i))).
Proof.
  destruct (step_store_cases env srv i)
    as [->|[(s & ev0 & from & ev & _ & _ & _ & _ & ->)|(t & _ & _ & _ & ->)]].
  - left. auto.
  - apply complete_polls.
  - right. right. eexists (txn_pollId t), (set_values _). repeat split. auto.
Qed.

(** The identities in the table are below the next one of the sequence,
    and they are keys. *)
Lemma reachable_poll_ids srv :
  reachable srv ->
  forall p, p ∈ Polls (store srv) -> poll_id p < poll_seq (store srv).
Proof.
  induction 1 as [rooms|env srv i _ IH]; [intros p; simpl; now rewrite elem_of_nil|].
  intros p Hp.
  destruct (step_polls env srv i) as [[E1 E2]|[(r & t & E1 & E2)|(j & f & E1 & E2 & Hf)]];
    rewrite E1 in Hp; rewrite E2.
  - now apply IH.
  - apply elem_of_app in Hp as [Hp|Hp].
    + specialize (IH p Hp). lia.
    + apply list_elem_of_singleton in Hp. subst p. simpl. lia.
  - apply elem_of_update_poll in Hp as (p0 & Hp0 & [[-> _]|[-> _]]).
    + now apply IH.
    + rewrite (proj1 (Hf p0)). now apply IH.
Qed.

Lemma reachable_poll_keys srv :
  reachable srv -> NoDup (map poll_id (Polls (store srv))).
Proof.
  induction 1 as [rooms|env srv i Hr IH]; [constructor|].
  pose proof (reachable_poll_ids srv Hr) as Hids.
  destruct (step_polls env srv i) as [[E1 E2]|[(r & t & E1 & E2)|(j & f & E1 & E2 & Hf)]];
    rewrite E1.
  - exact IH.
  - rewrite map_app. simpl. apply NoDup_app. split; [exact IH|].
    split; [|apply NoDup_singleton].
    intros x (q & -> & Hq)%elem_of_map_inv Hx.
    apply list_elem_of_singleton in Hx. specialize (Hids q Hq). lia.
  - rewrite map_update_poll; [exact IH|]. intros p. apply Hf.
Qed.

Lemma reachable_poll_by_id srv poll :
  reachable srv -> poll ∈ Polls (store srv) ->
  poll_by_id (store srv) (poll_id poll) = Some poll.
Proof. intros Hr. apply poll_by_id_key. now apply reachable_poll_keys. Qed.

(** ** Steps and the tallies *)

(** What a step can do to the tallies, for a property [P] of them: rows
    come in with the zero tally, and a tally is written by a response
    only, which writes the one [voted] computes from the row it read from
    the table, at once or when it is resumed. *)
Lemma step_tallies (P : gmap string jsnum -> Prop) env srv i :
  P Tally.zero ->
  (forall from ev pollId prevChoice newChoice ack poll,
      i = Receive from ev \/ i = Suspend from ev ->
      response_of true ev = Some (pollId, prevChoice, newChoice, ack) ->
      poll_by_id (store srv) pollId = Some poll ->
      P (poll_values poll) ->
      P (Tally.to_json (voted prevChoice newChoice (poll_values poll)))) ->
  Forall (fun p => P (poll_values p)) (Polls (store srv)) ->
  Forall (fun t => P (Tally.to_json
                        (voted (txn_prevChoice t) (txn_newChoice t)
                           (poll_values (txn_read t))))) (inflight srv) ->
  Forall (fun p => P (poll_values p)) (Polls (store (fst (step env srv i))))
  /\ Forall (fun t => P (Tally.to_json
                           (voted (txn_prevChoice t) (txn_newChoice t)
                              (poll_values (txn_read t)))))
       (inflight (fst (step env srv i))).
Proof.
  intros Hzero Hvote Hall Hfly.
  assert (forall pollId poll, poll_by_id (store srv) pollId = Some poll ->
                              P (poll_values poll)) as Hread.
  { intros pollId poll [Hp _]%poll_by_id_elem.
    rewrite Forall_forall in Hall. now apply Hall. }
  split.
  - destruct (step_store_cases env srv i)
      as [->|[(s & ev0 & from & ev & _ & _ & Hi & Hresp & ->)|(t & Ht & _ & _ & ->)]].
    + exact Hall.
    + destruct ev0; cbn [complete]; rewrite ?acknowledging_true; simpl;
        try exact Hall.
      * apply Forall_app. split; [exact Hall|]. now repeat constructor.
      * unfold on_PollReveal. now destruct (poll_by_id (store srv) pollId).
      * now apply Forall_update_poll.
      * unfold on_QuestionApprove.
        destruct (update_question _ _ _) as [table [|row rows]]; exact Hall.
      * unfold on_PollResponse.
        destruct (poll_by_id (store srv) id) as [poll|] eqn:Hpoll; [|exact Hall].
        destruct (commit_ok env); [|exact Hall]. simpl.
        apply Forall_update_poll; [|exact Hall]. intros p _. simpl.
        fold (voted prevChoice newChoice (poll_values poll)).
        apply (Hvote from ev id prevChoice newChoice true poll Hi);
          [now rewrite <- Hresp|exact Hpoll|now apply (Hread id)].
      * unfold on_ReactionSend. now destruct (truthy _).
      * unfold on_QuestionAsk. destruct (ask_other data); [exact Hall|].
        destruct (decide _); exact Hall.
      * unfold on_QuestionUpvote.
        destruct (update_question _ _ _) as [table [|row rows]]; exact Hall.
    + simpl. apply Forall_update_poll; [|exact Hall]. intros p _. simpl.
      rewrite Forall_forall in Hfly. now apply Hfly.
  - rewrite step_inflight. destruct (crashed srv); [exact Hfly|].
    apply Forall_forall. intros t Ht.
    apply step_running_inflight in Ht as [Ht|(from & ev & -> & _ & _ & Hresp & Hp & _)].
    + rewrite Forall_forall in Hfly. now apply Hfly.
    + apply (Hvote from ev (txn_pollId t) _ _ (txn_ack t) (txn_read t));
        auto. now apply (Hread (txn_pollId t)).
Qed.

(** ** The question table *)


Lemma update_question_table questionId f qs q :
  q ∈ qs -> question_id q = questionId ->
  f q ∈ fst (update_question questionId f qs).
Proof.
  intros Hq Hid. unfold update_question. simpl.
  pose proof (elem_of_map
                (fun q => if decide (question_id q = questionId) then f q else q)
                _ _ Hq) as H.
  simpl in H. now rewrite decide_True in H.
Qed.

Lemma map_update_question {B} (g : Question -> B) questionId f qs :
  (forall q, g (f q) = g q) ->
  map g (fst (update_question questionId f qs)) = map g qs.
Proof.
  intros Hf. unfold update_question. simpl.
  induction qs as [|q qs IH]; simpl; [reflexivity|].
  rewrite IH. f_equal. case_decide; [apply Hf|reflexivity].
Qed.

Lemma NoDup_question_id_filter (P : Question -> Prop) `{forall q, Decision (P q)} qs :
  NoDup (map question_id qs) -> NoDup (map question_id (filter P qs)).
Proof.
  induction qs as [|q qs IH]; simpl; [intros _; constructor|].
  rewrite NoDup_cons, filter_cons. intros [Hq Hnd].
  destruct (decide (P q)); [|now apply IH]. simpl.
  apply NoDup_cons. split; [|now apply IH].
  intros (x & Hid & [_ Hx]%list_elem_of_filter)%elem_of_map_inv.
  apply Hq. rewrite Hid. now apply elem_of_map.
Qed.

Lemma complete_question_keys s env ev st :
  NoDup (map question_id (Questions st)) ->
  NoDup (map question_id (Questions (fst (complete s env true ev st)))).
Proof.
  intros IH.
  destruct ev; cbn [complete]; rewrite ?acknowledging_true; simpl; try exact IH.
  - unfold on_PollReveal. now destruct (poll_by_id st pollId).
  - unfold on_QuestionApprove.
    pose proof (map_update_question question_id questionId set_approved
                  (Questions st) (fun _ => eq_refl)) as E.
    destruct (update_question _ _ _) as [table [|row rows]]; simpl in *;
      now rewrite E.
  - now apply NoDup_question_id_filter.
  - unfold on_PollResponse.
    destruct (poll_by_id st id) as [poll|]; [|exact IH].
    now destruct (commit_ok env).
  - unfold on_ReactionSend. now destruct (truthy _).
  - unfold on_QuestionAsk. destruct (ask_other data); [exact IH|].
    destruct (decide _) as [Hin|Hout]; [exact IH|]. simpl.
    rewrite map_app. simpl. apply NoDup_app. split; [exact IH|].
    split; [|apply NoDup_singleton].
    intros x Hx Hx'. apply list_elem_of_singleton in Hx'. subst x.
    apply Hout. now rewrite list_elem_of_In in Hx |- *.
  - unfold on_QuestionUpvote.
    pose proof (map_update_question question_id questionId add_vote
                  (Questions st) (fun _ => eq_refl)) as E.
    destruct (update_question _ _ _) as [table [|row rows]]; simpl in *;
      now rewrite E.
Qed.

(** The identities of the question table are keys. *)
Lemma reachable_question_keys srv :
  reachable srv -> NoDup (map question_id (Questions (store srv))).
Proof.
  induction 1 as [rooms|env srv i Hr IH]; [constructor|].
  destruct (step_store_cases env srv i)
    as [->|[(s & ev0 & from & ev & _ & _ & _ & _ & ->)|(t & _ & _ & _ & ->)]].
  - exact IH.
  - now apply complete_question_keys.
  - exact IH.
Qed.

(** * The specified behaviour *)

(** ** PollResponse and overlapping transactions *)

(** C1 at the failing input. A poll is launched with two viewers connected;
    the first answers "A", the second "B", and each transaction selects the
    row before the other updates it. Both commit and both viewers are
    acknowledged with their choice, the administrators are sent the tally
    with "A" at one and then the tally with "B" at one, and the table ends
    with "A" at zero and "B" at one: the second update wrote the object
    computed from the row read before the first. One after the other, the
    same two responses leave "A" and "B" at one. *)
Theorem overlapping_responses_lose_a_vote :
  let srv := fst (run (boot demo_rooms) demo_overlap) in
  let out := snd (run (boot demo_rooms) demo_overlap) in
  crashed srv = false
  /\ inflight srv = []
  /\ length (filter (fun e => is_commit e = true) out) = 2%nat
  /\ acknowledgements out
     = [(0%nat, PollIdent 1); (1%nat, Choice "A"); (2%nat, Choice "B")]
  /\ tallies_sent "/rooms/abc123/admin" out
     = [[Some 1; Some 0; Some 0; Some 0; Some 0];
        [Some 0; Some 1; Some 0; Some 0; Some 0]]
  /\ counts (store srv) = [[Some 0; Some 1; Some 0; Some 0; Some 0]]
  /\ counts (store (fst (run (boot demo_rooms) demo_in_turn)))
     = [[Some 1; Some 1; Some 0; Some 0; Some 0]].
Proof. vm_compute. repeat split; reflexivity. Qed.

(** ** The tally invariant *)

Lemma label_not_empty L : L ∈ Tally.labels -> L <> "".
Proof.
  unfold Tally.labels. rewrite !elem_of_cons, elem_of_nil.
  intros [->|[->|[->|[->|[->|[]]]]]]; discriminate.
Qed.

(** In a reachable state every tally of the table, and every tally a
    transaction in flight is about to write, gives each label a count that
    is an integer the doubles hold. *)
Lemma reachable_counts_labels srv :
  reachable srv ->
  Forall (fun p => forall L, L ∈ Tally.labels ->
                     exists n, Tally.count (poll_values p) L = Some n /\ in_range n)
    (Polls (store srv))
  /\ Forall (fun t => forall L, L ∈ Tally.labels ->
                        exists n,
                          Tally.count
                            (Tally.to_json
                               (voted (txn_prevChoice t) (txn_newChoice t)
                                  (poll_values (txn_read t)))) L = Some n
                          /\ in_range n)
       (inflight srv).
Proof.
  induction 1 as [rooms|env srv i _ [IH1 IH2]]; [split; constructor|].
  apply (step_tallies
           (fun v => forall L, L ∈ Tally.labels ->
                       exists n, Tally.count v L = Some n /\ in_range n));
    [| |exact IH1|exact IH2].
  - intros L HL. rewrite (TallyFacts.count_zero L HL).
    eexists. split; [reflexivity|]. unfold in_range. simpl. lia.
  - intros _ _ _ prevChoice newChoice _ poll _ _ _ Hp L HL.
    destruct (Hp L HL) as (n & Hn & Hr).
    rewrite TallyFacts.count_to_json.
    exact (TallyFacts.count_voted_in_range _ _ _ _ _ (label_not_empty L HL) Hn Hr).
Qed.

Lemma disciplined_counts_nonneg srv :
  disciplined srv ->
  Forall (fun p => forall L, L ∈ Tally.labels ->
                     exists n, Tally.count (poll_values p) L = Some n
                               /\ in_range n /\ 0 <= n)
    (Polls (store srv))
  /\ Forall (fun t => forall L, L ∈ Tally.labels ->
                        exists n,
                          Tally.count
                            (Tally.to_json
                               (voted (txn_prevChoice t) (txn_newChoice t)
                                  (poll_values (txn_read t)))) L = Some n
                          /\ in_range n /\ 0 <= n)
       (inflight srv).
Proof.
  induction 1 as [rooms|env srv i _ [IH1 IH2] Hi]; [split; constructor|].
  apply (step_tallies
           (fun v => forall L, L ∈ Tally.labels ->
                       exists n, Tally.count v L = Some n /\ in_range n /\ 0 <= n));
    [| |exact IH1|exact IH2].
  - intros L HL. rewrite (TallyFacts.count_zero L HL).
    eexists. split; [reflexivity|]. unfold in_range. simpl. lia.
  - intros from ev pollId prevChoice newChoice ack poll Hev Hresp Hpoll Hp L HL.
    destruct (Hp L HL) as (n & Hn & Hr & Hpos).
    rewrite TallyFacts.count_to_json,
      (TallyFacts.count_voted _ _ _ _ _ (label_not_empty L HL) Hn Hr).
    eexists. split; [reflexivity|].
    assert (takes_back_a_vote (store srv) (Receive from ev)) as Ht.
    { destruct Hev as [-> | ->]; exact Hi. }
    simpl in Ht. rewrite Hresp in Ht. unfold in_range in *. cbv zeta.
    destruct prevChoice as [prev|].
    + destruct (decide (Some prev = Some L)) as [[= ->]|_].
      * destruct (Ht poll Hpoll HL) as [->|(m & Hm & Hge)].
        -- rewrite decide_True by reflexivity. lia.
        -- assert (m = n) by congruence. case_decide; lia.
      * case_decide; lia.
    + rewrite (decide_False (P := None = Some L)) by discriminate. case_decide; lia.
Qed.

(** C2, as the code has it. In every reachable state every poll's tally
    gives each of the five labels an integer count: no handler removes a
    label. The counts are non-negative when the state is reached by
    responses that take back a vote the poll holds. [PollLaunch] adds one
    row, whose tally gives every label zero. *)
Theorem tally_invariant (srv : Server) :
  reachable srv ->
  (forall p L, p ∈ Polls (store srv) -> L ∈ Tally.labels ->
     exists n, Tally.count (poll_values p) L = Some n
               /\ (disciplined srv -> 0 <= n))
  /\ (forall s env,
        exists p, Polls (fst (on_PollLaunch s env (store srv))) =
                    Polls (store srv) ++ [p]
                  /\ forall L, L ∈ Tally.labels ->
                       Tally.count (poll_values p) L = Some 0).
Proof.
  intros Hr. split.
  - intros p L Hp HL.
    destruct (reachable_counts_labels srv Hr) as [Hall _].
    rewrite Forall_forall in Hall. destruct (Hall p Hp L HL) as (n & Hn & _).
    exists n. split; [exact Hn|]. intros Hd.
    destruct (disciplined_counts_nonneg srv Hd) as [Hnn _].
    rewrite Forall_forall in Hnn. destruct (Hnn p Hp L HL) as (m & Hm & _ & Hpos).
    congruence.
  - intros s env. eexists. split; [reflexivity|]. apply TallyFacts.count_zero.
Qed.

Lemma tally_invariant_witness :
  reachable (fst (run (boot demo_rooms) demo_launch))
  /\ (forall p L,
        p ∈ Polls (store (fst (run (boot demo_rooms) demo_launch))) ->
        L ∈ Tally.labels ->
        exists n, Tally.count (poll_values p) L = Some n
                  /\ (disciplined (fst (run (boot demo_rooms) demo_launch)) -> 0 <= n))
  /\ (forall s env,
        exists p,
          Polls (fst (on_PollLaunch s env
                        (store (fst (run (boot demo_rooms) demo_launch))))) =
            Polls (store (fst (run (boot demo_rooms) demo_launch))) ++ [p]
          /\ forall L, L ∈ Tally.labels ->
               Tally.count (poll_values p) L = Some 0).
Proof.
  assert (reachable (fst (run (boot demo_rooms) demo_launch))) as H.
  { apply reachable_run. constructor. }
  split; [exact H|].
  exact (tally_invariant (fst (run (boot demo_rooms) demo_launch)) H).
Defined.

(** C2, as stated, fails: after a launch, a response that names "A" as its
    previous choice takes the count of "A" to minus one. *)
Lemma tally_goes_negative :
  ~ (forall srv, reachable srv ->
       forall p L, p ∈ Polls (store srv) -> L ∈ Tally.labels ->
         exists n, Tally.count (poll_values p) L = Some n /\ 0 <= n).
Proof.
  intros H.
  assert (exists p, Polls (store (fst (run (boot demo_rooms) demo_unvote))) = [p]
                    /\ Tally.count (poll_values p) "A" = Some (-1)) as (p & Hp & HA).
  { eexists. split; vm_compute; reflexivity. }
  destruct (H (fst (run (boot demo_rooms) demo_unvote))
              (reachable_run _ _ (reachable_boot demo_rooms)) p "A")
    as (n & Hn & Hpos).
  - rewrite Hp. apply list_elem_of_here.
  - unfold Tally.labels. apply list_elem_of_here.
  - rewrite HA in Hn. injection Hn as <-. lia.
Qed.

(** ** Connection *)

Lemma app_singleton_neq {A} (l : list A) (x : A) : l ++ [x] <> l.
Proof.
  intros H. apply (f_equal length) in H. rewrite length_app in H. simpl in H. lia.
Qed.

(** A connection on a running server is accepted exactly if its namespace
    exists or the authorizer lets its name through. *)
Lemma accepted_cases env srv name :
  crashed srv = false ->
  (accepted env srv name <->
   is_Some (nsps srv !! name) \/ authorize (store srv) name = true)
  /\ (~ accepted env srv name -> step env srv (Connect name) = (srv, [])).
Proof.
  intros C. unfold accepted. rewrite step_eq, C. simpl.
  destruct (nsps srv !! name) as [[|]|] eqn:En.
  - destruct (on_connection env (store srv) _) as [bound out]. simpl.
    split; [split; eauto|]. intros H. now destruct H.
  - simpl. split; [split; eauto|]. intros H. now destruct H.
  - destruct (authorize (store srv) name).
    + destruct (on_connection env (store srv) _) as [bound out]. simpl.
      split; [split; eauto|]. intros H. now destruct H.
    + simpl. split.
      * split.
        -- intros H. symmetry in H. now apply app_singleton_neq in H.
        -- intros [[x Hx]|H]; discriminate.
      * intros _. destruct srv. simpl in *. now subst.
Qed.

(** C3, as the code has it. On a running server a connection is accepted
    exactly when its channel name is that of the main namespace, [/], or
    is in the language of the pattern with a room whose visible identifier
    is the first token. A rejected connection changes nothing and emits
    nothing; no connection changes the store. *)
Theorem connection_accepted_iff (env : Env) (srv : Server) (name : string) :
  reachable srv ->
  crashed srv = false ->
  (accepted env srv name <->
     name = "/"
     \/ exists r a room,
          RoomRegEx.matches name r a
          /\ room ∈ Rooms (store srv) /\ room_visibleId room = r)
  /\ (~ accepted env srv name -> step env srv (Connect name) = (srv, []))
  /\ store (fst (step env srv (Connect name))) = store srv.
Proof.
  intros Hr C. destruct (accepted_cases env srv name C) as [Hacc Hrej].
  destruct (reachable_bound srv Hr) as (_ & _ & Hn & Hmain).
  split; [|split; [exact Hrej|]].
  - rewrite Hacc, <- authorize_iff. split.
    + intros [[kind Hk]|Ha]; [|now right]. exact (Hn name kind Hk).
    + intros [->|Ha]; [|now right]. left. eauto.
  - rewrite step_store, C. simpl.
    destruct (nsps srv !! name) as [[|]|].
    + now destruct (on_connection env (store srv) _).
    + reflexivity.
    + destruct (authorize (store srv) name); [|reflexivity].
      now destruct (on_connection env (store srv) _).
Qed.

Lemma connection_accepted_iff_witness :
  reachable (boot demo_rooms)
  /\ crashed (boot demo_rooms) = false
  /\ accepted demo_env (boot demo_rooms) "/Rooms/abc123/teacher"
  /\ step demo_env (boot demo_rooms) (Connect "/rooms/nowhere")
     = (boot demo_rooms, []).
Proof.
  assert (reachable (boot demo_rooms)) as Hr by constructor.
  assert (crashed (boot demo_rooms) = false) as C by reflexivity.
  destruct (connection_accepted_iff demo_env (boot demo_rooms)
              "/Rooms/abc123/teacher" Hr C) as (Hacc & _ & _).
  destruct (connection_accepted_iff demo_env (boot demo_rooms)
              "/rooms/nowhere" Hr C) as (Hrej & Hnone & _).
  split; [exact Hr|]. split; [exact C|]. split.
  - apply Hacc. right. exists "abc123", (Some "teacher"), (mkRoom 1 "abc123").
    split; [now apply RoomRegExFacts.exec_sound|].
    split; [apply list_elem_of_here|reflexivity].
  - apply Hnone. intros H. apply Hrej in H as [H|(r & a & room & Hm & Hin & Hv)].
    + discriminate H.
    + apply RoomRegExFacts.exec_complete in Hm. injection Hm as <- _.
      change (room ∈ [mkRoom 1 "abc123"; mkRoom 2 "xyz789"]) in Hin.
      rewrite !elem_of_cons, elem_of_nil in Hin.
      destruct Hin as [->|[->|[]]]; discriminate Hv.
Defined.

(** C3, as stated, fails: the main namespace is there from the start, and a
    connection to it is accepted although [/] is no room's channel. *)
Lemma main_namespace_is_accepted :
  ~ (forall env srv name,
       reachable srv -> crashed srv = false ->
       (accepted env srv name <->
          exists r a room,
            RoomRegEx.matches name r a
            /\ room ∈ Rooms (store srv) /\ room_visibleId room = r)).
Proof.
  intros H.
  destruct (H demo_env (boot demo_rooms) "/" (reachable_boot demo_rooms) eq_refl)
    as [H1 _].
  destruct (H1 eq_refl) as (r & a & room & Hm & _).
  apply RoomRegExFacts.exec_complete in Hm. discriminate Hm.
Qed.

(** ** Events and the handlers they reach *)

Lemma registered_shared admin :
  "QuestionAsk" ∈ registered admin /\ "QuestionUpvote" ∈ registered admin.
Proof. unfold registered. destruct (truthy admin); split; in_names. Qed.

Lemma dispatch_registered s env ev st :
  event_name ev ∈ registered (admin s) ->
  dispatch s env ev st = handler s env ev st.
Proof. intros H. unfold dispatch. now rewrite bool_decide_eq_true_2. Qed.

Lemma dispatch_administrator s env ev st :
  role s = Administrator ->
  event_name ev ∈ ["PollLaunch"; "PollReveal"; "PollToggle"; "PollEnd";
                   "QuestionApprove"; "QuestionClear"] ->
  dispatch s env ev st = handler s env ev st.
Proof.
  unfold role. intros Hr H. apply dispatch_registered. unfold registered.
  destruct (truthy (admin s)); [|discriminate].
  apply elem_of_app. now left.
Qed.

Lemma dispatch_viewer s env ev st :
  role s = Viewer ->
  event_name ev ∈ ["PollResponse"; "ReactionSend"] ->
  dispatch s env ev st = handler s env ev st.
Proof.
  unfold role. intros Hr H. apply dispatch_registered. unfold registered.
  destruct (truthy (admin s)); [discriminate|].
  apply elem_of_app. now left.
Qed.

Lemma dispatch_QuestionAsk s env data st :
  dispatch s env (QuestionAsk data) st = on_QuestionAsk s env data st.
Proof. rewrite dispatch_registered; [reflexivity|]. apply registered_shared. Qed.




Lemma filter_none {A} (P : A -> Prop) `{forall x, Decision (P x)} (l : list A) :
  (forall x, x ∈ l -> ~ P x) -> filter P l = [].
Proof.
  induction l as [|x l IH]; [reflexivity|]. intros Hall.
  rewrite filter_cons, decide_False by (apply Hall, list_elem_of_here).
  apply IH. intros y Hy. now apply Hall, list_elem_of_further.
Qed.

Lemma poll_by_id_none st pollId :
  (forall poll, poll ∈ Polls st -> poll_id poll <> pollId) ->
  poll_by_id st pollId = None.
Proof. intros H. unfold poll_by_id. now rewrite filter_none. Qed.

(** ** Role binding *)

(** C4 at the failing input. A viewer asks a question before any
    administrator has joined: the handler's emission to the administrators'
    channel opens that channel. The administrator who then connects to it
    is accepted, under a name the authorizer lets through and that carries
    the suffix; the connection handler does not run: the server binds no
    session for the socket, replays nothing although a question is waiting
    for approval, and drops the [PollLaunch] the socket sends. On the
    server as it starts the same connection binds the administrator's
    session and handlers. *)
Theorem late_administrator_is_not_bound :
  let before := fst (run (boot demo_rooms) demo_asked_first) in
  let joined := fst (step demo_env before (Connect "/rooms/abc123/admin")) in
  accepted demo_env before "/rooms/abc123/admin"
  /\ authorize (store before) "/rooms/abc123/admin" = true
  /\ role_of_nsp "/rooms/abc123/admin" = Some Administrator
  /\ map question_approved (Questions (store before)) = [false]
  /\ snd (step demo_env before (Connect "/rooms/abc123/admin")) = []
  /\ sockets joined
     = [mkSocket 0 "/rooms/abc123"; mkSocket 1 "/rooms/abc123/admin"]
  /\ sessions joined = sessions before
  /\ session_of joined 1 = None
  /\ step demo_env joined (Receive 1 PollLaunch) = (joined, [])
  /\ sessions (fst (step demo_env (boot demo_rooms) (Connect "/rooms/abc123/admin")))
     = [mkSession (mkSocket 0 "/rooms/abc123/admin") "abc123" 1 (Some "admin")]
  /\ registered (Some "admin")
     = ["PollLaunch"; "PollReveal"; "PollToggle"; "PollEnd";
        "QuestionApprove"; "QuestionClear";
        "QuestionAsk"; "QuestionUpvote"; "disconnect"].
Proof. vm_compute. repeat split; reflexivity. Qed.

(** ** The emissions of PollResponse *)




(** What a failing commit leaves behind: the store is what it was, yet the
    administrators have been sent the tally that was not written and the
    submitter has been acknowledged twice, with the choice and with the
    failure. *)
Lemma PollResponse_commit_fails (s : Session) (env : Env) (st : Store)
    (pollId : Z) (prevChoice : option string) (newChoice : string) (poll : Poll) :
  poll_by_id st pollId = Some poll ->
  commit_ok env = false ->
  on_PollResponse s env pollId prevChoice newChoice st =
    (st,
     [TrxBegin; TrxSelect pollId;
      TrxUpdate pollId (Tally.to_json (voted prevChoice newChoice (poll_values poll)));
      NspEmit (admin_nsp (roomName s)) "PollResults"
        (TallyOf (voted prevChoice newChoice (poll_values poll)));
      Callback (sid (socket s)) (Choice newChoice);
      TrxRollback;
      Callback (sid (socket s)) Failure]).
Proof. intros Hp Hc. unfold on_PollResponse. now rewrite Hp, Hc. Qed.

(** ** Questions and the viewers *)

(** The replay a viewer is sent holds approved questions only. *)
Lemma viewer_replay_approved env st k s out :
  on_connection env st k = (Some s, out) -> role s = Viewer ->
  forall e q, e ∈ out -> q ∈ questions_in e -> msg_approved q = true.
Proof.
  unfold on_connection.
  destruct (RoomRegEx.exec (nsp k)) as [[r a]|]; [|discriminate].
  destruct (room_by_visibleId st r) as [room|]; [|discriminate].
  intros [= <- <-]. unfold role, replay_questions. simpl admin.
  destruct (truthy a); [discriminate|]. intros _ e q He Hq.
  assert (e ∈ replay_poll st k (room_id room)
          \/ e = SocketEmit (sid k) "QuestionNew"
                   (QuestionList
                      (map drop_roomId
                         (filter (fun q => question_roomId q = room_id room
                                           /\ question_approved q = true)
                            (Questions st))))) as [He' | ->].
  { destruct (questions_first env);
      rewrite ?elem_of_app, ?elem_of_cons, ?elem_of_nil in He; tauto. }
  - unfold replay_poll in He'.
    destruct (polls_of_room st (room_id room)) as [|p ps];
      [now apply elem_of_nil in He'|].
    destruct (poll_ended_at p); [now apply elem_of_nil in He'|].
    apply list_elem_of_singleton in He'. subst e. now apply elem_of_nil in Hq.
  - simpl in Hq. apply elem_of_map_inv in Hq as (x & -> & Hx).
    apply list_elem_of_filter in Hx. simpl. tauto.
Qed.

(** The replay an administrator is sent holds every question of the room. *)
Lemma administrator_replay_all env st k s out :
  on_connection env st k = (Some s, out) -> role s = Administrator ->
  forall q, q ∈ Questions st -> question_roomId q = roomId s ->
    exists e, e ∈ out /\ delivered k e = true /\ drop_roomId q ∈ questions_in e.
Proof.
  unfold on_connection.
  destruct (RoomRegEx.exec (nsp k)) as [[r a]|]; [|discriminate].
  destruct (room_by_visibleId st r) as [room|]; [|discriminate].
  intros [= <- <-]. unfold role, replay_questions. simpl admin. simpl roomId.
  destruct (truthy a); [|discriminate]. intros _ q Hq Hr.
  eexists. split.
  { destruct (questions_first env);
      [apply list_elem_of_here|apply elem_of_app; right; apply list_elem_of_here]. }
  split; [simpl; now apply bool_decide_eq_true|]. simpl.
  apply elem_of_map. now apply list_elem_of_filter.
Qed.

(** The record [QuestionApprove] broadcasts is approved. *)
Lemma approve_broadcast_approved s questionId st e q :
  e ∈ snd (on_QuestionApprove s questionId st) ->
  q ∈ questions_in e -> msg_approved q = true.
Proof.
  unfold on_QuestionApprove, update_question.
  destruct (filter _ (Questions st)) as [|row rows]; simpl.
  - rewrite list_elem_of_singleton. intros ->. now rewrite elem_of_nil.
  - rewrite !elem_of_cons, elem_of_nil.
    intros [->|[->|[]]]; simpl; rewrite list_elem_of_singleton; now intros ->.
Qed.

(** C6 at the failing input. A viewer asks a question; the administrator
    upvotes it before approving it; the record the viewers' namespace is
    sent, and the second socket, a viewer's, receives, is not approved. *)
Theorem upvote_sends_unapproved_to_viewers :
  exists e q,
    e ∈ snd (run (boot demo_rooms) demo_leak)
    /\ delivered (mkSocket 1 "/rooms/abc123") e = true
    /\ role_of_nsp (nsp (mkSocket 1 "/rooms/abc123")) = Some Viewer
    /\ q ∈ questions_in e
    /\ msg_approved q = false.
Proof.
  exists (NspEmit "/rooms/abc123" "QuestionNew"
            (QuestionList [mkQuestionMsg 1 (Some "why?") false 1 100])),
    (mkQuestionMsg 1 (Some "why?") false 1 100).
  split.
  - assert (exists l1 l2,
               snd (run (boot demo_rooms) demo_leak) =
                 l1 ++ NspEmit "/rooms/abc123" "QuestionNew"
                         (QuestionList [mkQuestionMsg 1 (Some "why?") false 1 100]) :: l2)
      as (l1 & l2 & ->).
    { exists [SocketEmit 0 "QuestionNew" (QuestionList []);
              SocketEmit 1 "QuestionNew" (QuestionList []);
              Callback 1 (Flag true);
              NspEmit "/rooms/abc123/admin" "QuestionNew"
                (QuestionList [mkQuestionMsg 1 (Some "why?") false 0 100])].
      eexists. vm_compute. reflexivity. }
    apply elem_of_app. right. apply list_elem_of_here.
  - repeat split; try reflexivity. simpl. apply list_elem_of_here.
Qed.

(** ** The replay of the pending poll *)

(** C7 at the failing input. An administrator launches a poll before any
    viewer has joined: the handler's emission to the viewers' channel opens
    that channel. The viewer who then connects to it is accepted; the
    room's most recent poll is open, and the connection handler, had it
    run, would have sent its identity; it does not run, the socket is sent
    nothing and no session is bound for it. A viewer who had joined before
    the launch keeps the channel under the connection handler, and a viewer
    joining after the launch is then replayed the poll. *)
Theorem late_viewer_is_replayed_nothing :
  let before := fst (run (boot demo_rooms) demo_launched_first) in
  let joined := fst (step demo_env before (Connect "/rooms/abc123")) in
  map (fun p => (poll_id p, poll_ended_at p)) (polls_of_room (store before) 1)
  = [(1, None)]
  /\ accepted demo_env before "/rooms/abc123"
  /\ replay_poll (store before) (mkSocket 1 "/rooms/abc123") 1
     = [SocketEmit 1 "PollStart" (PollIdent 1)]
  /\ snd (step demo_env before (Connect "/rooms/abc123")) = []
  /\ sockets joined
     = [mkSocket 0 "/rooms/abc123/admin"; mkSocket 1 "/rooms/abc123"]
  /\ session_of joined 1 = None
  /\ snd (step demo_env demo_launched (Connect "/rooms/abc123"))
     = [SocketEmit 2 "PollStart" (PollIdent 1);
        SocketEmit 2 "QuestionNew" (QuestionList [])].
Proof. vm_compute. repeat split; reflexivity. Qed.

(** ** QuestionClear *)

(** C8 at the failing input. Two administrators and a viewer are connected
    to a room with one question, and the first administrator sends
    [QuestionClear] with an object for argument. The question is deleted;
    the sender and the viewer are sent the clear signal once; the second
    administrator, who is in the administrator audience of the room, is
    sent nothing, while an upvote, which emits to both channels, does
    reach that socket. Sent without an argument, the event makes the
    handler throw before it deletes or emits anything, and the server
    stops. *)
Theorem second_administrator_misses_the_clear :
  let before := fst (run (boot demo_rooms) demo_two_admins) in
  let after := fst (step demo_env before (Receive 0 QuestionClear)) in
  let out := snd (step demo_env before (Receive 0 QuestionClear)) in
  let bare := step demo_env before (Receive 0 (NoArgument "QuestionClear" false)) in
  audience before 1 Administrator = [demo_admin; demo_second_admin]
  /\ audience before 1 Viewer = [demo_third]
  /\ map question_roomId (Questions (store before)) = [1]
  /\ Questions (store after) = []
  /\ received_clears (socket demo_admin) out = 1%nat
  /\ received_clears (socket demo_third) out = 1%nat
  /\ received_clears (socket demo_second_admin) out = 0%nat
  /\ inbox (socket demo_second_admin)
       (snd (step demo_env before (Receive 2 (QuestionUpvote 1))))
     = [NspEmit "/rooms/abc123/admin" "QuestionNew"
          (QuestionList [mkQuestionMsg 1 (Some "why?") false 1 100])]
  /\ snd bare = [Unhandled]
  /\ Questions (store (fst bare)) = Questions (store before)
  /\ crashed (fst bare) = true.
Proof. vm_compute. repeat split; reflexivity. Qed.

(** ** QuestionAsk *)




(** ** Selection by identity *)





(** ** The order of the replay query *)

Lemma head_insert_desc p sorted :
  head (insert_desc p sorted) =
    Some match head sorted with
         | Some q => if poll_created_at q <=? poll_created_at p then p else q
         | None => p
         end.
Proof.
  destruct sorted as [|q rest]; simpl; [reflexivity|].
  now destruct (poll_created_at q <=? poll_created_at p).
Qed.

Lemma head_order_desc_None ps : head (order_desc ps) = None -> ps = [].
Proof.
  destruct ps as [|x xs]; [reflexivity|]. simpl.
  rewrite head_insert_desc. discriminate.
Qed.

Lemma head_order_desc_elem ps p : head (order_desc ps) = Some p -> p ∈ ps.
Proof.
  revert p. induction ps as [|x xs IH]; intros p; simpl; [discriminate|].
  rewrite head_insert_desc. intros [= <-].
  destruct (head (order_desc xs)) as [q|]; [|apply list_elem_of_here].
  destruct (poll_created_at q <=? poll_created_at x);
    [apply list_elem_of_here|apply list_elem_of_further, IH; reflexivity].
Qed.

(** The first row of the ordered rows is one of the most recently created. *)
Lemma head_order_desc_latest ps p :
  head (order_desc ps) = Some p ->
  forall q, q ∈ ps -> poll_created_at q <= poll_created_at p.
Proof.
  revert p. induction ps as [|x xs IH]; intros p; simpl; [discriminate|].
  rewrite head_insert_desc. intros [= <-] q Hq.
  destruct (head (order_desc xs)) as [h|] eqn:Eh.
  - specialize (IH h eq_refl).
    apply elem_of_cons in Hq as [->|Hq].
    + destruct (Z.leb_spec (poll_created_at h) (poll_created_at x)); lia.
    + specialize (IH q Hq).
      destruct (Z.leb_spec (poll_created_at h) (poll_created_at x)); lia.
  - apply head_order_desc_None in Eh. subst xs.
    apply list_elem_of_singleton in Hq. subst q. lia.
Qed.

(** A row created after every other one is the first of the ordered rows. *)
Lemma head_order_desc_strict ps p :
  p ∈ ps ->
  (forall q, q ∈ ps -> q = p \/ poll_created_at q < poll_created_at p) ->
  head (order_desc ps) = Some p.
Proof.
  induction ps as [|x xs IH]; simpl; [now rewrite elem_of_nil|].
  intros Hp Hall. rewrite head_insert_desc. f_equal.
  destruct (head (order_desc xs)) as [h|] eqn:Eh.
  - pose proof (head_order_desc_elem _ _ Eh) as Hh.
    destruct (Hall x (list_elem_of_here _ _)) as [->|Hx].
    + destruct (Hall h (list_elem_of_further _ _ _ Hh)) as [->|Hlt].
      * now destruct (poll_created_at p <=? poll_created_at p).
      * now rewrite (proj2 (Z.leb_le _ _)) by lia.
    + apply elem_of_cons in Hp as [->|Hp]; [lia|].
      assert (Some h = Some p) as [= ->].
      { apply IH; [assumption|]. intros q Hq. apply Hall.
        now apply list_elem_of_further. }
      destruct (Z.leb_spec (poll_created_at p) (poll_created_at x)); [lia|reflexivity].
  - apply head_order_desc_None in Eh. subst xs.
    apply list_elem_of_singleton in Hp. now subst.
Qed.

(** Rows of one creation time stay in table order: of two rows created
    together the one that comes first in the table is the first. *)
Example order_desc_stable :
  map poll_id
    (order_desc [mkPoll 1 1 Tally.zero 100 None; mkPoll 2 1 Tally.zero 100 None;
                 mkPoll 3 1 Tally.zero 50 None])
  = [1; 2; 3].
Proof. reflexivity. Qed.

(** What the replay sends is the identity of an open poll of the room, one
    of its most recently created. *)
Lemma replay_poll_sound st k r e :
  e ∈ replay_poll st k r ->
  exists p, e = SocketEmit (sid k) "PollStart" (PollIdent (poll_id p))
            /\ p ∈ Polls st /\ poll_roomId p = r /\ poll_ended_at p = None
            /\ forall q, q ∈ Polls st -> poll_roomId q = r ->
                 poll_created_at q <= poll_created_at p.
Proof.
  unfold replay_poll, polls_of_room.
  destruct (order_desc _) as [|p ps] eqn:E; [now rewrite elem_of_nil|].
  assert (head (order_desc (filter (fun p => poll_roomId p = r) (Polls st))) = Some p)
    as Hh by now rewrite E.
  destruct (poll_ended_at p) eqn:Hend; [now rewrite elem_of_nil|].
  rewrite list_elem_of_singleton. intros ->. exists p.
  pose proof (head_order_desc_elem _ _ Hh) as Hp.
  apply list_elem_of_filter in Hp as [Hr Hp].
  repeat split; try assumption.
  intros q Hq Hqr. apply (head_order_desc_latest _ _ Hh).
  now apply list_elem_of_filter.
Qed.

(** When one poll of the room is the most recently created, the replay
    sends its identity exactly if it has no end timestamp. *)
Lemma replay_poll_latest st k r p :
  p ∈ Polls st -> poll_roomId p = r ->
  (forall q, q ∈ Polls st -> poll_roomId q = r ->
     q = p \/ poll_created_at q < poll_created_at p) ->
  replay_poll st k r =
    match poll_ended_at p with
    | None => [SocketEmit (sid k) "PollStart" (PollIdent (poll_id p))]
    | Some _ => []
    end.
Proof.
  intros Hp Hr Hall. unfold replay_poll, polls_of_room.
  assert (head (order_desc (filter (fun p => poll_roomId p = r) (Polls st))) = Some p)
    as Hh.
  { apply head_order_desc_strict.
    - now apply list_elem_of_filter.
    - intros q [Hqr Hq]%list_elem_of_filter. now apply Hall. }
  destruct (order_desc _) as [|h hs]; [discriminate|].
  now injection Hh as ->.
Qed.

(** What the connection handler sends when it binds a session: the replay
    of the poll and the replay of the questions, in the order the two
    queries answer. *)
Lemma on_connection_bound env st k s out :
  on_connection env st k = (Some s, out) ->
  let questions :=
    [SocketEmit (sid k) "QuestionNew"
       (QuestionList (map drop_roomId (replay_questions st (roomId s) (admin s))))] in
  out = if questions_first env
        then questions ++ replay_poll st k (roomId s)
        else replay_poll st k (roomId s) ++ questions.
Proof.
  unfold on_connection.
  destruct (RoomRegEx.exec (nsp k)) as [[r a]|]; [|discriminate].
  destruct (room_by_visibleId st r) as [room|]; [|discriminate].
  now intros [= <- <-].
Qed.

Lemma on_connection_elem env st k s out e :
  on_connection env st k = (Some s, out) ->
  e ∈ out <->
  e ∈ replay_poll st k (roomId s)
  \/ e = SocketEmit (sid k) "QuestionNew"
           (QuestionList (map drop_roomId (replay_questions st (roomId s) (admin s)))).
Proof.
  intros H. rewrite (on_connection_bound _ _ _ _ _ H).
  destruct (questions_first env);
    rewrite ?elem_of_app, ?elem_of_cons, ?elem_of_nil; tauto.
Qed.

(** What a connection makes the server send: nothing if it is rejected or
    joins a namespace without listener, and what the connection handler
    sends otherwise. *)
Lemma connect_out env srv name :
  snd (step env srv (Connect name)) = []
  \/ (nsps srv !! name <> Some Plain
      /\ exists bound,
          on_connection env (store srv) (mkSocket (socket_seq srv) name)
          = (bound, snd (step env srv (Connect name)))).
Proof.
  rewrite step_out. destruct (crashed srv); [now left|]. simpl.
  destruct (nsps srv !! name) as [[|]|].
  - right. split; [discriminate|].
    destruct (on_connection env (store srv) _) as [bound out]. eauto.
  - now left.
  - destruct (authorize (store srv) name); [|now left].
    right. split; [discriminate|].
    destruct (on_connection env (store srv) _) as [bound out]. eauto.
Qed.

(** On a reachable server the connection handler runs on names it does
    not fail on. *)
Lemma connect_bound env srv name bound :
  reachable srv ->
  crashed srv = false ->
  nsps srv !! name <> Some Plain ->
  snd (step env srv (Connect name)) <> [] ->
  on_connection env (store srv) (mkSocket (socket_seq srv) name)
  = (bound, snd (step env srv (Connect name))) ->
  exists s, bound = Some s.
Proof.
  intros Hr C Hn Hout E.
  destruct (reachable_bound srv Hr) as (_ & _ & Hnsps & Hmain).
  assert (authorize (store srv) name = true) as Ha.
  { rewrite step_out, C in Hout. simpl in Hout.
    destruct (nsps srv !! name) as [[|]|] eqn:En.
    - destruct (Hnsps name Child En) as [->|Ha]; [congruence|exact Ha].
    - congruence.
    - destruct (authorize (store srv) name); [reflexivity|]. now destruct Hout. }
  destruct (on_connection_authorized env (store srv)
              (mkSocket (socket_seq srv) name) Ha) as (s & out & E').
  rewrite E' in E. injection E as <- _. eauto.
Qed.

(** ** Ended polls *)

Lemma ended_for_good_step pollId env srv i :
  ended_for_good pollId srv -> ended_for_good pollId (fst (step env srv i)).
Proof.
  intros [Hseq Hall]. unfold ended_for_good.
  destruct (step_polls env srv i) as [[E1 E2]|[(r & t & E1 & E2)|(j & f & E1 & E2 & Hf)]];
    rewrite E1, E2.
  - auto.
  - split; [lia|]. intros p Hp Hid.
    apply elem_of_app in Hp as [Hp|Hp]; [now apply Hall|].
    apply list_elem_of_singleton in Hp. subst p. simpl in Hid. lia.
  - split; [assumption|]. intros p Hp Hid.
    apply elem_of_update_poll in Hp as (p0 & Hp0 & [[-> _]|[-> _]]).
    + now apply Hall.
    + apply Hf. apply Hall; [assumption|]. now rewrite <- (proj1 (Hf p0)).
Qed.

Lemma ended_for_good_run pollId srv inputs :
  ended_for_good pollId srv -> ended_for_good pollId (fst (run srv inputs)).
Proof.
  revert srv. induction inputs as [|[env i] rest IH]; intros srv H; simpl; [exact H|].
  pose proof (ended_for_good_step pollId env srv i H) as H1.
  destruct (step env srv i) as [srv1 out1]. specialize (IH srv1 H1).
  now destruct (run srv1 rest).
Qed.

Lemma ended_for_good_no_replay pollId srv env name to :
  ended_for_good pollId srv ->
  SocketEmit to "PollStart" (PollIdent pollId) ∉ snd (step env srv (Connect name)).
Proof.
  intros [_ Hall] Hin.
  destruct (connect_out env srv name) as [E|(_ & bound & E)].
  - rewrite E in Hin. now apply elem_of_nil in Hin.
  - revert E Hin. generalize (snd (step env srv (Connect name))). intros out E Hin.
    destruct bound as [s|].
    + apply (on_connection_elem _ _ _ _ _ _ E) in Hin as [Hin|Hin]; [|discriminate].
      apply replay_poll_sound in Hin as (p & [= _ Hid] & Hp & _ & Hend & _).
      now apply (Hall p Hp).
    + destruct (on_connection_out _ _ _ _ _ _ E Hin) as [H|(ev & p & H)];
        [discriminate|].
      unfold on_connection in E. simpl nsp in E.
      destruct (RoomRegEx.exec name) as [[r a]|].
      * destruct (room_by_visibleId (store srv) r); [discriminate|].
        injection E as E. rewrite <- E in Hin.
        apply list_elem_of_singleton in Hin. discriminate.
      * injection E as E. rewrite <- E in Hin.
        apply list_elem_of_singleton in Hin. discriminate.
Qed.

(** ** The pattern on sample names *)

Example exec_viewer : RoomRegEx.exec "/rooms/abc123" = Some ("abc123", None).
Proof. reflexivity. Qed.

Example exec_admin :
  RoomRegEx.exec "/Rooms/abc123/admin/" = Some ("abc123", Some "admin").
Proof. reflexivity. Qed.

Example exec_two_slashes : RoomRegEx.exec "/rooms/abc123//" = None.
Proof. reflexivity. Qed.

Example exec_three_tokens : RoomRegEx.exec "/rooms/a/b/c" = None.
Proof. reflexivity. Qed.

Example exec_no_room : RoomRegEx.exec "/rooms/" = None.
Proof. reflexivity. Qed.

Example exec_other_prefix : RoomRegEx.exec "/booms/abc123" = None.
Proof. reflexivity. Qed.

(** The scenario of two first answers: "A", then "B". *)
Example two_first_answers :
  Tally.to_json (voted None "B" (Tally.to_json (voted None "A" Tally.zero)))
  = <["A" := JNum 1]> (<["B" := JNum 1]> Tally.zero).
Proof. apply map_eq. intros k. vm_compute. reflexivity. Qed.

(** Counts are doubles: at [2^53] an increment is lost, a key the object
    inherits gives a string, a key it does not have gives [null]. *)
Example counts_are_doubles :
  Tally.plus (Some (JNum (2 ^ 53))) 1 = JNum (2 ^ 53)
  /\ Tally.plus (Some (JNum (2 ^ 53 - 1))) 1 = JNum (2 ^ 53)
  /\ Tally.double (2 ^ 53 + 3) = Some (2 ^ 53 + 4)
  /\ Tally.to_json (voted None "toString" Tally.zero) !! "toString"
     = Some (JText "function toString() { [native code] }1")
  /\ Tally.to_json (voted None "F" Tally.zero) !! "F" = Some JNull
  /\ voted None "__proto__" Tally.zero = Tally.zero.
Proof. vm_compute. repeat split; reflexivity. Qed.

(** * Further properties of the handlers *)

(** ** Where emissions go *)



(** X2. A socket accepted under a name that is not one of the two the
    handlers build for its room - another case of the prefix, a trailing
    slash, a suffix other than [admin] - is sent no broadcast at all, by any
    handler of any session. *)
Theorem alias_channel_hears_no_broadcast (st : Store) (s : Session) (k : Socket)
    (r : string) (a : option string) :
  RoomRegEx.exec (nsp k) = Some (r, a) ->
  nsp k <> viewer_nsp r ->
  nsp k <> admin_nsp r ->
  bound_by st s ->
  forall env ev st' e,
    e ∈ snd (dispatch s env ev st') -> is_broadcast e = true ->
    delivered k e = false.
Proof.
  intros Hk Hv Ha Hs env ev st' e He Hb.
  pose proof (bound_by_token _ _ Hs) as Ht.
  pose proof (dispatch_targets _ _ _ _ _ He) as Hto.
  destruct e; try discriminate Hb. simpl.
  apply bool_decide_eq_false. intros ->.
  destruct Hto as [E|E]; rewrite E in Hk; unfold viewer_nsp, admin_nsp in Hk.
  - rewrite (RoomRegExFacts.exec_viewer_nsp _ Ht) in Hk.
    injection Hk as <- _. now apply Hv.
  - rewrite (RoomRegExFacts.exec_admin_nsp _ Ht) in Hk.
    injection Hk as <- _. now apply Ha.
Qed.

Lemma alias_channel_hears_no_broadcast_witness :
  authorize demo_store (nsp demo_teacher) = true
  /\ role_of_nsp (nsp demo_teacher) = Some Administrator
  /\ forall env ev st' e,
       e ∈ snd (dispatch demo_viewer env ev st') -> is_broadcast e = true ->
       delivered demo_teacher e = false.
Proof.
  split; [reflexivity|]. split; [reflexivity|].
  apply (alias_channel_hears_no_broadcast demo_store demo_viewer demo_teacher
           "abc123" (Some "teacher")).
  - reflexivity.
  - discriminate.
  - discriminate.
  - exists demo_env. eexists. reflexivity.
Defined.

(** ** What a role cannot do *)

Lemma dispatch_viewer_drops s env ev st :
  role s = Viewer ->
  event_name ev ∈ ["PollLaunch"; "PollReveal"; "PollToggle"; "PollEnd";
                   "QuestionApprove"; "QuestionClear"] ->
  dispatch s env ev st = (st, []).
Proof.
  unfold role, dispatch, registered. destruct (truthy (admin s)); [discriminate|].
  intros _ H. rewrite bool_decide_eq_false_2; [reflexivity|].
  revert H. generalize (event_name ev). intros n. simpl.
  rewrite !elem_of_cons, !elem_of_nil.
  intros [->|[->|[->|[->|[->|[->|[]]]]]]]; intuition discriminate.
Qed.

Lemma dispatch_administrator_drops s env ev st :
  role s = Administrator ->
  event_name ev ∈ ["PollResponse"; "ReactionSend"] ->
  dispatch s env ev st = (st, []).
Proof.
  unfold role, dispatch, registered. destruct (truthy (admin s)); [|discriminate].
  intros _ H. rewrite bool_decide_eq_false_2; [reflexivity|].
  revert H. generalize (event_name ev). intros n. simpl.
  rewrite !elem_of_cons, !elem_of_nil.
  intros [->|[->|[]]]; intuition discriminate.
Qed.

(** X3. No event from a viewer's socket launches or ends a poll, approves
    a question or deletes one: the polls keep their identities and end
    timestamps, the questions their approval flags, and a question that
    comes in is not approved. *)
Theorem viewer_cannot_moderate (s : Session) (env : Env) (ev : ClientEvent)
    (st : Store) :
  role s = Viewer ->
  let st' := fst (dispatch s env ev st) in
  map poll_id (Polls st') = map poll_id (Polls st)
  /\ map poll_ended_at (Polls st') = map poll_ended_at (Polls st)
  /\ exists asked,
       map question_approved (Questions st')
         = map question_approved (Questions st) ++ asked
       /\ Forall (fun b => b = false) asked.
Proof.
  intros Hr st'. subst st'.
  assert (forall st0 : Store,
             st0 = st ->
             map poll_id (Polls st0) = map poll_id (Polls st)
             /\ map poll_ended_at (Polls st0) = map poll_ended_at (Polls st)
             /\ exists asked,
                  map question_approved (Questions st0)
                    = map question_approved (Questions st) ++ asked
                  /\ Forall (fun b => b = false) asked) as Hsame.
  { intros st0 ->. repeat split. exists []. now rewrite app_nil_r. }
  destruct (dispatch_store s env ev st) as [->|(ev0 & Hreg & _ & ->)];
    [now apply Hsame|].
  unfold role in Hr. unfold registered in Hreg.
  destruct (truthy (admin s)); [discriminate|].
  destruct ev0; cbn [complete]; rewrite ?acknowledging_true;
    try (simpl in Hreg; rewrite !elem_of_cons, elem_of_nil in Hreg;
         exfalso; intuition discriminate);
    try (now apply Hsame).
  - unfold on_PollResponse.
    destruct (poll_by_id st id) as [poll|]; [|now apply Hsame].
    destruct (commit_ok env); [|now apply Hsame]. simpl.
    rewrite !map_update_poll by reflexivity.
    repeat split. exists []. now rewrite app_nil_r.
  - unfold on_ReactionSend. destruct (truthy _); now apply Hsame.
  - unfold on_QuestionAsk. destruct (ask_other data); [now apply Hsame|].
    destruct (decide _); simpl.
    + repeat split. exists []. now rewrite app_nil_r.
    + repeat split. exists [false]. rewrite map_app.
      split; [reflexivity|]. now repeat constructor.
  - unfold on_QuestionUpvote.
    pose proof (map_update_question question_approved questionId add_vote
                  (Questions st) (fun _ => eq_refl)) as E.
    destruct (update_question _ _ _) as [table [|row rows]]; simpl in *;
      repeat split; exists []; now rewrite app_nil_r.
Qed.

Lemma viewer_cannot_moderate_witness :
  role demo_viewer = Viewer
  /\ let st' := fst (dispatch demo_viewer demo_env (PollEnd 1) demo_polled) in
     map poll_id (Polls st') = map poll_id (Polls demo_polled)
     /\ map poll_ended_at (Polls st') = map poll_ended_at (Polls demo_polled)
     /\ exists asked,
          map question_approved (Questions st')
            = map question_approved (Questions demo_polled) ++ asked
          /\ Forall (fun b => b = false) asked.
Proof.
  split; [reflexivity|].
  exact (viewer_cannot_moderate demo_viewer demo_env (PollEnd 1) demo_polled eq_refl).
Defined.

(** X4. No event from an administrator's socket changes a tally: the polls
    keep their values, and a poll that comes in has the zero tally. *)
Theorem administrator_cannot_vote (s : Session) (env : Env) (ev : ClientEvent)
    (st : Store) :
  role s = Administrator ->
  exists launched,
    map poll_values (Polls (fst (dispatch s env ev st)))
      = map poll_values (Polls st) ++ launched
    /\ Forall (fun v => v = Tally.zero) launched.
Proof.
  intros Hr.
  assert (exists launched,
             map poll_values (Polls st) = map poll_values (Polls st) ++ launched
             /\ Forall (fun v => v = Tally.zero) launched) as Hsame.
  { exists []. now rewrite app_nil_r. }
  destruct (dispatch_store s env ev st) as [->|(ev0 & Hreg & _ & ->)];
    [exact Hsame|].
  unfold role in Hr. unfold registered in Hreg.
  destruct (truthy (admin s)); [|discriminate].
  destruct ev0; cbn [complete]; rewrite ?acknowledging_true;
    try (simpl in Hreg; rewrite !elem_of_cons, elem_of_nil in Hreg;
         exfalso; intuition discriminate);
    try exact Hsame.
  - exists [Tally.zero]. simpl. rewrite map_app.
    split; [reflexivity|]. now repeat constructor.
  - unfold on_PollReveal. now destruct (poll_by_id st pollId).
  - simpl. now rewrite map_update_poll by reflexivity.
  - unfold on_QuestionApprove.
    now destruct (update_question _ _ _) as [table [|row rows]].
  - unfold on_QuestionAsk. destruct (ask_other data); [exact Hsame|].
    now destruct (decide _).
  - unfold on_QuestionUpvote.
    now destruct (update_question _ _ _) as [table [|row rows]].
Qed.

Lemma administrator_cannot_vote_witness :
  role demo_admin = Administrator
  /\ exists launched,
       map poll_values
         (Polls (fst (dispatch demo_admin demo_env (PollResponse 1 None "A") demo_polled)))
         = map poll_values (Polls demo_polled) ++ launched
       /\ Forall (fun v => v = Tally.zero) launched.
Proof.
  split; [reflexivity|].
  exact (administrator_cannot_vote demo_admin demo_env (PollResponse 1 None "A")
           demo_polled eq_refl).
Defined.

(** ** Rooms and connections *)


(** X6. On a reachable server a connection never takes the [RoomError]
    exit and never fails on the room lookup: the connection handler runs
    only on names the authorizer has let through. All a connection emits is
    the replay, to the connecting socket alone. *)
Theorem connect_only_replays (env : Env) (srv : Server) (name : string) (e : effect) :
  reachable srv ->
  e ∈ snd (step env srv (Connect name)) ->
  exists p, e = SocketEmit (socket_seq srv) "PollStart" p
            \/ e = SocketEmit (socket_seq srv) "QuestionNew" p.
Proof.
  intros Hr He.
  destruct (crashed srv) eqn:C.
  { rewrite step_crashed in He by exact C. now apply elem_of_nil in He. }
  destruct (connect_out env srv name) as [E|(Hn & bound & E)].
  { rewrite E in He. now apply elem_of_nil in He. }
  destruct (connect_bound env srv name bound Hr C Hn) as [s ->]; [|exact E|].
  { intros E'. rewrite E' in He. now apply elem_of_nil in He. }
  revert E He. generalize (snd (step env srv (Connect name))). intros out E He.
  apply (on_connection_elem _ _ _ _ _ _ E) in He as [He | ->].
  - apply replay_poll_sound in He as (p & -> & _). eauto.
  - eauto.
Qed.

Lemma connect_only_replays_witness :
  reachable (boot demo_rooms)
  /\ exists p,
       SocketEmit 0 "QuestionNew" (QuestionList [])
         = SocketEmit (socket_seq (boot demo_rooms)) "PollStart" p
       \/ SocketEmit 0 "QuestionNew" (QuestionList [])
         = SocketEmit (socket_seq (boot demo_rooms)) "QuestionNew" p.
Proof.
  split; [constructor|].
  apply (connect_only_replays demo_env (boot demo_rooms) "/rooms/abc123");
    [constructor|].
  apply list_elem_of_here.
Defined.

(** ** Polls: launch, response, reveal, end *)

(** X7. The identity [PollLaunch] acknowledges and broadcasts names the
    row it has added: a [PollReveal] of it, from any administrator, sends
    the viewers the zero tally. *)
Theorem launch_then_reveal (srv : Server) (s s' : Session) (env : Env) :
  reachable srv ->
  let id := poll_seq (store srv) in
  let st1 := fst (on_PollLaunch s env (store srv)) in
  snd (on_PollLaunch s env (store srv))
    = [NspEmit (viewer_nsp (roomName s)) "PollStart" (PollIdent id);
       Callback (sid (socket s)) (PollIdent id)]
  /\ on_PollReveal s' id st1
     = (st1, [NspEmit (viewer_nsp (roomName s')) "PollResults" (TallyOf Tally.zero)]).
Proof.
  intros Hr id st1. subst id st1. split; [reflexivity|].
  unfold on_PollReveal, poll_by_id. simpl Polls.
  rewrite filter_app, filter_none.
  - rewrite filter_cons, decide_True by reflexivity. reflexivity.
  - intros p Hp E. pose proof (reachable_poll_ids srv Hr p Hp). lia.
Qed.

Lemma launch_then_reveal_witness :
  reachable demo_launched
  /\ on_PollReveal demo_admin (poll_seq (store demo_launched))
       (fst (on_PollLaunch demo_admin demo_env (store demo_launched)))
     = (fst (on_PollLaunch demo_admin demo_env (store demo_launched)),
        [NspEmit (viewer_nsp (roomName demo_admin)) "PollResults"
           (TallyOf Tally.zero)]).
Proof.
  assert (reachable demo_launched) as Hr.
  { apply reachable_run. constructor. }
  split; [exact Hr|].
  exact (proj2 (launch_then_reveal demo_launched demo_admin demo_admin demo_env Hr)).
Defined.

(** X8. What a committed [PollResponse] writes is what a [PollReveal] of
    the poll then sends the viewers. *)
Theorem response_then_reveal (s s' : Session) (env : Env) (st : Store)
    (pollId : Z) (prevChoice : option string) (newChoice : string) (poll : Poll) :
  poll_by_id st pollId = Some poll ->
  commit_ok env = true ->
  let st1 := fst (on_PollResponse s env pollId prevChoice newChoice st) in
  on_PollReveal s' pollId st1
  = (st1, [NspEmit (viewer_nsp (roomName s')) "PollResults"
             (TallyOf (Tally.to_json (voted prevChoice newChoice (poll_values poll))))]).
Proof.
  intros Hp Hc st1. subst st1. unfold on_PollResponse. rewrite Hp, Hc.
  fold (voted prevChoice newChoice (poll_values poll)). cbn [fst].
  unfold on_PollReveal.
  rewrite poll_by_id_update by reflexivity.
  rewrite decide_True by reflexivity. now rewrite Hp.
Qed.

Lemma response_then_reveal_witness :
  commit_ok demo_env = true
  /\ exists poll,
       poll_by_id demo_polled 1 = Some poll
       /\ on_PollReveal demo_admin 1
            (fst (on_PollResponse demo_viewer demo_env 1 None "A" demo_polled))
          = (fst (on_PollResponse demo_viewer demo_env 1 None "A" demo_polled),
             [NspEmit (viewer_nsp (roomName demo_admin)) "PollResults"
                (TallyOf (Tally.to_json (voted None "A" (poll_values poll))))]).
Proof.
  split; [reflexivity|].
  exists (mkPoll 1 1 Tally.zero 100 None).
  assert (poll_by_id demo_polled 1 = Some (mkPoll 1 1 Tally.zero 100 None)) as Hp
    by reflexivity.
  split; [exact Hp|].
  exact (response_then_reveal demo_viewer demo_admin demo_env demo_polled 1 None "A"
           _ Hp eq_refl).
Defined.

Lemma response_stored s env st pollId prevChoice newChoice poll :
  poll_by_id st pollId = Some poll ->
  commit_ok env = true ->
  poll_by_id (fst (on_PollResponse s env pollId prevChoice newChoice st)) pollId
  = Some (set_values (Tally.to_json (voted prevChoice newChoice (poll_values poll))) poll).
Proof.
  intros Hp Hc. unfold on_PollResponse. rewrite Hp, Hc.
  fold (voted prevChoice newChoice (poll_values poll)). cbn [fst].
  rewrite poll_by_id_update by reflexivity.
  rewrite decide_True by reflexivity. now rewrite Hp.
Qed.

(** A response received as one step, from a viewer's session. *)
Lemma step_response env srv from s pollId prevChoice newChoice :
  crashed srv = false ->
  session_of srv from = Some s ->
  role s = Viewer ->
  store (fst (step env srv (Receive from (PollResponse pollId prevChoice newChoice))))
  = fst (on_PollResponse s env pollId prevChoice newChoice (store srv))
  /\ sessions (fst (step env srv
                      (Receive from (PollResponse pollId prevChoice newChoice))))
     = sessions srv
  /\ crashed (fst (step env srv
                     (Receive from (PollResponse pollId prevChoice newChoice))))
     = false
  /\ snd (step env srv (Receive from (PollResponse pollId prevChoice newChoice)))
     = snd (on_PollResponse s env pollId prevChoice newChoice (store srv)).
Proof.
  intros C Hs Hr. rewrite step_eq, C. simpl. rewrite Hs.
  rewrite dispatch_viewer by (assumption || in_names).
  rewrite handler_PollResponse.
  pose proof (on_PollResponse_out s env pollId prevChoice newChoice (store srv)) as Hout.
  destruct (on_PollResponse s env pollId prevChoice newChoice (store srv))
    as [st out]. simpl in *. repeat split. subst out.
  destruct (poll_by_id (store srv) pollId); [destruct (commit_ok env)|]; reflexivity.
Qed.

(** X9. Two committed responses to a poll, the transaction of one run
    after that of the other, leave every safe count the same in whichever
    order they are served: the count before, with the decrement and the
    increment of each. *)
Theorem responses_commute (srv : Server) (envA envB : Env) (fromA fromB : nat)
    (sA sB : Session) (pollId : Z) (prevA prevB : option string)
    (newA newB : string) (poll : Poll) (k : string) (n : Z) :
  reachable srv ->
  crashed srv = false ->
  session_of srv fromA = Some sA -> role sA = Viewer ->
  session_of srv fromB = Some sB -> role sB = Viewer ->
  poll ∈ Polls (store srv) ->
  poll_id poll = pollId ->
  commit_ok envA = true ->
  commit_ok envB = true ->
  k <> "" ->
  Tally.count (poll_values poll) k = Some n ->
  safe (n - 1) -> safe (n + 1) ->
  let A := Receive fromA (PollResponse pollId prevA newA) in
  let B := Receive fromB (PollResponse pollId prevB newB) in
  let stAB := store (fst (run srv [(envA, A); (envB, B)])) in
  let stBA := store (fst (run srv [(envB, B); (envA, A)])) in
  let sum := n - (if decide (prevA = Some k) then 1 else 0)
               + (if decide (newA = k) then 1 else 0)
               - (if decide (prevB = Some k) then 1 else 0)
               + (if decide (newB = k) then 1 else 0) in
  exists pAB pBA,
    pAB ∈ Polls stAB /\ poll_id pAB = pollId
    /\ pBA ∈ Polls stBA /\ poll_id pBA = pollId
    /\ Tally.count (poll_values pAB) k = Some sum
    /\ Tally.count (poll_values pBA) k = Some sum.
Proof.
  intros Hr C HsA HrA HsB HrB Hin Hid HA HB Hk Hn Hlo Hhi A B stAB stBA sum.
  subst A B stAB stBA sum. subst pollId.
  pose proof (reachable_poll_by_id srv poll Hr Hin) as Hp.
  assert (forall env1 env2 from1 from2 s1 s2 prev1 prev2 new1 new2,
             session_of srv from1 = Some s1 -> role s1 = Viewer ->
             session_of srv from2 = Some s2 -> role s2 = Viewer ->
             commit_ok env1 = true -> commit_ok env2 = true ->
             store (fst (run srv
                           [(env1, Receive from1 (PollResponse (poll_id poll) prev1 new1));
                            (env2, Receive from2 (PollResponse (poll_id poll) prev2 new2))]))
             = fst (on_PollResponse s2 env2 (poll_id poll) prev2 new2
                      (fst (on_PollResponse s1 env1 (poll_id poll) prev1 new1
                              (store srv))))) as Hrun.
  { intros env1 env2 from1 from2 s1 s2 prev1 prev2 new1 new2 H1 R1 H2 R2 C1 C2.
    simpl.
    destruct (step_response env1 srv from1 s1 (poll_id poll) prev1 new1 C H1 R1)
      as (E1 & S1 & C1' & _).
    destruct (step env1 srv _) as [srv1 out1]. simpl in E1, S1, C1'.
    assert (session_of srv1 from2 = Some s2) as H2'.
    { unfold session_of in *. now rewrite S1. }
    destruct (step_response env2 srv1 from2 s2 (poll_id poll) prev2 new2 C1' H2' R2)
      as (E2 & _).
    destruct (step env2 srv1 _) as [srv2 out2]. simpl in *. now rewrite E2, E1. }
  rewrite (Hrun envA envB fromA fromB sA sB) by assumption.
  rewrite (Hrun envB envA fromB fromA sB sA) by assumption.
  pose proof (response_stored sA envA _ _ prevA newA poll Hp HA) as H1.
  pose proof (response_stored sB envB _ _ prevB newB poll Hp HB) as H2.
  pose proof (response_stored sB envB _ _ prevB newB _ H1 HB) as H12.
  pose proof (response_stored sA envA _ _ prevA newA _ H2 HA) as H21.
  eexists _, _.
  split; [exact (proj1 (poll_by_id_elem _ _ _ H12))|]. split; [reflexivity|].
  split; [exact (proj1 (poll_by_id_elem _ _ _ H21))|]. split; [reflexivity|].
  cbn [poll_values set_values]. rewrite !TallyFacts.count_to_json.
  assert (safe n) as Hsafe by (unfold safe in *; lia).
  pose proof (TallyFacts.count_voted_safe prevA newA _ k n Hk Hn Hsafe) as CA.
  pose proof (TallyFacts.count_voted_safe prevB newB _ k n Hk Hn Hsafe) as CB.
  rewrite <- (TallyFacts.count_to_json (voted prevA newA _)) in CA.
  rewrite <- (TallyFacts.count_to_json (voted prevB newB _)) in CB.
  rewrite (TallyFacts.count_voted_safe prevB newB _ k _ Hk CA)
    by (unfold safe in *; repeat case_decide; lia).
  rewrite (TallyFacts.count_voted_safe prevA newA _ k _ Hk CB)
    by (unfold safe in *; repeat case_decide; lia).
  split; f_equal; lia.
Qed.

Lemma responses_commute_witness :
  exists pAB pBA,
    pAB ∈ Polls (store (fst (run demo_launched
                               [(demo_env, Receive 1 (PollResponse 1 None "A"));
                                (demo_env, Receive 1 (PollResponse 1 (Some "A") "B"))])))
    /\ poll_id pAB = 1
    /\ pBA ∈ Polls (store (fst (run demo_launched
                                  [(demo_env, Receive 1 (PollResponse 1 (Some "A") "B"));
                                   (demo_env, Receive 1 (PollResponse 1 None "A"))])))
    /\ poll_id pBA = 1
    /\ Tally.count (poll_values pAB) "A" = Some 0
    /\ Tally.count (poll_values pBA) "A" = Some 0.
Proof.
  assert (reachable demo_launched) as Hr.
  { apply reachable_run. constructor. }
  assert (mkPoll 1 1 Tally.zero 100 None ∈ Polls (store demo_launched)) as Hin.
  { change (Polls (store demo_launched)) with [mkPoll 1 1 Tally.zero 100 None].
    apply list_elem_of_here. }
  assert ("A" <> "") as Hk by discriminate.
  assert (safe (0 - 1) /\ safe (0 + 1)) as [Hlo Hhi].
  { unfold safe. simpl. lia. }
  exact (responses_commute demo_launched demo_env demo_env 1 1 demo_viewer demo_viewer
           1 None (Some "A") "A" "B" (mkPoll 1 1 Tally.zero 100 None) "A" 0
           Hr eq_refl eq_refl eq_refl eq_refl eq_refl Hin eq_refl eq_refl eq_refl
           Hk eq_refl Hlo Hhi).
Defined.

(** ** The number of votes a tally holds *)

Lemma total_voted prevChoice newChoice (values : gmap string jsnum) (l : list string) :
  (forall L, L ∈ l ->
     L <> "" /\ exists n, Tally.count values L = Some n /\ safe n) ->
  foldr (fun L acc =>
           default 0 (Tally.count (Tally.to_json (voted prevChoice newChoice values)) L)
           + acc) 0 l
  = foldr (fun L acc => default 0 (Tally.count values L) + acc) 0 l
    - foldr (fun L acc => (if decide (prevChoice = Some L) then 1 else 0) + acc) 0 l
    + foldr (fun L acc => (if decide (newChoice = L) then 1 else 0) + acc) 0 l.
Proof.
  induction l as [|L l IH]; intros Hall; simpl; [reflexivity|].
  rewrite IH by (intros L' HL'; apply Hall; now apply list_elem_of_further).
  destruct (Hall L (list_elem_of_here _ _)) as (HL & n & Hn & Hs).
  rewrite TallyFacts.count_to_json, (TallyFacts.count_voted_safe _ _ _ _ _ HL Hn Hs), Hn.
  simpl. lia.
Qed.

Lemma label_hits (x : string) :
  foldr (fun L acc => (if decide (x = L) then 1 else 0) + acc) 0 Tally.labels
  = if decide (x ∈ Tally.labels) then 1 else 0.
Proof.
  unfold Tally.labels. simpl.
  destruct (decide (x ∈ ["A"; "B"; "C"; "D"; "E"])) as [Hin|Hout].
  - rewrite !elem_of_cons, elem_of_nil in Hin.
    destruct Hin as [->|[->|[->|[->|[->|[]]]]]]; reflexivity.
  - rewrite !elem_of_cons, elem_of_nil in Hout.
    repeat case_decide; try lia; exfalso; apply Hout; tauto.
Qed.

Lemma label_hits_prev (prevChoice : option string) :
  foldr (fun L acc => (if decide (prevChoice = Some L) then 1 else 0) + acc) 0
    Tally.labels
  = match prevChoice with
    | Some prev => if decide (prev ∈ Tally.labels) then 1 else 0
    | None => 0
    end.
Proof.
  destruct prevChoice as [prev|]; [|reflexivity].
  rewrite <- label_hits. unfold Tally.labels. simpl.
  assert (forall L : string,
             (if decide (Some prev = Some L) then 1 else 0)
             = (if decide (prev = L) then 1 else 0)) as E.
  { intros L. repeat case_decide; congruence. }
  now rewrite !E.
Qed.

(** X10. A committed response to a poll whose five counts are safe
    integers changes the number of votes the poll holds over its labels by
    what it asks for: one less if its previous choice is a label, one more
    if its new choice is a label. Changing one label for another keeps the
    number, a first answer adds one. At [2^53], which is not safe, a first
    answer is lost to rounding and the number stays. *)
Theorem response_total (srv : Server) (s : Session) (env : Env) (from : nat)
    (pollId : Z) (prevChoice : option string) (newChoice : string) (poll : Poll) :
  reachable srv ->
  crashed srv = false ->
  session_of srv from = Some s -> role s = Viewer ->
  poll ∈ Polls (store srv) ->
  poll_id poll = pollId ->
  commit_ok env = true ->
  (forall L, L ∈ Tally.labels ->
     exists n, Tally.count (poll_values poll) L = Some n /\ safe n) ->
  let st' := store (fst (step env srv
                           (Receive from (PollResponse pollId prevChoice newChoice)))) in
  (exists poll',
      poll' ∈ Polls st' /\ poll_id poll' = pollId
      /\ tally_total (poll_values poll')
         = tally_total (poll_values poll)
           - match prevChoice with
             | Some prev => if decide (prev ∈ Tally.labels) then 1 else 0
             | None => 0
             end
           + (if decide (newChoice ∈ Tally.labels) then 1 else 0))
  /\ tally_total (Tally.to_json (voted None "A" (<["A" := JNum (2 ^ 53)]> Tally.zero)))
     = tally_total (<["A" := JNum (2 ^ 53)]> Tally.zero).
Proof.
  intros Hr C Hs Hrole Hin Hid Hc Hall st'. subst st' pollId.
  split; [|vm_compute; reflexivity].
  pose proof (reachable_poll_by_id srv poll Hr Hin) as Hp.
  destruct (step_response env srv from s (poll_id poll) prevChoice newChoice C Hs Hrole)
    as (-> & _).
  pose proof (response_stored s env _ _ prevChoice newChoice poll Hp Hc) as Hst.
  eexists. split; [exact (proj1 (poll_by_id_elem _ _ _ Hst))|]. split; [reflexivity|].
  cbn [poll_values set_values]. unfold tally_total.
  rewrite total_voted, label_hits, label_hits_prev; [reflexivity|].
  intros L HL. split; [now apply label_not_empty|now apply Hall].
Qed.

Lemma response_total_witness :
  exists poll',
    poll' ∈ Polls (store (fst (step demo_env demo_launched
                                 (Receive 1 (PollResponse 1 None "A")))))
    /\ poll_id poll' = 1
    /\ tally_total (poll_values poll')
       = tally_total Tally.zero - 0 + (if decide ("A" ∈ Tally.labels) then 1 else 0).
Proof.
  assert (reachable demo_launched) as Hr.
  { apply reachable_run. constructor. }
  assert (mkPoll 1 1 Tally.zero 100 None ∈ Polls (store demo_launched)) as Hin.
  { change (Polls (store demo_launched)) with [mkPoll 1 1 Tally.zero 100 None].
    apply list_elem_of_here. }
  assert (forall L, L ∈ Tally.labels ->
            exists n, Tally.count (poll_values (mkPoll 1 1 Tally.zero 100 None)) L
                      = Some n /\ safe n) as Hall.
  { intros L HL. cbn [poll_values]. rewrite (TallyFacts.count_zero L HL).
    eexists. split; [reflexivity|]. unfold safe. simpl. lia. }
  exact (proj1 (response_total demo_launched demo_viewer demo_env 1 1 None "A"
                  (mkPoll 1 1 Tally.zero 100 None)
                  Hr eq_refl eq_refl eq_refl Hin eq_refl eq_refl Hall)).
Defined.

(** ** Polls that are not there *)

Lemma update_poll_none pollId f ps :
  (forall p, p ∈ ps -> poll_id p <> pollId) -> update_poll pollId f ps = ps.
Proof.
  unfold update_poll. induction ps as [|p ps IH]; intros Hall; simpl; [reflexivity|].
  rewrite decide_False by (apply Hall, list_elem_of_here).
  f_equal. apply IH. intros q Hq. now apply Hall, list_elem_of_further.
Qed.

(** X11. An identity no poll carries: [PollEnd] changes nothing and still
    tells the viewers the poll has ended and the caller that it succeeded;
    [PollReveal] fails with nothing sent; [PollResponse] rolls back and
    acknowledges with the failure. *)
Theorem unknown_poll (s : Session) (env : Env) (st : Store) (pollId : Z) :
  (forall p, p ∈ Polls st -> poll_id p <> pollId) ->
  on_PollEnd s env pollId st
    = (st, [NspEmit (viewer_nsp (roomName s)) "PollEnd" NoPayload;
            Callback (sid (socket s)) (Flag true)])
  /\ on_PollReveal s pollId st = (st, [Unhandled])
  /\ forall prevChoice newChoice,
       on_PollResponse s env pollId prevChoice newChoice st
       = (st, [TrxBegin; TrxSelect pollId; TrxRollback;
               Callback (sid (socket s)) Failure]).
Proof.
  intros Hall.
  assert (poll_by_id st pollId = None) as Hnone by now apply poll_by_id_none.
  split; [|split].
  - unfold on_PollEnd. rewrite (update_poll_none _ _ _ Hall). now destruct st.
  - unfold on_PollReveal. now rewrite Hnone.
  - intros prevChoice newChoice. unfold on_PollResponse. now rewrite Hnone.
Qed.

Lemma unknown_poll_witness :
  on_PollEnd demo_admin demo_env 9 demo_polled
    = (demo_polled, [NspEmit (viewer_nsp (roomName demo_admin)) "PollEnd" NoPayload;
                     Callback (sid (socket demo_admin)) (Flag true)])
  /\ on_PollReveal demo_admin 9 demo_polled = (demo_polled, [Unhandled])
  /\ forall prevChoice newChoice,
       on_PollResponse demo_admin demo_env 9 prevChoice newChoice demo_polled
       = (demo_polled, [TrxBegin; TrxSelect 9; TrxRollback;
                        Callback (sid (socket demo_admin)) Failure]).
Proof.
  apply (unknown_poll demo_admin demo_env demo_polled 9).
  intros p Hp.
  change (Polls demo_polled) with [mkPoll 1 1 Tally.zero 100 None] in Hp.
  apply list_elem_of_singleton in Hp. subst p. simpl. lia.
Defined.

(** ** A poll from its launch to its end *)

(** What the launch of a poll by an administrator's session does. *)
Lemma step_launch env srv from s :
  crashed srv = false ->
  session_of srv from = Some s ->
  role s = Administrator ->
  step env srv (Receive from PollLaunch)
  = (mkServer (fst (on_PollLaunch s env (store srv)))
       (opened (snd (on_PollLaunch s env (store srv))) (nsps srv))
       (sockets srv) (sessions srv) (inflight srv) (socket_seq srv) (txn_seq srv)
       false,
     snd (on_PollLaunch s env (store srv))).
Proof.
  intros C Hs Hr. rewrite step_eq, C. simpl. rewrite Hs.
  rewrite dispatch_administrator by (assumption || in_names). reflexivity.
Qed.

(** X12. An administrator launches a poll after the other polls of the
    room. A client who then connects to a channel of the room is replayed
    the poll if the connection handler serves the channel; if the channel
    is one an emission has opened, the client is sent nothing, and the
    launch itself opens the viewers' channel when no client had connected
    to it. *)
Theorem launched_poll_is_replayed (srv : Server) (s : Session) (env env2 : Env)
    (from : nat) (name : string) (r : string) (a : option string) (room : Room) :
  reachable srv ->
  crashed srv = false ->
  session_of srv from = Some s ->
  role s = Administrator ->
  (forall q, q ∈ Polls (store srv) -> poll_roomId q = roomId s ->
     poll_created_at q < now env) ->
  RoomRegEx.exec name = Some (r, a) ->
  room_by_visibleId (store srv) r = Some room ->
  room_id room = roomId s ->
  let srv1 := fst (step env srv (Receive from PollLaunch)) in
  let out := snd (step env2 srv1 (Connect name)) in
  (if decide (nsps srv1 !! name = Some Plain) then out = []
   else SocketEmit (socket_seq srv) "PollStart" (PollIdent (poll_seq (store srv)))
        ∈ out)
  /\ (nsps srv !! viewer_nsp (roomName s) = None ->
      nsps srv1 !! viewer_nsp (roomName s) = Some Plain).
Proof.
  intros Hr C Hs Hrole Hold Hexec Hroom Hid srv1 out. subst srv1 out.
  rewrite (step_launch env srv from s C Hs Hrole). cbn [fst].
  set (row := mkPoll (poll_seq (store srv)) (roomId s) Tally.zero (now env) None).
  split.
  - rewrite step_out. cbn [crashed nsps].
    set (ns := opened _ (nsps srv)).
    assert (replay_poll (fst (on_PollLaunch s env (store srv)))
              (mkSocket (socket_seq srv) name) (roomId s)
            = [SocketEmit (socket_seq srv) "PollStart"
                 (PollIdent (poll_seq (store srv)))]) as Hreplay.
    { rewrite (replay_poll_latest _ _ (roomId s) row); [reflexivity| |reflexivity|].
      - simpl. apply elem_of_app. right. apply list_elem_of_here.
      - simpl. intros q [Hq|Hq]%elem_of_app Hqr.
        + right. now apply Hold.
        + left. now apply list_elem_of_singleton in Hq. }
    assert (exists out,
               on_connection env2 (fst (on_PollLaunch s env (store srv)))
                 (mkSocket (socket_seq srv) name)
               = (Some (mkSession (mkSocket (socket_seq srv) name) r (roomId s) a), out)
               /\ SocketEmit (socket_seq srv) "PollStart"
                    (PollIdent (poll_seq (store srv))) ∈ out) as (o & Ho & Hin).
    { unfold on_connection. simpl nsp. rewrite Hexec.
      change (room_by_visibleId (fst (on_PollLaunch s env (store srv))) r)
        with (room_by_visibleId (store srv) r).
      rewrite Hroom, Hid. eexists. split; [reflexivity|].
      rewrite Hreplay. destruct (questions_first env2); in_names. }
    assert (authorize (fst (on_PollLaunch s env (store srv))) name = true) as Hauth.
    { unfold authorize. rewrite Hexec.
      change (room_by_visibleId (fst (on_PollLaunch s env (store srv))) r)
        with (room_by_visibleId (store srv) r).
      now rewrite Hroom. }
    clearbody ns. revert Ho Hin Hauth.
    generalize (fst (on_PollLaunch s env (store srv))). intros st1 Ho Hin Hauth.
    simpl. destruct (ns !! name) as [[|]|] eqn:En.
    + rewrite decide_False by discriminate. now rewrite Ho.
    + rewrite decide_True by reflexivity. reflexivity.
    + rewrite decide_False by discriminate. rewrite Hauth. now rewrite Ho.
  - intros Hnone. cbn [nsps]. simpl. now rewrite Hnone, lookup_insert_eq.
Qed.

Lemma launched_poll_is_replayed_witness :
  snd (step demo_env
         (fst (step demo_env (fst (run (boot demo_rooms) demo_leak))
                 (Receive 0 PollLaunch)))
         (Connect "/rooms/abc123"))
  = [SocketEmit 2 "PollStart" (PollIdent 1);
     SocketEmit 2 "QuestionNew" (QuestionList [])]
  /\ nsps (fst (step demo_env (fst (run (boot demo_rooms) [(demo_env, Connect "/rooms/abc123/admin")]))
                  (Receive 0 PollLaunch))) !! "/rooms/abc123"
     = Some Plain.
Proof.
  assert (reachable (fst (run (boot demo_rooms) demo_leak))) as Hr1.
  { apply reachable_run. constructor. }
  assert (reachable (fst (run (boot demo_rooms)
                            [(demo_env, Connect "/rooms/abc123/admin")]))) as Hr2.
  { apply reachable_run. constructor. }
  assert (forall srv, Polls (store srv) = [] ->
            forall q, q ∈ Polls (store srv) -> poll_roomId q = roomId demo_admin ->
                      poll_created_at q < now demo_env) as Hnone.
  { intros srv -> q Hq. now apply elem_of_nil in Hq. }
  destruct (launched_poll_is_replayed (fst (run (boot demo_rooms) demo_leak))
              demo_admin demo_env demo_env 0 "/rooms/abc123" "abc123" None
              (mkRoom 1 "abc123") Hr1 eq_refl eq_refl eq_refl
              (Hnone (fst (run (boot demo_rooms) demo_leak)) eq_refl)
              eq_refl eq_refl eq_refl) as [H1 _].
  destruct (launched_poll_is_replayed
              (fst (run (boot demo_rooms) [(demo_env, Connect "/rooms/abc123/admin")]))
              demo_admin demo_env demo_env 0 "/rooms/abc123" "abc123" None
              (mkRoom 1 "abc123") Hr2 eq_refl eq_refl eq_refl
              (Hnone (fst (run (boot demo_rooms)
                             [(demo_env, Connect "/rooms/abc123/admin")])) eq_refl)
              eq_refl eq_refl eq_refl) as [_ H2].
  split; [vm_compute; reflexivity|]. apply H2. reflexivity.
Defined.

(** ** Questions along a run *)

Lemma grows_to_refl q : grows_to q q.
Proof. unfold grows_to. repeat split; auto; lia. Qed.

Lemma grows_to_trans q0 q1 q2 : grows_to q0 q1 -> grows_to q1 q2 -> grows_to q0 q2.
Proof.
  unfold grows_to. intros (A1 & A2 & A3 & A4 & A5 & A6) (B1 & B2 & B3 & B4 & B5 & B6).
  repeat split; try congruence; [lia|auto].
Qed.

Lemma update_question_grows questionId f qs q :
  (forall x, grows_to x (f x)) ->
  q ∈ fst (update_question questionId f qs) ->
  exists q0, q0 ∈ qs /\ grows_to q0 q.
Proof.
  intros Hf (q0 & -> & Hq0)%elem_of_map_inv. exists q0. split; [assumption|].
  case_decide; [apply Hf|apply grows_to_refl].
Qed.

(** A row of the table after a step is what has become of a row before it,
    or has come in unapproved under an identity no row carried. *)
Lemma step_question_grows env srv i q :
  q ∈ Questions (store (fst (step env srv i))) ->
  (exists q0, q0 ∈ Questions (store srv) /\ grows_to q0 q)
  \/ ((question_id q ∉ map question_id (Questions (store srv)))
      /\ question_approved q = false).
Proof.
  assert (forall x, grows_to x (set_approved x)) as Happ.
  { intros x. unfold grows_to. simpl. repeat split; auto; lia. }
  assert (forall x, grows_to x (add_vote x)) as Hvote.
  { intros x. unfold grows_to. simpl. repeat split; auto; lia. }
  assert (q ∈ Questions (store srv) ->
          (exists q0, q0 ∈ Questions (store srv) /\ grows_to q0 q)
          \/ ((question_id q ∉ map question_id (Questions (store srv)))
              /\ question_approved q = false)) as Hsame.
  { intros Hq. left. exists q. split; [assumption|apply grows_to_refl]. }
  destruct (step_store_cases env srv i)
    as [->|[(s & ev0 & from & ev & _ & _ & _ & _ & ->)|(t & _ & _ & _ & ->)]];
    [exact Hsame| |exact Hsame].
  destruct ev0; cbn [complete]; rewrite ?acknowledging_true; try exact Hsame.
  - unfold on_PollReveal. now destruct (poll_by_id (store srv) pollId).
  - unfold on_QuestionApprove.
    pose proof (update_question_grows questionId set_approved
                  (Questions (store srv)) q Happ) as H1.
    destruct (update_question _ _ _) as [table [|row rows]]; simpl in *;
      intros Hq; left; now apply H1.
  - simpl. intros [_ Hq]%list_elem_of_filter. now apply Hsame.
  - unfold on_PollResponse.
    destruct (poll_by_id (store srv) id) as [poll|]; [|exact Hsame].
    now destruct (commit_ok env).
  - unfold on_ReactionSend. now destruct (truthy _).
  - unfold on_QuestionAsk. destruct (ask_other data); [exact Hsame|].
    destruct (decide _) as [Hin|Hout]; [exact Hsame|]. simpl.
    intros [Hq|Hq]%elem_of_app; [now apply Hsame|].
    apply list_elem_of_singleton in Hq. subst q. now right.
  - unfold on_QuestionUpvote.
    pose proof (update_question_grows questionId add_vote
                  (Questions (store srv)) q Hvote) as H1.
    destruct (update_question _ _ _) as [table [|row rows]]; simpl in *;
      intros Hq; left; now apply H1.
Qed.

Lemma run_cons srv env i rest :
  fst (run srv ((env, i) :: rest)) = fst (run (fst (step env srv i)) rest).
Proof.
  simpl. destruct (step env srv i) as [srv1 out1]. simpl.
  now destruct (run srv1 rest).
Qed.

(** X13. Along any run a question keeps its identity, room, content and
    creation time, its votes never go down and its approval is never taken
    back: a row of the table after the run is what has become of a row
    before it, or of a row that came in during the run, unapproved and
    under an identity that was free. *)
Theorem questions_only_grow (srv : Server) (inputs : list (Env * Input))
    (q : Question) :
  q ∈ Questions (store (fst (run srv inputs))) ->
  (exists q0, q0 ∈ Questions (store srv) /\ grows_to q0 q)
  \/ asked_during srv inputs q.
Proof.
  revert srv. induction inputs as [|[env i] rest IH]; intros srv.
  - simpl. intros Hq. left. exists q. split; [assumption|apply grows_to_refl].
  - rewrite run_cons. intros Hq.
    destruct (IH _ Hq) as [(q1 & Hq1 & G1)|(pre & env' & i' & post & q1 & E & H1 & H2 & H3 & G)].
    + destruct (step_question_grows env srv i q1 Hq1) as [(q0 & Hq0 & G0)|[Hnew Happ]].
      * left. exists q0. split; [assumption|]. now apply (grows_to_trans _ q1).
      * right. exists [], env, i, rest, q1. simpl. auto.
    + right. exists ((env, i) :: pre), env', i', post, q1.
      rewrite !run_cons. rewrite E. auto.
Qed.

Lemma questions_only_grow_witness :
  (exists q0, q0 ∈ Questions (store (boot demo_rooms))
              /\ grows_to q0 (mkQuestion 1 1 (Some "why?") false 1 100))
  \/ asked_during (boot demo_rooms) demo_leak
       (mkQuestion 1 1 (Some "why?") false 1 100).
Proof.
  apply (questions_only_grow (boot demo_rooms) demo_leak).
  apply list_elem_of_here.
Defined.

(** ** Approval *)

Lemma filter_update_question questionId f qs :
  (forall q, question_id (f q) = question_id q) ->
  filter (fun q => question_id q = questionId)
    (fst (update_question questionId f qs))
  = map f (filter (fun q => question_id q = questionId) qs).
Proof.
  intros Hf. unfold update_question. simpl.
  induction qs as [|q qs IH]; simpl; [reflexivity|].
  rewrite !filter_cons, IH.
  destruct (decide (question_id q = questionId)) as [E|E].
  - rewrite Hf. now rewrite decide_True.
  - now rewrite decide_False.
Qed.

(** X14. Approving is idempotent: a second [QuestionApprove] of the same
    identity leaves the store as the first one left it, and sends and
    acknowledges the same record. *)
Theorem approve_twice (s : Session) (questionId : Z) (st : Store) :
  on_QuestionApprove s questionId (fst (on_QuestionApprove s questionId st))
  = on_QuestionApprove s questionId st.
Proof.
  assert (forall q, set_approved (set_approved q) = set_approved q) as Hidem
    by reflexivity.
  assert (fst (update_question questionId set_approved
                 (fst (update_question questionId set_approved (Questions st))))
          = fst (update_question questionId set_approved (Questions st))) as Htable.
  { unfold update_question. simpl. rewrite map_map. apply map_ext. intros q.
    destruct (decide (question_id q = questionId)) as [E|E].
    - rewrite decide_True by exact E. apply Hidem.
    - now rewrite decide_False. }
  assert (snd (update_question questionId set_approved
                 (fst (update_question questionId set_approved (Questions st))))
          = snd (update_question questionId set_approved (Questions st))) as Hrows.
  { pose proof (filter_update_question questionId set_approved (Questions st)
                  (fun _ => eq_refl)) as F.
    unfold update_question in *. simpl in *. rewrite F, map_map.
    apply map_ext. intros q. apply Hidem. }
  unfold on_QuestionApprove.
  destruct (update_question questionId set_approved (Questions st))
    as [table rows] eqn:E.
  cbn [fst snd] in Htable, Hrows.
  destruct rows as [|row rows]; cbn [fst Questions with_Questions];
    destruct (update_question questionId set_approved table) as [t2 r2];
    cbn [fst snd] in Htable, Hrows; subst t2 r2; reflexivity.
Qed.

(** ** Events received and connections served *)

(** An event received from a bound socket runs what its dispatch gives; the
    emissions open their namespaces and a rejected promise ends the
    process. *)
Lemma step_receive env srv from s ev :
  crashed srv = false ->
  session_of srv from = Some s ->
  step env srv (Receive from ev)
  = (mkServer (fst (dispatch s env ev (store srv)))
       (opened (snd (dispatch s env ev (store srv))) (nsps srv))
       (sockets srv) (sessions srv) (inflight srv) (socket_seq srv) (txn_seq srv)
       (existsb is_unhandled (snd (dispatch s env ev (store srv)))),
     snd (dispatch s env ev (store srv))).
Proof.
  intros C Hs. rewrite step_eq, C. simpl. rewrite Hs.
  now destruct (dispatch s env ev (store srv)).
Qed.

(** The connection handler on a name of the pattern whose room is there. *)
Lemma on_connection_room env st k r a room :
  RoomRegEx.exec (nsp k) = Some (r, a) ->
  room_by_visibleId st r = Some room ->
  on_connection env st k
  = (Some (mkSession k r (room_id room) a),
     let questions :=
       [SocketEmit (sid k) "QuestionNew"
          (QuestionList (map drop_roomId (replay_questions st (room_id room) a)))] in
     if questions_first env
     then questions ++ replay_poll st k (room_id room)
     else replay_poll st k (room_id room) ++ questions).
Proof. intros He Hr. unfold on_connection. now rewrite He, Hr. Qed.

(** A connection to a channel of a room that the connection handler serves
    is sent what the handler sends. *)
Lemma connect_served env srv name r a room :
  crashed srv = false ->
  nsps srv !! name <> Some Plain ->
  RoomRegEx.exec name = Some (r, a) ->
  room_by_visibleId (store srv) r = Some room ->
  snd (step env srv (Connect name))
  = snd (on_connection env (store srv) (mkSocket (socket_seq srv) name)).
Proof.
  intros C Hn He Hr. rewrite step_out, C. simpl.
  assert (authorize (store srv) name = true) as Ha.
  { unfold authorize. now rewrite He, Hr. }
  destruct (nsps srv !! name) as [[|]|].
  - now destruct (on_connection env (store srv) _).
  - congruence.
  - rewrite Ha. now destruct (on_connection env (store srv) _).
Qed.

(** The questions a connection to a channel of a room is sent are among
    those of the replay query of the role. *)
Lemma connect_questions env srv name r a room e q :
  RoomRegEx.exec name = Some (r, a) ->
  room_by_visibleId (store srv) r = Some room ->
  e ∈ snd (step env srv (Connect name)) ->
  q ∈ questions_in e ->
  exists x, x ∈ replay_questions (store srv) (room_id room) a /\ q = drop_roomId x.
Proof.
  intros He Hr Hin Hq.
  destruct (connect_out env srv name) as [E|(_ & bound & E)].
  { rewrite E in Hin. now apply elem_of_nil in Hin. }
  revert E Hin. generalize (snd (step env srv (Connect name))). intros out E Hin.
  rewrite (on_connection_room env (store srv) (mkSocket (socket_seq srv) name) r a room He Hr) in E.
  injection E as _ <-. cbv zeta in Hin.
  assert (e ∈ replay_poll (store srv) (mkSocket (socket_seq srv) name) (room_id room)
          \/ e = SocketEmit (socket_seq srv) "QuestionNew"
                   (QuestionList
                      (map drop_roomId
                         (replay_questions (store srv) (room_id room) a))))
    as [H | ->].
  { destruct (questions_first env);
      rewrite ?elem_of_app, ?elem_of_cons, ?elem_of_nil in Hin; tauto. }
  - apply replay_poll_sound in H as (p & -> & _). now apply elem_of_nil in Hq.
  - simpl in Hq. apply elem_of_map_inv in Hq as (x & -> & Hx). eauto.
Qed.

(** ** From asking to approval *)

Lemma on_QuestionAsk_asking s env content st :
  question_seq st ∉ map question_id (Questions st) ->
  on_QuestionAsk s env (asking content) st
  = (mkStore (Rooms st) (Polls st)
       (Questions st
        ++ [mkQuestion (question_seq st) (roomId s) (Some content) false 0 (now env)])
       (poll_seq st) (question_seq st + 1),
     [Callback (sid (socket s)) (Flag true);
      NspEmit (admin_nsp (roomName s)) "QuestionNew"
        (QuestionList
           [mkQuestionMsg (question_seq st) (Some content) false 0 (now env)])]).
Proof.
  intros Hfree. unfold on_QuestionAsk, asking.
  cbn [ask_other ask_id ask_roomId ask_content ask_votes ask_created_at default].
  now rewrite decide_False by assumption.
Qed.

(** X15. A question asked with its content only, under an identity that
    is free, by a session of a room. While it waits, a client connecting to
    a channel of the room is sent it only as an administrator, and
    unapproved; an administrator whose channel the connection handler
    serves is sent it, and the emission of the handler itself opens the
    administrators' channel if no client had connected to it. Once an
    administrator has approved the identity, a client whose channel the
    connection handler serves is sent the question, approved and with the
    content asked, in either role. *)
Theorem asked_then_approved (srv : Server) (s : Session) (env env2 : Env)
    (from : nat) (content : string) (name r : string) (a : option string)
    (room : Room) :
  reachable srv ->
  crashed srv = false ->
  session_of srv from = Some s ->
  (question_seq (store srv) ∉ map question_id (Questions (store srv))) ->
  RoomRegEx.exec name = Some (r, a) ->
  room_by_visibleId (store srv) r = Some room ->
  room_id room = roomId s ->
  let id := question_seq (store srv) in
  let srv1 := fst (step env srv (Receive from (QuestionAsk (asking content)))) in
  let out1 := snd (step env2 srv1 (Connect name)) in
  (forall e q, e ∈ out1 -> q ∈ questions_in e -> msg_id q = id ->
     truthy a = true /\ msg_approved q = false)
  /\ (truthy a = true -> nsps srv1 !! name <> Some Plain ->
      exists e, e ∈ out1
                /\ mkQuestionMsg id (Some content) false 0 (now env) ∈ questions_in e)
  /\ (nsps srv !! admin_nsp (roomName s) = None ->
      nsps srv1 !! admin_nsp (roomName s) = Some Plain)
  /\ (forall sa fromA envA,
        session_of srv1 fromA = Some sa -> role sa = Administrator ->
        let srv2 := fst (step envA srv1 (Receive fromA (QuestionApprove id))) in
        nsps srv2 !! name <> Some Plain ->
        exists e, e ∈ snd (step env2 srv2 (Connect name))
                  /\ mkQuestionMsg id (Some content) true 0 (now env)
                     ∈ questions_in e).
Proof.
  intros Hr C Hs Hfree He Hroom Hid id srv1 out1. subst id srv1 out1.
  rewrite (step_receive env srv from s _ C Hs), dispatch_QuestionAsk,
    (on_QuestionAsk_asking s env content _ Hfree).
  cbn [fst snd].
  set (row := mkQuestion (question_seq (store srv)) (roomId s) (Some content) false 0
                (now env)).
  set (st1 := mkStore _ _ (Questions (store srv) ++ [row]) _ _).
  set (srv1 := mkServer st1 _ _ _ _ _ _ _).
  assert (room_by_visibleId st1 r = Some room) as Hroom1 by exact Hroom.
  assert (crashed srv1 = false) as C1 by reflexivity.
  assert (forall x, x ∈ Questions st1 -> question_id x = question_seq (store srv) ->
                    x = row) as Hnew.
  { intros x [Hx|Hx]%elem_of_app Hx'.
    - destruct Hfree. rewrite <- Hx'. now apply elem_of_map.
    - now apply list_elem_of_singleton in Hx. }
  assert (row ∈ Questions st1) as Hrow.
  { apply elem_of_app. right. apply list_elem_of_here. }
  split; [|split; [|split]].
  - intros e q Hin Hq Hq'.
    destruct (connect_questions env2 srv1 name r a room e q He Hroom1 Hin Hq)
      as (x & Hx & ->).
    unfold replay_questions in Hx. simpl in Hq'.
    destruct (truthy a); apply list_elem_of_filter in Hx.
    + destruct Hx as [_ Hx]. rewrite (Hnew x Hx Hq'). split; reflexivity.
    + destruct Hx as [[_ Happ] Hx]. rewrite (Hnew x Hx Hq') in Happ. discriminate.
  - intros Ha Hn.
    rewrite (connect_served env2 srv1 name r a room C1 Hn He Hroom1).
    rewrite (on_connection_room env2 (store srv1) (mkSocket (socket_seq srv1) name)
               r a room He Hroom1). cbn [snd].
    exists (SocketEmit (socket_seq srv) "QuestionNew"
              (QuestionList (map drop_roomId (replay_questions st1 (room_id room) a)))).
    split; [destruct (questions_first env2); in_names; apply elem_of_app; right;
            apply list_elem_of_here|].
    simpl. change (mkQuestionMsg _ _ _ _ _) with (drop_roomId row).
    apply elem_of_map. unfold replay_questions. rewrite Ha.
    apply list_elem_of_filter. split; [now rewrite Hid|exact Hrow].
  - intros Hnone. subst srv1. cbn [nsps]. simpl. now rewrite Hnone, lookup_insert_eq.
  - intros sa fromA envA Hsa Hra.
    rewrite (step_receive envA srv1 fromA sa _ C1 Hsa).
    rewrite dispatch_administrator by (assumption || in_names).
    change (handler sa envA (QuestionApprove (question_seq (store srv))) (store srv1))
      with (on_QuestionApprove sa (question_seq (store srv)) st1).
    assert (set_approved row
            ∈ Questions (fst (on_QuestionApprove sa (question_seq (store srv)) st1))
            /\ Rooms (fst (on_QuestionApprove sa (question_seq (store srv)) st1))
               = Rooms (store srv)
            /\ existsb is_unhandled
                 (snd (on_QuestionApprove sa (question_seq (store srv)) st1)) = false)
      as (Hin & HR & Hc).
    { unfold on_QuestionApprove.
      pose proof (update_question_table (question_seq (store srv)) set_approved
                    (Questions st1) row Hrow eq_refl) as Ht.
      assert (snd (update_question (question_seq (store srv)) set_approved
                     (Questions st1)) <> []) as Hne.
      { unfold update_question. cbn [snd]. intros E.
        apply (f_equal (fun l => set_approved row ∈ l)) in E.
        assert (set_approved row ∈ map set_approved
                  (filter (fun q => question_id q = question_seq (store srv))
                     (Questions st1))) as H.
        { apply elem_of_map. now apply list_elem_of_filter. }
        rewrite E in H. now apply elem_of_nil in H. }
      destruct (update_question _ _ _) as [table rows]. simpl in Ht, Hne.
      destruct rows; [congruence|]. simpl. auto. }
    cbn [fst snd].
    set (st2 := fst (on_QuestionApprove sa (question_seq (store srv)) st1)) in *.
    set (srv2 := mkServer st2 _ _ _ _ _ _ _).
    intros Hn.
    assert (room_by_visibleId st2 r = Some room) as Hroom2.
    { unfold room_by_visibleId in *. now rewrite HR. }
    assert (crashed srv2 = false) as C2 by exact Hc.
    rewrite (connect_served env2 srv2 name r a room C2 Hn He Hroom2).
    rewrite (on_connection_room env2 (store srv2) (mkSocket (socket_seq srv2) name)
               r a room He Hroom2). cbn [snd].
    exists (SocketEmit (socket_seq srv) "QuestionNew"
              (QuestionList (map drop_roomId (replay_questions st2 (room_id room) a)))).
    split; [destruct (questions_first env2); in_names; apply elem_of_app; right;
            apply list_elem_of_here|].
    simpl. change (mkQuestionMsg _ _ _ _ _) with (drop_roomId (set_approved row)).
    apply elem_of_map. unfold replay_questions.
    destruct (truthy a); apply list_elem_of_filter; rewrite Hid; auto.
Qed.

Lemma asked_then_approved_witness :
  exists e,
    e ∈ snd (step demo_env
               (fst (step demo_env
                       (fst (step demo_env (fst (run (boot demo_rooms) demo_asked_once))
                               (Receive 1 (QuestionAsk (asking "again?")))))
                       (Receive 0 (QuestionApprove 2))))
               (Connect "/rooms/abc123"))
    /\ mkQuestionMsg 2 (Some "again?") true 0 100 ∈ questions_in e.
Proof.
  assert (reachable (fst (run (boot demo_rooms) demo_asked_once))) as Hr.
  { apply reachable_run. constructor. }
  destruct (asked_then_approved (fst (run (boot demo_rooms) demo_asked_once))
              demo_viewer demo_env demo_env 1 "again?"
              "/rooms/abc123" "abc123" None (mkRoom 1 "abc123") Hr eq_refl eq_refl)
    as (_ & _ & _ & H).
  - change (2 ∉ [1]). rewrite elem_of_cons, elem_of_nil. intros [H|[]].
    discriminate H.
  - reflexivity.
  - reflexivity.
  - reflexivity.
  - apply (H demo_admin 0%nat demo_env); [reflexivity|reflexivity|].
    vm_compute. discriminate.
Defined.

(** ** Clearing *)

(** X16. After a [QuestionClear] that carries an object for argument, the
    replay query of the room selects no question, in either role, and the
    replay query of another room selects what it did. Sent without
    argument, the event makes the handler throw: nothing is deleted and the
    replay queries select what they did. *)
Theorem clear_then_replay (s : Session) (env : Env) (st : Store) (a : option string) :
  role s = Administrator ->
  let st1 := fst (dispatch s env QuestionClear st) in
  replay_questions st1 (roomId s) a = []
  /\ (forall r, r <> roomId s ->
        replay_questions st1 r a = replay_questions st r a)
  /\ forall ack, dispatch s env (NoArgument "QuestionClear" ack) st = (st, [Unhandled]).
Proof.
  intros Hr st1. subst st1.
  rewrite dispatch_administrator by (assumption || in_names).
  change (handler s env QuestionClear st) with (on_QuestionClear s st).
  unfold replay_questions. simpl. split; [|split].
  - destruct (truthy a); rewrite list_filter_filter; apply filter_none; tauto.
  - intros r Hne. destruct (truthy a); rewrite list_filter_filter;
      apply list_filter_iff; intros q; split; try tauto; intros; intuition congruence.
  - intros ack. rewrite dispatch_administrator by (assumption || in_names).
    reflexivity.
Qed.

Lemma clear_then_replay_witness :
  role demo_admin = Administrator
  /\ replay_questions
       (fst (dispatch demo_admin demo_env QuestionClear
               (store (fst (run (boot demo_rooms) demo_asked_once)))))
       1 (Some "admin")
     = []
  /\ dispatch demo_admin demo_env (NoArgument "QuestionClear" true)
       (store (fst (run (boot demo_rooms) demo_asked_once)))
     = (store (fst (run (boot demo_rooms) demo_asked_once)), [Unhandled]).
Proof.
  destruct (clear_then_replay demo_admin demo_env
              (store (fst (run (boot demo_rooms) demo_asked_once))) (Some "admin")
              eq_refl) as (H1 & _ & H2).
  split; [reflexivity|]. split; [exact H1|exact (H2 true)].
Defined.

(** ** Questions that are not there *)

(** X17. An identity no question carries: [QuestionApprove] and
    [QuestionUpvote] change nothing, send nothing and acknowledge nothing;
    the handler's promise is rejected. *)
Theorem unknown_question (s : Session) (st : Store) (questionId : Z) :
  (forall q, q ∈ Questions st -> question_id q <> questionId) ->
  on_QuestionApprove s questionId st = (st, [Unhandled])
  /\ on_QuestionUpvote s questionId st = (st, [Unhandled]).
Proof.
  intros Hall.
  assert (forall f, update_question questionId f (Questions st) = (Questions st, []))
    as Hupd.
  { intros f. unfold update_question. rewrite (filter_none _ _ Hall). f_equal.
    induction (Questions st) as [|q qs IH]; simpl; [reflexivity|].
    rewrite decide_False by (apply Hall, list_elem_of_here).
    f_equal. apply IH. intros x Hx. now apply Hall, list_elem_of_further. }
  unfold on_QuestionApprove, on_QuestionUpvote. rewrite !Hupd.
  now destruct st.
Qed.

Lemma unknown_question_witness :
  on_QuestionApprove demo_admin 9 demo_asked = (demo_asked, [Unhandled])
  /\ on_QuestionUpvote demo_admin 9 demo_asked = (demo_asked, [Unhandled]).
Proof.
  apply (unknown_question demo_admin demo_asked 9).
  intros q Hq. apply list_elem_of_singleton in Hq. subst q. simpl. lia.
Defined.

(** ** Reactions *)



(** ** The replay of the earlier server *)

Lemma head_order_desc_filter (P : Poll -> Prop) `{forall p, Decision (P p)} ps p :
  head (order_desc ps) = Some p -> P p ->
  head (order_desc (filter P ps)) = Some p.
Proof.
  revert p. induction ps as [|x xs IH]; intros p; simpl; [discriminate|].
  rewrite head_insert_desc, filter_cons. intros [= Hp] HP.
  destruct (head (order_desc xs)) as [h|] eqn:Eh.
  - destruct (Z.leb_spec (poll_created_at h) (poll_created_at x)) as [Hle|Hgt].
    + subst x. rewrite decide_True by exact HP. simpl.
      rewrite head_insert_desc. f_equal.
      destruct (head (order_desc (filter P xs))) as [q|] eqn:Eq; [|reflexivity].
      apply head_order_desc_elem, list_elem_of_filter in Eq as [_ Hq].
      pose proof (head_order_desc_latest _ _ Eh q Hq).
      destruct (Z.leb_spec (poll_created_at q) (poll_created_at p)); [reflexivity|lia].
    + subst h. specialize (IH p eq_refl HP).
      destruct (decide (P x)); [|exact IH]. simpl.
      rewrite head_insert_desc, IH. f_equal.
      destruct (Z.leb_spec (poll_created_at p) (poll_created_at x)); [lia|reflexivity].
  - subst x. apply head_order_desc_None in Eh. subst xs.
    rewrite decide_True by exact HP. reflexivity.
Qed.

(** X19. The earlier replay and the present one. Whatever the present
    connection handler replays, the earlier one replayed too. The earlier
    one replayed a poll whenever the room had an open one, also when a more
    recent poll of the room had ended, where the present one replays
    none. *)
Theorem legacy_replay (st : Store) (k : Socket) (r : Z) :
  (forall e, e ∈ replay_poll st k r -> Legacy.replay_poll st k r = [e])
  /\ (forall p, p ∈ Polls st -> poll_roomId p = r -> poll_ended_at p = None ->
        exists q, Legacy.replay_poll st k r
                  = [SocketEmit (sid k) "PollStart" (PollIdent (poll_id q))]
                  /\ q ∈ Polls st /\ poll_roomId q = r /\ poll_ended_at q = None)
  /\ (forall p, p ∈ Polls st -> poll_roomId p = r ->
        (forall q, q ∈ Polls st -> poll_roomId q = r ->
           q = p \/ poll_created_at q < poll_created_at p) ->
        poll_ended_at p <> None -> replay_poll st k r = []).
Proof.
  split; [|split].
  - unfold replay_poll, polls_of_room, Legacy.replay_poll, Legacy.pending_polls.
    intros e He.
    destruct (order_desc (filter (fun p => poll_roomId p = r) (Polls st)))
      as [|p ps] eqn:E; [now apply elem_of_nil in He|].
    destruct (poll_ended_at p) eqn:Hend; [now apply elem_of_nil in He|].
    apply list_elem_of_singleton in He. subst e.
    assert (head (order_desc (filter (fun p => poll_ended_at p = None)
                                (filter (fun p => poll_roomId p = r) (Polls st))))
            = Some p) as Hh.
    { apply head_order_desc_filter; [now rewrite E|exact Hend]. }
    destruct (order_desc (filter (fun p => poll_ended_at p = None) _)) as [|h hs];
      [discriminate|].
    now injection Hh as ->.
  - intros p Hp Hr Hend.
    unfold Legacy.replay_poll, Legacy.pending_polls.
    destruct (order_desc _) as [|q qs] eqn:E.
    + assert (head (order_desc
                      (filter (fun p => poll_ended_at p = None)
                         (filter (fun p => poll_roomId p = r) (Polls st)))) = None)
        as Hn by now rewrite E.
      apply head_order_desc_None in Hn.
      assert (p ∈ filter (fun p => poll_ended_at p = None)
                    (filter (fun p => poll_roomId p = r) (Polls st))) as Hin.
      { apply list_elem_of_filter. split; [exact Hend|].
        now apply list_elem_of_filter. }
      rewrite Hn in Hin. now apply elem_of_nil in Hin.
    + exists q. split; [reflexivity|].
      assert (head (order_desc
                      (filter (fun p => poll_ended_at p = None)
                         (filter (fun p => poll_roomId p = r) (Polls st)))) = Some q)
        as Hq by now rewrite E.
      apply head_order_desc_elem, list_elem_of_filter in Hq as [Hq1 Hq2].
      apply list_elem_of_filter in Hq2. tauto.
  - intros p Hp Hr Hall Hend.
    rewrite (replay_poll_latest st k r p Hp Hr Hall).
    now destruct (poll_ended_at p).
Qed.

(** ** The pattern, once more *)

(** X20. [roomRegEx.exec] returns the two groups of a name exactly on the
    language of the pattern: the seven characters of the prefix, its
    letters in either case, a token with no slash, an optional second token
    after a slash, an optional final slash. The case of the prefix does not
    change what is captured; a prefix with another letter, a missing slash
    or an upper-case room is not the same name. *)
Theorem roomRegEx_language (name : string) :
  (forall r a, RoomRegEx.exec name = Some (r, a) <-> RoomRegEx.matches name r a)
  /\ (RoomRegEx.exec name = None <-> forall r a, ~ RoomRegEx.matches name r a)
  /\ (forall p rest, RoomRegEx.rooms_prefix p ->
        RoomRegEx.exec (p +:+ rest) = RoomRegEx.exec ("/rooms/" +:+ rest))
  /\ RoomRegEx.rooms_prefix "/RoOmS/"
  /\ ~ RoomRegEx.rooms_prefix "/rooms"
  /\ ~ RoomRegEx.rooms_prefix "/rooma/"
  /\ (forall a, ~ RoomRegEx.matches "/xooms/abc123" "abc123" a)
  /\ RoomRegEx.exec "/ROOMS/Abc123" = Some ("Abc123", None).
Proof.
  assert (forall p, ~ RoomRegEx.literal_ci "/rooms/" p = Some "" ->
                    ~ RoomRegEx.rooms_prefix p) as Hno.
  { intros p H Hp. now apply RoomRegExFacts.rooms_prefix_literal in Hp. }
  split; [|split; [|split; [|split; [|split; [|split; [|split]]]]]].
  - intros r a. split;
      [apply RoomRegExFacts.exec_sound|apply RoomRegExFacts.exec_complete].
  - split.
    + intros Hn r a Hm%RoomRegExFacts.exec_complete. congruence.
    + intros Hnone. destruct (RoomRegEx.exec name) as [[r a]|] eqn:E; [|reflexivity].
      destruct (Hnone r a). now apply RoomRegExFacts.exec_sound.
  - intros p rest Hp%RoomRegExFacts.rooms_prefix_literal. unfold RoomRegEx.exec.
    rewrite (RoomRegExFacts.literal_ci_app _ _ rest Hp).
    now rewrite (RoomRegExFacts.literal_ci_app "/rooms/" "/rooms/" rest eq_refl).
  - exists "R"%char, "o"%char, "O"%char, "m"%char, "S"%char.
    unfold RoomRegEx.letter. auto 10.
  - apply Hno. discriminate.
  - apply Hno. discriminate.
  - intros a Hm%RoomRegExFacts.exec_complete. discriminate Hm.
  - reflexivity.
Qed.

(** ** Sessions of a running server *)

(** X21. In every reachable state a session holds what its socket's
    channel name says: its room name and role token are the two groups of
    the name, and its room identity is that of a room of the table with
    that visible identifier. *)
Theorem sessions_stay_bound (srv : Server) (s : Session) :
  reachable srv ->
  s ∈ sessions srv ->
  RoomRegEx.exec (nsp (socket s)) = Some (roomName s, admin s)
  /\ role_of_nsp (nsp (socket s)) = Some (role s)
  /\ exists room, room ∈ Rooms (store srv)
                  /\ room_visibleId room = roomName s
                  /\ room_id room = roomId s.
Proof.
  intros Hr Hs.
  destruct (bound_by_exec _ _ (reachable_sessions_bound srv Hr s Hs))
    as (He & room & Hroom & Hid).
  split; [exact He|]. split.
  - unfold role_of_nsp, role. now rewrite He.
  - exists room. apply room_by_visibleId_Some in Hroom. tauto.
Qed.

Lemma sessions_stay_bound_witness :
  reachable demo_launched
  /\ demo_admin ∈ sessions demo_launched
  /\ RoomRegEx.exec (nsp (socket demo_admin))
     = Some (roomName demo_admin, admin demo_admin)
  /\ role_of_nsp (nsp (socket demo_admin)) = Some (role demo_admin)
  /\ exists room, room ∈ Rooms (store demo_launched)
                  /\ room_visibleId room = roomName demo_admin
                  /\ room_id room = roomId demo_admin.
Proof.
  assert (reachable demo_launched) as Hr.
  { apply reachable_run. constructor. }
  assert (demo_admin ∈ sessions demo_launched) as Hs by apply list_elem_of_here.
  split; [exact Hr|]. split; [exact Hs|].
  exact (sessions_stay_bound demo_launched demo_admin Hr Hs).
Defined.

(** ** Responses to an ended poll *)

(** X22. The handler of [PollResponse] does not look at the end
    timestamp: a response to a poll that has been ended is counted as any
    other, and the row stays ended. *)
Theorem ended_poll_still_counts (s s2 : Session) (env env2 : Env) (st : Store)
    (pollId : Z) (prevChoice : option string) (newChoice : string) (poll : Poll) :
  poll_by_id st pollId = Some poll ->
  commit_ok env2 = true ->
  poll_by_id
    (fst (on_PollResponse s2 env2 pollId prevChoice newChoice
            (fst (on_PollEnd s env pollId st)))) pollId
  = Some (mkPoll (poll_id poll) (poll_roomId poll)
            (Tally.to_json (voted prevChoice newChoice (poll_values poll)))
            (poll_created_at poll) (Some (now env))).
Proof.
  intros Hp Hc.
  assert (poll_by_id (fst (on_PollEnd s env pollId st)) pollId
          = Some (set_ended_at (now env) poll)) as H1.
  { unfold on_PollEnd. cbn [fst]. rewrite poll_by_id_update by reflexivity.
    rewrite decide_True by reflexivity. now rewrite Hp. }
  now rewrite (response_stored s2 env2 _ pollId prevChoice newChoice _ H1 Hc).
Qed.

Lemma ended_poll_still_counts_witness :
  poll_by_id
    (fst (on_PollResponse demo_viewer demo_env 1 None "A"
            (fst (on_PollEnd demo_admin (mkEnv 300 true "u-3" 1 false) 1 demo_polled)))) 1
  = Some (mkPoll 1 1 (Tally.to_json (voted None "A" Tally.zero)) 100 (Some 300)).
Proof.
  exact (ended_poll_still_counts demo_admin demo_viewer (mkEnv 300 true "u-3" 1 false)
           demo_env demo_polled 1 None "A" (mkPoll 1 1 Tally.zero 100 None)
           eq_refl eq_refl).
Defined.

(** ** A transaction suspended between its select and its update *)

(** X23. A response whose transaction is suspended after its select holds
    the row it has read; the store is not touched and the transaction is
    in flight. When it is resumed and commits, it writes the tally computed
    from the row it read, whatever the table holds by then: every row of
    the poll's identity gets that tally, the administrators are sent it and
    the submitter is acknowledged, before the commit. *)
Theorem suspended_response_writes_what_it_read (srv : Server) (s : Session)
    (env : Env) (from : nat) (pollId : Z) (prevChoice : option string)
    (newChoice : string) (poll : Poll) :
  reachable srv ->
  crashed srv = false ->
  session_of srv from = Some s ->
  role s = Viewer ->
  poll ∈ Polls (store srv) ->
  poll_id poll = pollId ->
  step env srv (Suspend from (PollResponse pollId prevChoice newChoice))
  = (mkServer (store srv) (nsps srv) (sockets srv) (sessions srv)
       (inflight srv ++ [mkTxn (txn_seq srv) s pollId prevChoice newChoice true poll])
       (socket_seq srv) (S (txn_seq srv)) false,
     [TrxBegin; TrxSelect pollId])
  /\ forall later env2 n t,
       crashed later = false ->
       txn_of later n = Some t ->
       txn_ack t = true ->
       commit_ok env2 = true ->
       let values := voted (txn_prevChoice t) (txn_newChoice t)
                       (poll_values (txn_read t)) in
       Polls (store (fst (step env2 later (Resume n))))
       = update_poll (txn_pollId t) (set_values (Tally.to_json values))
           (Polls (store later))
       /\ (forall p, p ∈ Polls (store (fst (step env2 later (Resume n)))) ->
                     poll_id p = txn_pollId t ->
                     poll_values p = Tally.to_json values)
       /\ snd (step env2 later (Resume n))
          = [TrxUpdate (txn_pollId t) (Tally.to_json values);
             NspEmit (admin_nsp (roomName (txn_session t))) "PollResults"
               (TallyOf values);
             Callback (sid (socket (txn_session t))) (Choice (txn_newChoice t));
             TrxCommit].
Proof.
  intros Hr C Hs Hrole Hin Hid. split.
  - subst pollId. rewrite step_eq, C. simpl. rewrite Hs.
    assert ("PollResponse" ∈ registered (admin s)) as Hreg.
    { unfold role in Hrole. unfold registered.
      destruct (truthy (admin s)); [discriminate|]. in_names. }
    rewrite bool_decide_eq_true_2 by exact Hreg.
    unfold PollResponse_select.
    now rewrite (reachable_poll_by_id srv poll Hr Hin).
  - intros later env2 n t C2 Ht Hack Hc values. subst values.
    rewrite step_eq, C2. simpl. rewrite Ht.
    unfold PollResponse_write. rewrite Hack, Hc. cbn [fst snd store Polls with_Polls].
    split; [reflexivity|]. split; [|reflexivity].
    intros p (p0 & _ & [[-> Hne]|[-> _]])%elem_of_update_poll Hp;
      [contradiction|reflexivity].
Qed.

Lemma suspended_response_writes_what_it_read_witness :
  inflight (fst (step demo_env demo_launched (Suspend 1 (PollResponse 1 None "A"))))
  = [mkTxn 0 demo_viewer 1 None "A" true (mkPoll 1 1 Tally.zero 100 None)]
  /\ counts (store (fst (step demo_env
                           (fst (step demo_env
                                   (fst (run (boot demo_rooms) demo_suspended))
                                   (Resume 0)))
                           (Resume 1))))
     = [[Some 0; Some 1; Some 0; Some 0; Some 0]].
Proof.
  assert (reachable demo_launched) as Hr.
  { apply reachable_run. constructor. }
  assert (mkPoll 1 1 Tally.zero 100 None ∈ Polls (store demo_launched)) as Hin.
  { change (Polls (store demo_launched)) with [mkPoll 1 1 Tally.zero 100 None].
    apply list_elem_of_here. }
  destruct (suspended_response_writes_what_it_read demo_launched demo_viewer demo_env
              1 1 None "A" (mkPoll 1 1 Tally.zero 100 None)
              Hr eq_refl eq_refl eq_refl Hin eq_refl) as [H1 H2].
  split.
  - now rewrite H1.
  - unfold counts.
    rewrite (proj1 (H2 (fst (step demo_env (fst (run (boot demo_rooms) demo_suspended))
                              (Resume 0)))
                      demo_env 1%nat
                      (mkTxn 1 (mkSession (mkSocket 2 "/rooms/abc123") "abc123" 1 None)
                         1 None "B" true (mkPoll 1 1 Tally.zero 100 None))
                      eq_refl eq_refl eq_refl eq_refl)).
    vm_compute. reflexivity.
Defined.

(** ** Connections the connection handler serves *)

(** The session the connection handler binds on a name the authorizer lets
    through. *)
Lemma on_connection_role env st k :
  authorize st (nsp k) = true ->
  exists s out,
    on_connection env st k = (Some s, out) /\ socket s = k
    /\ (role s = Administrator <->
          exists r a, a <> "" /\ RoomRegEx.matches (nsp k) r (Some a))
    /\ (role s = Viewer <-> exists r, RoomRegEx.matches (nsp k) r None)
    /\ registered (admin s) =
         match role s with
         | Administrator =>
             ["PollLaunch"; "PollReveal"; "PollToggle"; "PollEnd";
              "QuestionApprove"; "QuestionClear";
              "QuestionAsk"; "QuestionUpvote"; "disconnect"]
         | Viewer =>
             ["PollResponse"; "ReactionSend";
              "QuestionAsk"; "QuestionUpvote"; "disconnect"]
         end.
Proof.
  unfold authorize, on_connection.
  destruct (RoomRegEx.exec (nsp k)) as [[r a]|] eqn:E; [|discriminate].
  destruct (room_by_visibleId st r) as [room|]; [|discriminate].
  intros _. eexists _, _. split; [reflexivity|]. split; [reflexivity|].
  unfold role, registered. simpl admin.
  destruct a as [a|].
  - pose proof (RoomRegExFacts.exec_admin_truthy _ _ _ E) as Ha.
    assert (truthy (Some a) = true) as ->.
    { simpl. destruct a; [congruence|reflexivity]. }
    repeat split; try discriminate; try reflexivity.
    + intros _. exists r, a. split; [assumption|].
      now apply RoomRegExFacts.exec_sound.
    + intros [r' Hm%RoomRegExFacts.exec_complete]. congruence.
  - simpl truthy. cbv iota.
    repeat split; try discriminate; try reflexivity.
    + intros (r' & a' & _ & Hm%RoomRegExFacts.exec_complete). congruence.
    + intros _. exists r. now apply RoomRegExFacts.exec_sound.
Qed.

(** X24. On a reachable, running server, a connection accepted on a
    channel that no emission has opened is served by the connection
    handler, which binds one session for the socket: its role is
    administrator exactly when the name carries a second token, viewer
    exactly when it carries none, and the events that reach a handler are
    those of the role's interface and the shared ones. *)
Theorem role_binding (env : Env) (srv : Server) (name : string) :
  reachable srv ->
  crashed srv = false ->
  nsps srv !! name <> Some Plain ->
  accepted env srv name ->
  exists s,
    sessions (fst (step env srv (Connect name))) = sessions srv ++ [s]
    /\ socket s = mkSocket (socket_seq srv) name
    /\ (role s = Administrator <->
          exists r a, a <> "" /\ RoomRegEx.matches name r (Some a))
    /\ (role s = Viewer <-> exists r, RoomRegEx.matches name r None)
    /\ registered (admin s) =
         match role s with
         | Administrator =>
             ["PollLaunch"; "PollReveal"; "PollToggle"; "PollEnd";
              "QuestionApprove"; "QuestionClear";
              "QuestionAsk"; "QuestionUpvote"; "disconnect"]
         | Viewer =>
             ["PollResponse"; "ReactionSend";
              "QuestionAsk"; "QuestionUpvote"; "disconnect"]
         end.
Proof.
  intros Hr C Hn Hacc.
  destruct (reachable_bound srv Hr) as (_ & _ & Hnsps & Hmain).
  apply (accepted_cases env srv name C) in Hacc.
  assert (authorize (store srv) name = true) as Ha.
  { destruct Hacc as [[kind Hk]|Ha]; [|exact Ha].
    destruct (Hnsps name kind Hk) as [->|Ha]; [|exact Ha].
    congruence. }
  destruct (on_connection_role env (store srv) (mkSocket (socket_seq srv) name) Ha)
    as (s & out & E & Hk & Hadm & Hview & Hreg).
  exists s. split; [|auto].
  rewrite step_sessions, C. simpl.
  destruct (nsps srv !! name) as [[|]|].
  - now rewrite E.
  - congruence.
  - now rewrite Ha, E.
Qed.

Lemma role_binding_witness :
  exists s,
    sessions (fst (step demo_env (boot demo_rooms) (Connect "/rooms/abc123/admin")))
    = sessions (boot demo_rooms) ++ [s]
    /\ socket s = mkSocket 0 "/rooms/abc123/admin"
    /\ (role s = Administrator <->
          exists r a, a <> "" /\ RoomRegEx.matches "/rooms/abc123/admin" r (Some a))
    /\ (role s = Viewer <-> exists r, RoomRegEx.matches "/rooms/abc123/admin" r None)
    /\ registered (admin s) =
         match role s with
         | Administrator =>
             ["PollLaunch"; "PollReveal"; "PollToggle"; "PollEnd";
              "QuestionApprove"; "QuestionClear";
              "QuestionAsk"; "QuestionUpvote"; "disconnect"]
         | Viewer =>
             ["PollResponse"; "ReactionSend";
              "QuestionAsk"; "QuestionUpvote"; "disconnect"]
         end.
Proof.
  apply (role_binding demo_env (boot demo_rooms) "/rooms/abc123/admin").
  - constructor.
  - reflexivity.
  - discriminate.
  - reflexivity.
Defined.

(** ** PollEnd *)

(** X25. After an administrator's [PollEnd] on a poll of the table, the
    rows of that identity carry the end timestamp, the viewers' namespace
    of the session's room has been sent [PollEnd] and the caller
    acknowledged with true; whatever happens next, no connecting client is
    replayed that poll. *)
Theorem PollEnd_and_replay (srv : Server) (env : Env) (from : nat) (s : Session)
    (pollId : Z) :
  reachable srv ->
  crashed srv = false ->
  session_of srv from = Some s ->
  role s = Administrator ->
  (exists p, p ∈ Polls (store srv) /\ poll_id p = pollId) ->
  let srv' := fst (step env srv (Receive from (PollEnd pollId))) in
  let out := snd (step env srv (Receive from (PollEnd pollId))) in
  (exists p, p ∈ Polls (store srv') /\ poll_id p = pollId)
  /\ (forall p, p ∈ Polls (store srv') -> poll_id p = pollId ->
        poll_ended_at p = Some (now env))
  /\ out = [NspEmit (viewer_nsp (roomName s)) "PollEnd" NoPayload;
            Callback (sid (socket s)) (Flag true)]
  /\ (forall inputs env2 name to,
        SocketEmit to "PollStart" (PollIdent pollId)
          ∉ snd (step env2 (fst (run srv' inputs)) (Connect name))).
Proof.
  intros Hr C Hs Hrole (p & Hp & Hid) srv' out. subst srv' out.
  rewrite (step_receive env srv from s _ C Hs).
  rewrite dispatch_administrator by (assumption || in_names).
  change (handler s env (PollEnd pollId) (store srv))
    with (on_PollEnd s env pollId (store srv)).
  cbn [on_PollEnd fst snd store].
  assert (forall q, q ∈ update_poll pollId (set_ended_at (now env)) (Polls (store srv)) ->
                    poll_id q = pollId -> poll_ended_at q = Some (now env)) as Hended.
  { intros q (p0 & _ & [[-> Hne]|[-> _]])%elem_of_update_poll Hq;
      [contradiction|reflexivity]. }
  split; [|split; [|split]].
  - exists (set_ended_at (now env) p). split; [|exact Hid].
    pose proof (update_poll_elem pollId (set_ended_at (now env)) _ p Hp) as H.
    now rewrite decide_True in H.
  - exact Hended.
  - reflexivity.
  - intros inputs env2 name to.
    apply (ended_for_good_no_replay pollId _ env2 name to), ended_for_good_run.
    split; simpl.
    + rewrite <- Hid. now apply reachable_poll_ids.
    + intros q Hq Hqid. rewrite (Hended q Hq Hqid). discriminate.
Qed.

Lemma PollEnd_and_replay_witness :
  reachable demo_launched
  /\ session_of demo_launched 0 = Some demo_admin
  /\ role demo_admin = Administrator
  /\ (exists p, p ∈ Polls (store demo_launched) /\ poll_id p = 1)
  /\ (forall p,
        p ∈ Polls (store (fst (step demo_env demo_launched (Receive 0 (PollEnd 1))))) ->
        poll_id p = 1 -> poll_ended_at p = Some (now demo_env))
  /\ (forall inputs env2 name to,
        SocketEmit to "PollStart" (PollIdent 1)
          ∉ snd (step env2
                   (fst (run (fst (step demo_env demo_launched (Receive 0 (PollEnd 1))))
                           inputs))
                   (Connect name))).
Proof.
  assert (reachable demo_launched) as Hr.
  { apply reachable_run. constructor. }
  assert (session_of demo_launched 0 = Some demo_admin) as Hs by reflexivity.
  assert (role demo_admin = Administrator) as Hrole by reflexivity.
  assert (exists p, p ∈ Polls (store demo_launched) /\ poll_id p = 1) as Hp.
  { exists (mkPoll 1 1 Tally.zero 100 None).
    split; [apply list_elem_of_here|reflexivity]. }
  pose proof (PollEnd_and_replay demo_launched demo_env 0 demo_admin 1 Hr eq_refl
                Hs Hrole Hp) as (_ & Hend & _ & Hno).
  repeat split; assumption.
Defined.

(** ** Who is sent the clear signal *)

Lemma admin_nsp_not_viewer_nsp st s :
  bound_by st s -> role s = Administrator ->
  nsp (socket s) <> viewer_nsp (roomName s).
Proof.
  intros Hs Hr E. pose proof (viewer_nsp_role _ _ Hs) as Hv.
  destruct (bound_by_exec _ _ Hs) as [He _].
  unfold role_of_nsp in Hv. rewrite <- E, He in Hv.
  unfold role in Hr. destruct (truthy (admin s)); discriminate.
Qed.

(** X26. A [QuestionClear] that carries an object for argument leaves no
    question of the session's room and keeps the questions of the other
    rooms; the initiating administrator's socket is sent the clear signal
    once, and any other socket once if it is connected to the viewers'
    namespace of the room and not at all otherwise. *)
Theorem QuestionClear_signal (st : Store) (s : Session) (env : Env) :
  bound_by st s ->
  role s = Administrator ->
  let st' := fst (dispatch s env QuestionClear st) in
  let out := snd (dispatch s env QuestionClear st) in
  (forall q, q ∈ Questions st' -> question_roomId q <> roomId s)
  /\ filter (fun q => question_roomId q <> roomId s) (Questions st')
     = filter (fun q => question_roomId q <> roomId s) (Questions st)
  /\ received_clears (socket s) out = 1%nat
  /\ (forall k, sid k <> sid (socket s) ->
        received_clears k out =
          if decide (nsp k = viewer_nsp (roomName s)) then 1%nat else 0%nat).
Proof.
  intros Hs Hr st' out. subst st' out.
  rewrite dispatch_administrator by (assumption || in_names).
  change (handler s env QuestionClear st) with (on_QuestionClear s st).
  simpl. split; [|split; [|split]].
  - intros q Hq. apply list_elem_of_filter in Hq. tauto.
  - rewrite list_filter_filter. apply list_filter_iff. tauto.
  - unfold received_clears, inbox. rewrite !filter_cons, filter_nil. simpl.
    pose proof (admin_nsp_not_viewer_nsp _ _ Hs Hr) as Hne.
    rewrite bool_decide_eq_false_2 by congruence.
    rewrite bool_decide_eq_true_2 by reflexivity.
    rewrite decide_False by discriminate.
    rewrite decide_True by reflexivity.
    rewrite filter_cons, filter_nil. reflexivity.
  - intros k Hk. unfold received_clears, inbox. rewrite !filter_cons, filter_nil.
    simpl. rewrite (bool_decide_eq_false_2 (sid (socket s) = sid k)) by congruence.
    rewrite (decide_False (P := false = true)) by discriminate.
    destruct (decide (nsp k = viewer_nsp (roomName s))) as [E|E].
    + rewrite bool_decide_eq_true_2 by congruence.
      rewrite decide_True by reflexivity.
      rewrite filter_cons, filter_nil. reflexivity.
    + rewrite bool_decide_eq_false_2 by congruence.
      rewrite decide_False by discriminate. reflexivity.
Qed.

Lemma QuestionClear_signal_witness :
  bound_by demo_asked demo_admin
  /\ role demo_admin = Administrator
  /\ let st' := fst (dispatch demo_admin demo_env QuestionClear demo_asked) in
     let out := snd (dispatch demo_admin demo_env QuestionClear demo_asked) in
     (forall q, q ∈ Questions st' -> question_roomId q <> roomId demo_admin)
     /\ filter (fun q => question_roomId q <> roomId demo_admin) (Questions st')
        = filter (fun q => question_roomId q <> roomId demo_admin)
            (Questions demo_asked)
     /\ received_clears (socket demo_admin) out = 1%nat
     /\ (forall k, sid k <> sid (socket demo_admin) ->
           received_clears k out =
             if decide (nsp k = viewer_nsp (roomName demo_admin))
             then 1%nat else 0%nat).
Proof.
  assert (bound_by demo_asked demo_admin) as Hs.
  { exists demo_env. eexists. reflexivity. }
  assert (role demo_admin = Administrator) as Hr by reflexivity.
  split; [exact Hs|]. split; [exact Hr|].
  exact (QuestionClear_signal demo_asked demo_admin demo_env Hs Hr).
Defined.

(** ** A response whose transaction runs alone *)

(** X27. A response from a viewer's session to a poll of the table, with
    its argument and acknowledgement function, whose transaction runs
    without another response in between and commits. The row of the poll is
    the only one rewritten, and only in its tally. A count that is a safe
    integer becomes the count before, less one exactly if its key is the
    previous choice, plus one exactly if it is the new choice; a previous
    choice that is the empty string counts as none. Without a previous
    choice no count goes down. The trace is one transaction with a single
    update, which writes the tally the row then holds. *)
Theorem PollResponse_tally (srv : Server) (s : Session) (env : Env) (from : nat)
    (pollId : Z) (prevChoice : option string) (newChoice : string) (poll : Poll) :
  reachable srv ->
  crashed srv = false ->
  session_of srv from = Some s ->
  role s = Viewer ->
  poll ∈ Polls (store srv) ->
  poll_id poll = pollId ->
  commit_ok env = true ->
  let i := Receive from (PollResponse pollId prevChoice newChoice) in
  let st' := store (fst (step env srv i)) in
  let values := voted prevChoice newChoice (poll_values poll) in
  Polls st'
  = map (fun p => if decide (poll_id p = pollId)
                  then mkPoll (poll_id poll) (poll_roomId poll) (Tally.to_json values)
                         (poll_created_at poll) (poll_ended_at poll)
                  else p)
      (Polls (store srv))
  /\ Rooms st' = Rooms (store srv) /\ Questions st' = Questions (store srv)
  /\ (forall k n, k <> "" ->
        Tally.count (poll_values poll) k = Some n -> safe n ->
        Tally.count (Tally.to_json values) k =
          Some (n - (if decide (prevChoice = Some k) then 1 else 0)
                  + (if decide (newChoice = k) then 1 else 0)))
  /\ (prevChoice = None \/ prevChoice = Some "" ->
        forall k n, Tally.count (poll_values poll) k = Some n -> in_range n ->
          exists n', Tally.count (Tally.to_json values) k = Some n' /\ n <= n')
  /\ snd (step env srv i)
     = [TrxBegin; TrxSelect pollId; TrxUpdate pollId (Tally.to_json values);
        NspEmit (admin_nsp (roomName s)) "PollResults" (TallyOf values);
        Callback (sid (socket s)) (Choice newChoice);
        TrxCommit].
Proof.
  intros Hr C Hs Hrole Hin Hid Hc i st' values. subst i st' values. subst pollId.
  pose proof (reachable_poll_by_id srv poll Hr Hin) as Hp.
  pose proof (reachable_poll_keys srv Hr) as Hkeys.
  destruct (step_response env srv from s (poll_id poll) prevChoice newChoice C Hs Hrole)
    as (-> & _ & _ & ->).
  rewrite on_PollResponse_out, Hp, Hc.
  unfold on_PollResponse. rewrite Hp, Hc.
  fold (voted prevChoice newChoice (poll_values poll)). cbn [fst Polls Rooms Questions
    with_Polls].
  split; [|split; [reflexivity|split; [reflexivity|split; [|split; [|reflexivity]]]]].
  - unfold update_poll. apply map_ext_in. intros p Hp'%list_elem_of_In.
    case_decide as Hpid; [|reflexivity].
    assert (p = poll) as ->.
    { pose proof (reachable_poll_by_id srv p Hr Hp') as Hp''.
      rewrite Hpid, Hp in Hp''. congruence. }
    reflexivity.
  - intros k n Hk Hn Hsafe. rewrite TallyFacts.count_to_json.
    now apply TallyFacts.count_voted_safe.
  - intros Hnone k n Hn Hrange. rewrite TallyFacts.count_to_json.
    assert (voted prevChoice newChoice (poll_values poll)
            = Tally.add_assign newChoice 1 (poll_values poll)) as ->.
    { destruct Hnone as [-> | ->]; reflexivity. }
    rewrite (TallyFacts.count_add_assign_up _ _ _ _ Hn Hrange).
    eexists. split; [reflexivity|]. unfold in_range in Hrange.
    case_decide; lia.
Qed.

Lemma PollResponse_tally_witness :
  counts (store (fst (step demo_env demo_launched (Receive 1 (PollResponse 1 None "A")))))
  = [[Some 1; Some 0; Some 0; Some 0; Some 0]]
  /\ Tally.count (Tally.to_json (voted None "A" Tally.zero)) "A" = Some (0 - 0 + 1).
Proof.
  assert (reachable demo_launched) as Hr.
  { apply reachable_run. constructor. }
  assert (mkPoll 1 1 Tally.zero 100 None ∈ Polls (store demo_launched)) as Hin.
  { change (Polls (store demo_launched)) with [mkPoll 1 1 Tally.zero 100 None].
    apply list_elem_of_here. }
  destruct (PollResponse_tally demo_launched demo_viewer demo_env 1 1 None "A"
              (mkPoll 1 1 Tally.zero 100 None) Hr eq_refl eq_refl eq_refl Hin
              eq_refl eq_refl) as (Hpolls & _ & _ & Hcount & _).
  split.
  - unfold counts. rewrite Hpolls. vm_compute. reflexivity.
  - apply (Hcount "A" 0); [discriminate|reflexivity|]. unfold safe. simpl. lia.
Defined.
